(** * overlook-blm-rss: the feed builders of [scripts/build.js]

    The repository holds three builds of one pipeline (keyword search through a
    headless browser, keyword search through [fetch], advanced search through
    [fetch]).  This development embeds their pure parts and their loops in Rocq
    and proves the properties the specification states about them.

    Strings are JavaScript strings: finite sequences of UTF-16 code units.
    A code unit is a number ([N]); regular expressions without the [u] flag,
    [trim], [split] and [replace] all work on code units, so the embedding is
    exact for them. *)

From Stdlib Require Import NArith String Ascii List Lia.
From stdpp Require Import base option list gmap.

Set Warnings "-register-all,-clear-no-such-hyp".

Local Open Scope N_scope.

(** ** Strings *)

Definition char : Type := N.
Definition jsstring : Type := list char.

(** An ASCII literal of the source, as code units. *)
Definition lit (s : string) : jsstring :=
  List.map N_of_ascii (list_ascii_of_string s).

Definition chr (a : ascii) : char := N_of_ascii a.

Arguments lit : simpl never.
Arguments chr : simpl never.

(** The double quote, U+0022. *)
Definition c_quot : char := 34.

(** [s === t] in JavaScript, for two strings. *)
Definition str_eqb (s t : jsstring) : bool := bool_decide (s = t).

(** A string is truthy when it is not empty. *)
Definition truthyStr (s : jsstring) : bool :=
  match s with [] => false | _ => true end.

(** ECMAScript [WhiteSpace] and [LineTerminator] code units: what
    [String.prototype.trim] removes. *)
Definition isWhiteSpace (c : char) : bool :=
  (c =? 9) || (c =? 10) || (c =? 11) || (c =? 12) || (c =? 13) || (c =? 32)
  || (c =? 160) || (c =? 5760) || ((8192 <=? c) && (c <=? 8202))
  || (c =? 8232) || (c =? 8233) || (c =? 8239) || (c =? 8287)
  || (c =? 12288) || (c =? 65279).

Fixpoint trimStart (s : jsstring) : jsstring :=
  match s with
  | [] => []
  | c :: t => if isWhiteSpace c then trimStart t else s
  end.

Fixpoint trimEnd (s : jsstring) : jsstring :=
  match s with
  | [] => []
  | c :: t =>
      match trimEnd t with
      | [] => if isWhiteSpace c then [] else [c]
      | t' => c :: t'
      end
  end.

(** [s.trim()] *)
Definition trim (s : jsstring) : jsstring := trimEnd (trimStart s).

(** [parts.join(sep)] on an array of strings. *)
Fixpoint join (sep : jsstring) (parts : list jsstring) : jsstring :=
  match parts with
  | [] => []
  | [p] => p
  | p :: rest => p ++ sep ++ join sep rest
  end.

(** [s.split(sep)] for a separator of one code unit: the empty string splits
    into one empty piece. *)
Fixpoint split (sep : char) (s : jsstring) : list jsstring :=
  match s with
  | [] => [[]]
  | c :: t =>
      if c =? sep then [] :: split sep t
      else match split sep t with
           | [] => [[c]]
           | piece :: rest => (c :: piece) :: rest
           end
  end.

Fixpoint startsWith (p s : jsstring) : bool :=
  match p, s with
  | [], _ => true
  | _ :: _, [] => false
  | a :: p', b :: s' => (a =? b) && startsWith p' s'
  end.

(** [s.includes(sub)] *)
Fixpoint includes (s sub : jsstring) : bool :=
  startsWith sub s ||
  match s with
  | [] => false
  | _ :: t => includes t sub
  end.

(** [s.replace(/[class]/g, f)]: every code unit of the class is replaced by
    what the callback returns for it, the others are copied. *)
Definition replaceClass (cls : char -> bool) (f : char -> jsstring)
    (s : jsstring) : jsstring :=
  flat_map (fun c => if cls c then f c else [c]) s.

(** ** escapeXml *)

(** The character class of the regular expression: less-than, greater-than,
    ampersand, apostrophe and double quote. *)
Definition reservedClass (c : char) : bool :=
  (c =? chr "<") || (c =? chr ">") || (c =? chr "&") || (c =? chr "'")
  || (c =? c_quot).

(** The object literal the replacement callback indexes. *)
Definition entityTable : list (char * jsstring) :=
  [ (chr "<", lit "&lt;"); (chr ">", lit "&gt;"); (chr "&", lit "&amp;");
    (chr "'", lit "&apos;"); (c_quot, lit "&quot;") ].

Fixpoint assoc {A : Type} (k : char) (tbl : list (char * A)) : option A :=
  match tbl with
  | [] => None
  | (k', v) :: rest => if k =? k' then Some v else assoc k rest
  end.

(** [c => table[c]]: a missing key would yield [undefined], which [replace]
    inserts as the text "undefined". *)
Definition entityOf (c : char) : jsstring :=
  match assoc c entityTable with
  | Some e => e
  | None => lit "undefined"
  end.

(** [escapeXml(s)] on a string argument. *)
Definition escapeXml (s : jsstring) : jsstring :=
  replaceClass reservedClass entityOf s.

(** The five named entities, as the specification lists them. *)
Definition namedEntity (c : char) : option jsstring :=
  if c =? chr "&" then Some (lit "&amp;")
  else if c =? chr "<" then Some (lit "&lt;")
  else if c =? chr ">" then Some (lit "&gt;")
  else if c =? chr "'" then Some (lit "&apos;")
  else if c =? c_quot then Some (lit "&quot;")
  else None.

Lemma entityOf_reserved c :
  reservedClass c = true -> namedEntity c = Some (entityOf c).
Proof.
  unfold reservedClass, namedEntity, entityOf, entityTable, assoc.
  destruct (c =? chr "&") eqn:Ea, (c =? chr "<") eqn:El,
    (c =? chr ">") eqn:Eg, (c =? chr "'") eqn:Eq', (c =? c_quot) eqn:Eq2;
    try reflexivity; try discriminate;
    repeat match goal with H : (_ =? _) = true |- _ =>
      apply N.eqb_eq in H end; subst; discriminate.
Qed.

Lemma namedEntity_unreserved c :
  reservedClass c = false -> namedEntity c = None.
Proof.
  unfold reservedClass, namedEntity.
  destruct (c =? chr "&"), (c =? chr "<"), (c =? chr ">"), (c =? chr "'"),
    (c =? c_quot); simpl; congruence.
Qed.

(** The five reserved characters: ampersand, less-than, greater-than,
    apostrophe, double quote. *)
Definition reservedChars : list char :=
  [chr "&"; chr "<"; chr ">"; chr "'"; c_quot].

Lemma namedEntity_other c : c ∉ reservedChars -> namedEntity c = None.
Proof.
  unfold reservedChars, namedEntity. intros H.
  repeat match goal with
  | |- context [?a =? ?b] =>
      destruct (N.eqb_spec a b);
      [exfalso; apply H; subst; set_solver|]
  end.
  reflexivity.
Qed.

(** C9: [escapeXml] replaces every occurrence of the five reserved characters
    by its named entity and copies every other code unit; a string without
    reserved characters is returned as it is. *)
Theorem escapeXml_entities (s : jsstring) :
  escapeXml s = flat_map (fun c => default [c] (namedEntity c)) s
  /\ (Forall (fun c => c ∉ reservedChars) s -> escapeXml s = s).
Proof.
  assert (H : escapeXml s = flat_map (fun c => default [c] (namedEntity c)) s).
  { unfold escapeXml, replaceClass. induction s as [|c s IH]; [reflexivity|].
    simpl. rewrite IH. f_equal.
    destruct (reservedClass c) eqn:E.
    - now rewrite (entityOf_reserved c E).
    - now rewrite (namedEntity_unreserved c E). }
  split; [exact H|]. rewrite H. clear H.
  induction 1 as [|c s Hc _ IH]; [reflexivity|].
  cbn [flat_map]. rewrite IH, (namedEntity_other c Hc). reflexivity.
Qed.

Example escapeXml_title :
  escapeXml (lit "R&D <'Solar'>") = lit "R&amp;D &lt;&apos;Solar&apos;&gt;".
Proof. vm_compute. reflexivity. Qed.

(** ** Exceptions *)

(** What a call can throw.  The code modelled here catches nothing, so the
    kind of the exception only matters for reading the model against the
    source. *)
Inductive error : Type :=
| TypeError      (* a property read on null, a call of a non-function *)
| SyntaxError    (* a body that is not JSON *)
| URIError       (* encodeURIComponent on a lone surrogate *)
| NetworkError.  (* a rejected fetch *)

Inductive result (A : Type) : Type :=
| Ok (a : A)
| Throw (e : error).
Arguments Ok {A} a.
Arguments Throw {A} e.

#[global] Instance result_ret : MRet result := fun A a => Ok a.
#[global] Instance result_bind : MBind result := fun A B f m =>
  match m with
  | Ok a => f a
  | Throw e => Throw e
  end.

(** [rows.map(f)] for a callback that may throw: rows are visited in order and
    the first exception ends the call. *)
Fixpoint mapR {A B : Type} (f : A -> result B) (l : list A) : result (list B) :=
  match l with
  | [] => Ok []
  | x :: rest => y ← f x; ys ← mapR f rest; Ok (y :: ys)
  end.

(** ** JSON values *)

(** A value [JSON.parse] returns.  A number is represented by the text
    [String(n)] gives for it (both zeros give the text 0); an object by its own
    properties, each key once. *)
Inductive json : Type :=
| JNull
| JBool (b : bool)
| JNum (repr : jsstring)
| JStr (s : jsstring)
| JArr (items : list json)
| JObj (fields : list (jsstring * json)).

(** A JavaScript value of the scripts: [None] is [undefined]. *)
Definition value : Type := option json.

Fixpoint lookupKey (k : jsstring) (fields : list (jsstring * json)) : value :=
  match fields with
  | [] => None
  | (k', v) :: rest => if str_eqb k k' then Some v else lookupKey k rest
  end.

(** [v.k] for the property names the scripts read.  None of them is a
    property of a string, number, boolean or array, nor of
    [Object.prototype]; reading a property of [null] throws. *)
Definition getProp (v : json) (k : string) : result value :=
  match v with
  | JNull => Throw TypeError
  | JObj fields => Ok (lookupKey (lit k) fields)
  | _ => Ok None
  end.

(** [Boolean(v)] *)
Definition truthy (v : value) : bool :=
  match v with
  | None => false
  | Some JNull => false
  | Some (JBool b) => b
  | Some (JNum r) => negb (str_eqb r (lit "0"))
  | Some (JStr s) => truthyStr s
  | Some (JArr _) => true
  | Some (JObj _) => true
  end.

(** [v == null]: the values the operator [??] skips. *)
Definition nullish (v : value) : bool :=
  match v with
  | None => true
  | Some JNull => true
  | Some _ => false
  end.

(** [Array.isArray(v) ? v : other] *)
Definition asArray (v : value) : option (list json) :=
  match v with
  | Some (JArr l) => Some l
  | _ => None
  end.

(** [String(v)] and [v.toString()] for a parsed value.  An array joins its
    elements with a comma, null elements giving the empty text.  An object
    gives the text of [Object.prototype.toString] unless it has an own
    property named toString: that property holds no function, so the
    conversion throws. *)
Fixpoint toStr (v : json) : result jsstring :=
  match v with
  | JNull => Ok (lit "null")
  | JBool b => Ok (if b then lit "true" else lit "false")
  | JNum r => Ok r
  | JStr s => Ok s
  | JArr items =>
      (fix joinItems (l : list json) : result jsstring :=
         match l with
         | [] => Ok []
         | x :: rest =>
             a ← match x with JNull => Ok [] | _ => toStr x end;
             match rest with
             | [] => Ok a
             | _ :: _ => b ← joinItems rest; Ok (a ++ lit "," ++ b)
             end
         end) items
  | JObj fields =>
      match lookupKey (lit "toString") fields with
      | Some _ => Throw TypeError
      | None => Ok (lit "[object Object]")
      end
  end.

(** [values.join(sep)] on an array of values. *)
Fixpoint joinValues (sep : jsstring) (l : list value) : result jsstring :=
  match l with
  | [] => Ok []
  | x :: rest =>
      a ← match x with
          | None => Ok []
          | Some JNull => Ok []
          | Some v => toStr v
          end;
      match rest with
      | [] => Ok a
      | _ :: _ => b ← joinValues sep rest; Ok (a ++ sep ++ b)
      end
  end.

(** ** Records *)

(** The object [normalizeRows] builds for a row; the fallbacks build the same
    shape with [raw] undefined.  [id], [title] and [state] are strings by
    construction; the other fields hold whatever the upstream row held. *)
Record Rec : Type := mkRec {
  id : jsstring;
  title : jsstring;
  url : value;
  state : option jsstring;
  office : value;
  nepaStatus : value;
  nepaType : value;
  raw : value
}.

Definition projectUrl (ident : jsstring) : jsstring :=
  lit "https://eplanning.blm.gov/eplanning-ui/project/" ++ ident ++ lit "/510".

(** ** normalizeRows *)

(** The row list of a payload: the conditional chain at the head of
    [normalizeRows]. *)
Definition locateRows (data : json) : result (list json) :=
  match data with
  | JArr l => Ok l
  | _ =>
    items ← getProp data "items";
    match asArray items with
    | Some l => Ok l
    | None =>
      content ← getProp data "content";
      match asArray content with
      | Some l => Ok l
      | None =>
        results ← getProp data "results";
        match asArray results with
        | Some l => Ok l
        | None =>
          data' ← getProp data "data";
          match asArray data' with
          | Some l => Ok l
          | None => Ok []
          end
        end
      end
    end
  end.

(** [p.k1 ?? p.k2 ?? ... ?? undefined] *)
Fixpoint firstPresent (p : json) (keys : list string) : result value :=
  match keys with
  | [] => Ok None
  | k :: rest =>
      v ← getProp p k;
      if nullish v then firstPresent p rest else Ok v
  end.

Definition idFields : list string :=
  ["id"; "projectId"; "nepaId"; "documentId"; "projectID"; "nepaNumber"]%string.

(** The callback of [rows.map]. *)
Definition normalizeRow (p : json) : result Rec :=
  idv ← firstPresent p idFields;
  ids ← match idv with Some v => toStr v | None => Ok [] end;
  let id := trim ids in
  tv ← firstPresent p ["projectName"; "title"; "name"]%string;
  ts ← match tv with
       | Some v => toStr v
       | None => Ok (lit "BLM Project " ++ id)
       end;
  let title := trim ts in
  st ← getProp p "state";
  states ← (if truthy st then Ok [st]
            else sts ← getProp p "states";
                 Ok (match asArray sts with
                     | Some l => List.map Some l
                     | None => []
                     end));
  joined ← joinValues (lit ", ") (List.filter truthy states);
  let state := if truthyStr joined then Some joined else None in
  office ← firstPresent p ["leadOfficeName"; "office"; "fieldOffice"]%string;
  nepaStatus ← firstPresent p ["nepaStatus"; "nepaStage"; "status"]%string;
  nepaType ← firstPresent p ["nepaDocType"; "type"]%string;
  u ← getProp p "url";
  url ← (if nullish u then
           pid ← getProp p "projectId";
           if truthy pid then
             s ← match pid with Some v => toStr v | None => Ok [] end;
             Ok (Some (JStr (projectUrl s)))
           else if truthyStr id then Ok (Some (JStr (projectUrl id)))
           else Ok None
         else Ok u);
  Ok (mkRec id title url state office nepaStatus nepaType (Some p)).

(** The predicate of [.filter(x => x.id && x.url)]. *)
Definition kept (x : Rec) : bool := truthyStr (id x) && truthy (url x).

Definition normalizeRows (data : json) : result (list Rec) :=
  rows ← locateRows data;
  mapped ← mapR normalizeRow rows;
  Ok (List.filter kept mapped).

(** *** Locating the row list *)

(** The row list as the specification words it: the payload itself if it is a
    list, else the first of the fields items, content, results, data whose
    value is a list, else no rows. *)
Definition specRows (data : json) : list json :=
  match data with
  | JArr l => l
  | JObj fields =>
      let field k := asArray (lookupKey (lit k) fields) in
      match field "items"%string, field "content"%string,
            field "results"%string, field "data"%string with
      | Some l, _, _, _ => l
      | None, Some l, _, _ => l
      | None, None, Some l, _ => l
      | None, None, None, Some l => l
      | None, None, None, None => []
      end
  | _ => []
  end.

Lemma locateRows_non_null (data : json) :
  data <> JNull -> locateRows data = Ok (specRows data).
Proof.
  intros Hnn. destruct data as [| b | r | s | l | fields];
    try reflexivity; [congruence|].
  unfold locateRows, specRows, getProp. cbn [mbind result_bind].
  destruct (asArray (lookupKey (lit "items") fields)); [reflexivity|].
  destruct (asArray (lookupKey (lit "content") fields)); [reflexivity|].
  destruct (asArray (lookupKey (lit "results") fields)); [reflexivity|].
  destruct (asArray (lookupKey (lit "data") fields)); reflexivity.
Qed.

(** C4: on the payload [null] the first property read of [normalizeRows]
    throws a TypeError; no row list, not even the empty one, is returned. *)
Theorem normalizeRows_null_throws :
  locateRows JNull = Throw TypeError /\ normalizeRows JNull = Throw TypeError.
Proof. split; reflexivity. Qed.

(** A null entry of a located row list ends the call in the same way. *)
Example normalizeRows_null_row :
  normalizeRows (JArr [JNull]) = Throw TypeError.
Proof. reflexivity. Qed.

(** *** Discarding rows without identity *)

Lemma bind_Ok {A B : Type} (m : result A) (f : A -> result B) (b : B) :
  (x ← m; f x) = Ok b -> exists a, m = Ok a /\ f a = Ok b.
Proof. destruct m as [a|e]; cbn; [eauto | discriminate]. Qed.

Ltac bind_inv H :=
  let a := fresh "a" in
  let Ha := fresh "Ha" in
  apply bind_Ok in H as (a & Ha & H).

Lemma mapR_Forall2 {A B : Type} (f : A -> result B) l l' :
  mapR f l = Ok l' -> Forall2 (fun x y => f x = Ok y) l l'.
Proof.
  revert l'. induction l as [|x l IH]; intros l' H; cbn in H.
  - injection H as <-. constructor.
  - bind_inv H. bind_inv H. injection H as <-. constructor; auto.
Qed.

Lemma normalizeRow_raw p r : normalizeRow p = Ok r -> raw r = Some p.
Proof.
  unfold normalizeRow. intros H. repeat bind_inv H. now injection H as <-.
Qed.

(** A row none of whose identity fields holds a value. *)
Definition noIdField (p : json) : Prop :=
  exists fields, p = JObj fields /\
    Forall (fun k => nullish (lookupKey (lit k) fields) = true) idFields.

Lemma firstPresent_absent fields keys :
  Forall (fun k => nullish (lookupKey (lit k) fields) = true) keys ->
  firstPresent (JObj fields) keys = Ok None.
Proof.
  induction 1 as [|k keys Hk _ IH]; [reflexivity|].
  cbn. now rewrite Hk.
Qed.

Lemma normalizeRow_noIdField p r :
  noIdField p -> normalizeRow p = Ok r -> id r = [].
Proof.
  intros (fields & -> & Habs) H. unfold normalizeRow in H.
  rewrite (firstPresent_absent _ _ Habs) in H. cbn in H.
  repeat bind_inv H. now injection H as <-.
Qed.

(** A row as the upstream usually sends it: an object whose properties hold
    texts, numbers, booleans or null.  Such a row is always normalized. *)
Definition scalar (v : json) : Prop :=
  match v with
  | JArr _ | JObj _ => False
  | _ => True
  end.

Definition plainRow (p : json) : Prop :=
  exists fields, p = JObj fields /\ Forall (fun kv => scalar (snd kv)) fields.

Lemma lookupKey_scalar fields k v :
  Forall (fun kv => scalar (snd kv)) fields ->
  lookupKey k fields = Some v -> scalar v.
Proof.
  induction 1 as [|[k' v'] fields Hv _ IH]; [discriminate|].
  cbn [lookupKey]. destruct (str_eqb k k'); [|exact IH].
  now intros [= <-].
Qed.

Lemma toStr_scalar v : scalar v -> exists s, toStr v = Ok s.
Proof. destruct v; cbn; try contradiction; eauto. Qed.

Lemma firstPresent_scalar fields keys :
  Forall (fun kv => scalar (snd kv)) fields ->
  exists v, firstPresent (JObj fields) keys = Ok v
            /\ match v with Some x => scalar x | None => True end.
Proof.
  intros Hf. induction keys as [|k keys IH]; [now exists None|].
  cbn [firstPresent getProp mbind result_bind].
  destruct (lookupKey (lit k) fields) as [x|] eqn:E; [|exact IH].
  destruct x; try exact IH; eexists; (split; [reflexivity|]);
    now apply (lookupKey_scalar _ _ _ Hf E).
Qed.

Lemma normalizeRow_plain p : plainRow p -> exists r, normalizeRow p = Ok r.
Proof.
  intros (fields & -> & Hf). unfold normalizeRow.
  destruct (firstPresent_scalar fields idFields Hf) as (idv & -> & Hid).
  cbn [mbind result_bind].
  assert (exists ids, match idv with Some v => toStr v | None => Ok [] end
                      = Ok ids) as [ids ->].
  { destruct idv; [now apply toStr_scalar|eauto]. }
  cbn [mbind result_bind].
  destruct (firstPresent_scalar fields ["projectName"; "title"; "name"]%string Hf)
    as (tv & -> & Htv). cbn [mbind result_bind].
  assert (exists ts, match tv with
                     | Some v => toStr v
                     | None => Ok (lit "BLM Project " ++ trim ids)
                     end = Ok ts) as [ts ->].
  { destruct tv; [now apply toStr_scalar|eauto]. }
  cbn [mbind result_bind getProp].
  assert (exists joined,
            (states ← (if truthy (lookupKey (lit "state") fields)
                       then Ok [lookupKey (lit "state") fields]
                       else Ok (match asArray (lookupKey (lit "states") fields) with
                                | Some l => List.map Some l
                                | None => []
                                end));
             joinValues (lit ", ") (List.filter truthy states)) = Ok joined)
    as [joined Hj].
  { destruct (lookupKey (lit "state") fields) as [x|] eqn:E.
    - pose proof (lookupKey_scalar _ _ _ Hf E) as Hx.
      destruct (truthy (Some x)) eqn:Ex.
      + cbn [mbind result_bind List.filter]. rewrite Ex.
        destruct x; cbn; try contradiction; eauto.
      + destruct (lookupKey (lit "states") fields) as [y|] eqn:E2; [|cbn; eauto].
        pose proof (lookupKey_scalar _ _ _ Hf E2) as Hy.
        destruct y; cbn; try contradiction; eauto.
    - cbn [truthy].
      destruct (lookupKey (lit "states") fields) as [y|] eqn:E2; [|cbn; eauto].
      pose proof (lookupKey_scalar _ _ _ Hf E2) as Hy.
      destruct y; cbn; try contradiction; eauto. }
  revert Hj. cbn [mbind result_bind].
  destruct (if truthy (lookupKey (lit "state") fields) then _ else _)
    as [states|e]; [|discriminate].
  cbn [mbind result_bind]. intros ->. cbn [mbind result_bind].
  destruct (firstPresent_scalar fields
              ["leadOfficeName"; "office"; "fieldOffice"]%string Hf)
    as (o & -> & _).
  destruct (firstPresent_scalar fields
              ["nepaStatus"; "nepaStage"; "status"]%string Hf)
    as (ns & -> & _).
  destruct (firstPresent_scalar fields ["nepaDocType"; "type"]%string Hf)
    as (nt & -> & _).
  cbn [mbind result_bind].
  destruct (nullish (lookupKey (lit "url") fields)); [|cbn; eauto].
  destruct (lookupKey (lit "projectId") fields) as [x|] eqn:E.
  - pose proof (lookupKey_scalar _ _ _ Hf E) as Hx.
    destruct (truthy (Some x)).
    + destruct (toStr_scalar x Hx) as [sx ->]. cbn. eauto.
    + destruct (truthyStr (trim ids)); cbn; eauto.
  - cbn [truthy]. destruct (truthyStr (trim ids)); cbn; eauto.
Qed.

(** The [url] of a record is empty: it is undefined or the empty string. *)
Definition emptyUrl (v : value) : Prop := v = None \/ v = Some (JStr []).

(** A string, or undefined. *)
Definition stringOrAbsent (v : value) : Prop :=
  v = None \/ exists s, v = Some (JStr s).

(** The [url] of a row is typed as the data model types it: a string, or
    null, or absent. *)
Definition textUrl (p : json) : Prop :=
  exists u, getProp p "url" = Ok u /\ (stringOrAbsent u \/ u = Some JNull).

Lemma normalizeRow_textUrl p r :
  normalizeRow p = Ok r -> textUrl p -> stringOrAbsent (url r).
Proof.
  unfold normalizeRow. intros H (u & Hu & Ht).
  apply bind_Ok in H as (idv & Hidv & H).
  apply bind_Ok in H as (ids & Hids & H).
  apply bind_Ok in H as (tv & Htv & H).
  apply bind_Ok in H as (ts & Hts & H).
  apply bind_Ok in H as (st & Hst & H).
  apply bind_Ok in H as (states & Hstates & H).
  apply bind_Ok in H as (joined & Hjoined & H).
  apply bind_Ok in H as (o & Ho & H).
  apply bind_Ok in H as (ns & Hns & H).
  apply bind_Ok in H as (nt & Hnt & H).
  apply bind_Ok in H as (u' & Hu' & H).
  apply bind_Ok in H as (link & Hlink & H).
  injection H as <-. cbn [url].
  rewrite Hu in Hu'. injection Hu' as <-.
  destruct (nullish u) eqn:En.
  - bind_inv Hlink. destruct (truthy a).
    + bind_inv Hlink. injection Hlink as <-. right. eauto.
    + destruct (truthyStr (trim ids)); injection Hlink as <-;
        [right; eauto|now left].
  - injection Hlink as <-. destruct Ht as [Ht| ->]; [exact Ht|discriminate].
Qed.

Lemma stringOrAbsent_truthy (v : value) :
  stringOrAbsent v ->
  (truthy v = false <-> emptyUrl v)
  /\ (truthy v = true -> exists c s, v = Some (JStr (c :: s))).
Proof.
  unfold emptyUrl. intros [->|[[|c s] ->]]; cbn.
  - split; [tauto|discriminate].
  - split; [tauto|discriminate].
  - split; [|eauto]. split; [discriminate|intros [?|?]; discriminate].
Qed.

(** C5, amended: a row's record is discarded exactly when its resolved [id]
    is empty or its resolved [url] is falsy; every emitted record has a
    non-empty [id] and a truthy [url]; a row with no id-like field is never
    emitted, whatever its [url].  For a row whose [url] is a string, null
    or absent the resolved [url] is a string or undefined, so that it is
    falsy exactly when it is empty: such a row is discarded exactly when
    its [id] or its [url] is empty, and when it is emitted its [url] is a
    string that is not empty. *)
Theorem normalizeRows_discards_unidentified (data : json) (recs : list Rec) :
  normalizeRows data = Ok recs ->
  exists rows mapped,
    locateRows data = Ok rows /\
    Forall2 (fun p r => normalizeRow p = Ok r) rows mapped /\
    (forall r, r ∈ mapped ->
       (r ∈ recs <-> ~ (id r = [] \/ truthy (url r) = false))) /\
    Forall (fun r => id r <> [] /\ truthy (url r) = true) recs /\
    (forall p, p ∈ rows -> noIdField p ->
       forall r, r ∈ recs -> raw r <> Some p) /\
    (forall p r, p ∈ rows -> normalizeRow p = Ok r -> textUrl p ->
       stringOrAbsent (url r)
       /\ (r ∈ recs <-> ~ (id r = [] \/ emptyUrl (url r)))
       /\ (r ∈ recs -> exists c s, url r = Some (JStr (c :: s)))).
Proof.
  unfold normalizeRows. intros H.
  apply bind_Ok in H as (rows & Hrows & H).
  apply bind_Ok in H as (mapped & Hmap & H). injection H as <-.
  apply mapR_Forall2 in Hmap.
  assert (Hkept : forall r, kept r = true <->
                    ~ (id r = [] \/ truthy (url r) = false)).
  { intros r. unfold kept. destruct (id r) as [|c s], (truthy (url r)); cbn;
      intuition congruence. }
  assert (Hin : forall r, r ∈ mapped ->
            (r ∈ List.filter kept mapped
             <-> ~ (id r = [] \/ truthy (url r) = false))).
  { intros r Hr. rewrite <- Hkept. split.
    - now intros [_ Hk]%list_elem_of_In%filter_In.
    - intros Hk. apply list_elem_of_In, filter_In. split; [|exact Hk].
      now apply list_elem_of_In. }
  exists rows, mapped. split; [exact Hrows|]. split; [exact Hmap|].
  split; [exact Hin|]. split; [|split].
  - apply List.Forall_forall. intros r Hr. apply filter_In in Hr as [_ Hk].
    apply Hkept in Hk. destruct (truthy (url r)); intuition congruence.
  - intros p Hp Hno r Hr Hraw.
    apply list_elem_of_In, filter_In in Hr as [Hr Hk].
    apply list_elem_of_In in Hr.
    destruct (proj1 (list_elem_of_lookup _ _) Hr) as [i Hi].
    destruct (Forall2_lookup_r _ _ _ _ _ Hmap Hi) as (p' & Hp' & Hn).
    pose proof (normalizeRow_raw _ _ Hn) as Hraw'.
    rewrite Hraw in Hraw'. injection Hraw' as ->.
    apply normalizeRow_noIdField in Hn; [|assumption].
    apply Hkept in Hk. apply Hk. now left.
  - intros p r Hp Hn Ht.
    pose proof (normalizeRow_textUrl p r Hn Ht) as Htext.
    destruct (stringOrAbsent_truthy (url r) Htext) as [Hempty Hfull].
    assert (Hr : r ∈ mapped).
    { destruct (proj1 (list_elem_of_lookup _ _) Hp) as [i Hi].
      destruct (Forall2_lookup_l _ _ _ _ _ Hmap Hi) as (r' & Hr' & Hn').
      rewrite Hn in Hn'. injection Hn' as <-.
      now apply (list_elem_of_lookup_2 _ i). }
    split; [exact Htext|]. split.
    + rewrite (Hin r Hr), Hempty. reflexivity.
    + intros Hrec. apply (Hin r Hr) in Hrec. apply Hfull.
      destruct (truthy (url r)); [reflexivity|]. exfalso. apply Hrec. now right.
Qed.

(** An object literal with ASCII keys, for the examples. *)
Definition obj (l : list (string * json)) : json :=
  JObj (List.map (fun kv => (lit (fst kv), snd kv)) l).

Definition sampleRows : json :=
  JArr [ obj [ ("projectId", JNum (lit "100")); ("state", JStr (lit "NV")) ];
         obj [ ("url", JStr (lit "https://example.org/x")) ] ]%string.

Definition sampleRecs : list Rec :=
  Eval vm_compute in
    match normalizeRows sampleRows with Ok l => l | Throw _ => [] end.

Lemma normalizeRows_discards_unidentified_witness :
  normalizeRows sampleRows = Ok sampleRecs /\
  length sampleRecs = 1%nat /\
  Forall (fun r => id r <> [] /\ truthy (url r) = true) sampleRecs.
Proof.
  assert (H : normalizeRows sampleRows = Ok sampleRecs)
    by (vm_compute; reflexivity).
  split; [exact H|]. split; [reflexivity|].
  destruct (normalizeRows_discards_unidentified sampleRows sampleRecs H)
    as (rows & mapped & _ & _ & _ & Hall & _).
  exact Hall.
Defined.

(** Two rows with an [id] whose [url] is no string: the number 0, and the
    empty array. *)
Definition zeroUrlRow : json :=
  obj [ ("id", JStr (lit "1")); ("url", JNum (lit "0")) ]%string.
Definition arrayUrlRow : json :=
  obj [ ("id", JStr (lit "2")); ("url", JArr []) ]%string.

Definition zeroUrlRec : Rec :=
  mkRec (lit "1") (lit "BLM Project 1") (Some (JNum (lit "0")))
        None None None None (Some zeroUrlRow).
Definition arrayUrlRec : Rec :=
  mkRec (lit "2") (lit "BLM Project 2") (Some (JArr []))
        None None None None (Some arrayUrlRow).

(** C5 as stated fails on a [url] that is no string, since it is copied
    without conversion and tested for truthiness: the row whose [url] is
    the number 0 is discarded although its [id] is not empty and its [url]
    is present and prints as a text that is not empty, and the row whose
    [url] is the empty array, which prints as the empty text, is emitted. *)
Lemma normalizeRows_drops_zero_url :
  mapR normalizeRow [zeroUrlRow; arrayUrlRow] = Ok [zeroUrlRec; arrayUrlRec]
  /\ normalizeRows (JArr [zeroUrlRow; arrayUrlRow]) = Ok [arrayUrlRec]
  /\ ~ (zeroUrlRec ∈ [arrayUrlRec]
        <-> ~ (id zeroUrlRec = [] \/ emptyUrl (url zeroUrlRec)))
  /\ toStr (JNum (lit "0")) = Ok (lit "0")
  /\ toStr (JArr []) = Ok [].
Proof.
  split; [vm_compute; reflexivity|].
  split; [vm_compute; reflexivity|].
  split; [|split; reflexivity].
  intros [_ H].
  assert (Hin : zeroUrlRec ∈ [arrayUrlRec]).
  { apply H. intros [E|[E|E]]; discriminate. }
  apply list_elem_of_singleton in Hin. discriminate.
Qed.

(** ** The entry description *)

(** [escapeXml(v)] called with a value: the default parameter covers
    [undefined]; any other value that is not a string has no [replace]
    method, and the call throws. *)
Definition escapeXmlV (v : value) : result jsstring :=
  match v with
  | None => Ok (escapeXml [])
  | Some (JStr s) => Ok (escapeXml s)
  | Some _ => Throw TypeError
  end.

(** [if (v) descParts.push(label + escapeXml(v))] *)
Definition pushIf (label : jsstring) (v : value) (descParts : list jsstring)
  : result (list jsstring) :=
  if truthy v then e ← escapeXmlV v; Ok (descParts ++ [label ++ e])
  else Ok descParts.

Definition descParts (item : Rec) : result (list jsstring) :=
  parts ← pushIf (lit "<b>State:</b> ") (JStr <$> state item) [];
  parts ← pushIf (lit "<b>Office:</b> ") (office item) parts;
  parts ← pushIf (lit "<b>Doc:</b> ") (nepaType item) parts;
  pushIf (lit "<b>Status:</b> ") (nepaStatus item) parts.

(** The [description] constant of [itemToRss]. *)
Definition description (item : Rec) : result jsstring :=
  parts ← descParts item;
  Ok (match parts with
      | [] => []
      | _ :: _ => lit "<p>" ++ join (lit "<br/>") parts ++ lit "</p>"
      end).

(** *** What the description holds *)

(** The optional fields as the specification types them: a string, or
    absent. *)
Definition textual (v : value) : Prop :=
  match v with
  | None => True
  | Some (JStr _) => True
  | Some _ => False
  end.

Definition typedMetadata (item : Rec) : Prop :=
  textual (office item) /\ textual (nepaType item) /\ textual (nepaStatus item).

(** The text of a field that is present and not empty. *)
Definition nonEmptyText (v : value) : option jsstring :=
  match v with
  | Some (JStr (c :: s)) => Some (c :: s)
  | _ => None
  end.

(** The four optional fields, in the order of the entry, with their labels. *)
Definition metadata (item : Rec) : list (jsstring * value) :=
  [ (lit "<b>State:</b> ", JStr <$> state item);
    (lit "<b>Office:</b> ", office item);
    (lit "<b>Doc:</b> ", nepaType item);
    (lit "<b>Status:</b> ", nepaStatus item) ].

(** One line per field that is present and not empty. *)
Definition metadataLines (item : Rec) : list jsstring :=
  omap (fun lv => (fun s => fst lv ++ escapeXml s) <$> nonEmptyText (snd lv))
       (metadata item).

Definition nonEmptyCount (item : Rec) : nat :=
  length (List.filter (fun lv => bool_decide (is_Some (nonEmptyText (snd lv))))
            (metadata item)).

(** How many of the four optional fields are present at all. *)
Definition presentCount (item : Rec) : nat :=
  length (List.filter (fun lv => bool_decide (is_Some (snd lv)))
            (metadata item)).

Ltac eval_lits :=
  repeat match goal with
  | |- context [lit ?s] =>
      let v := eval vm_compute in (lit s) in change (lit s) with v
  end.

Lemma entityOf_no_lt c : Forall (fun x => x <> chr "<") (entityOf c).
Proof.
  unfold entityOf, entityTable, assoc.
  repeat match goal with
  | |- context [if ?b then _ else _] => destruct b
  end; vm_compute; repeat constructor; discriminate.
Qed.

Lemma escapeXml_no_lt s : Forall (fun x => x <> chr "<") (escapeXml s).
Proof.
  unfold escapeXml, replaceClass. induction s as [|c s IH]; [constructor|].
  cbn [flat_map]. apply Forall_app. split; [|exact IH].
  destruct (reservedClass c) eqn:E; [apply entityOf_no_lt|].
  constructor; [|constructor]. intros ->. discriminate.
Qed.

Lemma includes_no_first c p s :
  Forall (fun x => x <> c) s -> includes s (c :: p) = false.
Proof.
  induction 1 as [|x s Hx _ IH]; [reflexivity|].
  cbn [includes startsWith]. rewrite IH.
  destruct (N.eqb_spec c x); [congruence|reflexivity].
Qed.

Lemma line_no_break (label s : jsstring) :
  In label (List.map fst (metadata (mkRec [] [] None None None None None None))) ->
  includes (label ++ escapeXml s) (lit "<br/>") = false.
Proof.
  pose proof (includes_no_first (chr "<") (lit "br/>") _ (escapeXml_no_lt s))
    as Hs.
  revert Hs. generalize (escapeXml s) as t. intros t Hs.
  cbn [metadata List.map fst In].
  intros [<- | [<- | [<- | [<- | []]]]]; revert Hs; eval_lits;
    change (chr "<") with 60; intros Hs; cbn; exact Hs.
Qed.

Lemma metadataLines_count item :
  length (metadataLines item) = nonEmptyCount item.
Proof.
  unfold metadataLines, nonEmptyCount, metadata.
  destruct (state item) as [[|? ?]|],
           (office item) as [[| | |[|? ?]| |]|],
           (nepaType item) as [[| | |[|? ?]| |]|],
           (nepaStatus item) as [[| | |[|? ?]| |]|]; reflexivity.
Qed.

Lemma descParts_typed item :
  typedMetadata item -> descParts item = Ok (metadataLines item).
Proof.
  intros (Ho & Ht & Hs).
  unfold descParts, metadataLines, metadata, typedMetadata in *.
  destruct (state item) as [[|? ?]|],
           (office item) as [[| | |[|? ?]| |]|],
           (nepaType item) as [[| | |[|? ?]| |]|],
           (nepaStatus item) as [[| | |[|? ?]| |]|];
    try contradiction; reflexivity.
Qed.

(** C8, amended: for a record whose optional fields are strings or absent,
    the description is assembled from exactly those of [state], [office],
    [nepaType], [nepaStatus] that are present and not empty, one line each,
    in that order, the lines separated by a break; a record with exactly one
    such field gets exactly one line, and a record with none gets the empty
    description. *)
Theorem description_of_nonempty_metadata (item : Rec) :
  typedMetadata item ->
  descParts item = Ok (metadataLines item)
  /\ description item =
       Ok (match metadataLines item with
           | [] => []
           | _ :: _ =>
               lit "<p>" ++ join (lit "<br/>") (metadataLines item) ++ lit "</p>"
           end)
  /\ length (metadataLines item) = nonEmptyCount item
  /\ (nonEmptyCount item = 1%nat ->
      exists line, description item = Ok (lit "<p>" ++ line ++ lit "</p>")
                   /\ includes line (lit "<br/>") = false)
  /\ (nonEmptyCount item = 0%nat -> description item = Ok []).
Proof.
  intros Htyped.
  pose proof (descParts_typed item Htyped) as Hparts.
  assert (Hdesc : description item =
       Ok (match metadataLines item with
           | [] => []
           | _ :: _ =>
               lit "<p>" ++ join (lit "<br/>") (metadataLines item) ++ lit "</p>"
           end)).
  { unfold description. rewrite Hparts. reflexivity. }
  split; [exact Hparts|]. split; [exact Hdesc|].
  split; [apply metadataLines_count|]. split.
  - intros Hone. rewrite <- metadataLines_count in Hone.
    rewrite Hdesc.
    assert (Hlines : Forall (fun l => includes l (lit "<br/>") = false)
                       (metadataLines item)).
    { unfold metadataLines. apply List.Forall_forall. intros l Hl.
      apply list_elem_of_In, list_elem_of_omap in Hl as ([label v] & Hin & Hl).
      cbn [fst snd] in Hl. destruct (nonEmptyText v) as [s|]; [|discriminate].
      injection Hl as <-. apply line_no_break.
      apply list_elem_of_In in Hin. unfold metadata in Hin |- *.
      cbn [List.map fst In] in *.
      destruct Hin as [H|[H|[H|[H|[]]]]]; injection H as <- _; tauto. }
    destruct (metadataLines item) as [|line [|? ?]]; try discriminate.
    exists line. split; [reflexivity|]. now inversion Hlines.
  - intros Hzero. rewrite <- metadataLines_count in Hzero. rewrite Hdesc.
    now destruct (metadataLines item).
Qed.

(** The record of the specification's example: [state] Nevada, nothing else. *)
Definition nevadaOnly : Rec :=
  mkRec (lit "7") (lit "Seven") (Some (JStr (projectUrl (lit "7"))))
        (Some (lit "Nevada")) None None None None.

Lemma description_of_nonempty_metadata_witness :
  description nevadaOnly = Ok (lit "<p><b>State:</b> Nevada</p>").
Proof.
  destruct (description_of_nonempty_metadata nevadaOnly) as (_ & Hd & _).
  - unfold typedMetadata, nevadaOnly. simpl. tauto.
  - rewrite Hd. vm_compute. reflexivity.
Defined.

(** A record as [normalizeRows] builds it from a row whose leadOfficeName is
    the empty string: the field is present, and no line is rendered for it. *)
Definition emptyOffice : Rec :=
  mkRec (lit "7") (lit "Seven") (Some (JStr (projectUrl (lit "7"))))
        None (Some (JStr [])) None None None.

Example emptyOffice_from_row :
  normalizeRows
    (JArr [obj [("id", JStr (lit "7")); ("title", JStr (lit "Seven"));
                ("leadOfficeName", JStr [])]%string])
  = Ok [mkRec (id emptyOffice) (title emptyOffice) (url emptyOffice)
          (state emptyOffice) (office emptyOffice) (nepaStatus emptyOffice)
          (nepaType emptyOffice)
          (Some (obj [("id", JStr (lit "7")); ("title", JStr (lit "Seven"));
                      ("leadOfficeName", JStr [])]%string))].
Proof. vm_compute. reflexivity. Qed.

(** C8 as stated fails: exactly one optional field is present, yet the
    description has no metadata line. *)
Lemma description_present_but_empty :
  presentCount emptyOffice = 1%nat
  /\ descParts emptyOffice = Ok []
  /\ description emptyOffice = Ok [].
Proof. repeat split. Qed.

(** ** The HTML link extractor *)

(** The link pattern of [fetchKeywordViaHtml], flags [g] and [i]:
    the text href= and a double quote; group 1: /eplanning-ui/project/, group
    2: one or more digits, /510; a double quote; any run without a
    greater-than sign; a greater-than sign; group 3: a run of at least one
    code unit without a less-than sign; the closing tag of the anchor. *)

(** Case folding of the [i] flag.  Without the [u] flag a code unit outside
    ASCII never folds to an ASCII one, so against the ASCII pattern only the
    two cases of an ASCII letter are equal. *)
Definition canon (c : char) : char :=
  if (97 <=? c) && (c <=? 122) then c - 32 else c.

(** A literal of the pattern at the head of the input: the text it consumed
    (as the input spells it) and the rest. *)
Fixpoint matchCI (p s : jsstring) : option (jsstring * jsstring) :=
  match p with
  | [] => Some ([], s)
  | a :: p' =>
      match s with
      | [] => None
      | b :: s' =>
          if canon a =? canon b then
            match matchCI p' s' with
            | Some (m, rest) => Some (b :: m, rest)
            | None => None
            end
          else None
      end
  end.

(** A greedy run of a character class: the longest prefix in the class. *)
Fixpoint span (cls : char -> bool) (s : jsstring) : jsstring * jsstring :=
  match s with
  | [] => ([], [])
  | c :: t =>
      if cls c then let (m, rest) := span cls t in (c :: m, rest)
      else ([], s)
  end.

Definition isDigit (c : char) : bool := (48 <=? c) && (c <=? 57).
Definition notGt (c : char) : bool := negb (c =? chr ">").
Definition notLt (c : char) : bool := negb (c =? chr "<").

(** The attribute part of the pattern at the head of the input: groups 1 and
    2 and the rest.  The digits are followed by a slash in the pattern, so
    the greedy run is the only run that can match. *)
Definition matchHref (s : jsstring) : option (jsstring * jsstring * jsstring) :=
  '(_, s1) ← matchCI (lit "href=" ++ [c_quot]) s;
  '(pre, s2) ← matchCI (lit "/eplanning-ui/project/") s1;
  let (digits, s3) := span isDigit s2 in
  match digits with
  | [] => None
  | _ :: _ =>
      '(suf, s4) ← matchCI (lit "/510") s3;
      '(_, s5) ← matchCI [c_quot] s4;
      Some (pre ++ digits ++ suf, digits, s5)
  end.

(** The whole pattern at the head of the input: the three groups and the
    rest.  Each greedy run is followed in the pattern by a code unit outside
    its class, so no shorter run can match either. *)
Definition matchLink (s : jsstring)
  : option (jsstring * jsstring * jsstring * jsstring) :=
  '(rel, ident, s5) ← matchHref s;
  let (_, s6) := span notGt s5 in
  '(_, s7) ← matchCI (lit ">") s6;
  let (text, s8) := span notLt s7 in
  match text with
  | [] => None
  | _ :: _ =>
      '(_, s9) ← matchCI (lit "</a>") s8;
      Some (rel, ident, text, s9)
  end.

(** The object pushed for one match. *)
Definition linkRecord (rel ident text : jsstring) : Rec :=
  let title := trim text in
  mkRec ident
        (if truthyStr title then title else lit "BLM Project " ++ ident)
        (Some (JStr (lit "https://eplanning.blm.gov" ++ rel)))
        None None None None None.

(** The [while] loop over [linkRe.exec(html)].  The input is walked from left
    to right; [skip] counts the code units still covered by the last match,
    so that the next search starts where that match ended ([lastIndex]). *)
Fixpoint scanLinks (skip : nat) (s : jsstring) : list Rec :=
  match s with
  | [] => []
  | _ :: t =>
      match skip with
      | S k => scanLinks k t
      | O =>
          match matchLink s with
          | Some (rel, ident, text, rest) =>
              linkRecord rel ident text
                :: scanLinks (length s - length rest - 1) t
          | None => scanLinks 0 t
          end
      end
  end.

(** The items [fetchKeywordViaHtml] builds from the body of the page. *)
Definition extractLinks (html : jsstring) : list Rec := scanLinks 0 html.

(** *** The pattern, read as a language *)

(** Equality up to the case of ASCII letters. *)
Definition eqCI (m p : jsstring) : Prop := List.map canon m = List.map canon p.

Lemma matchCI_sound p : forall s m r,
  matchCI p s = Some (m, r) -> s = m ++ r /\ eqCI m p.
Proof.
  unfold eqCI. induction p as [|a p IH]; intros s m r H; cbn in H.
  - injection H as <- <-. split; reflexivity.
  - destruct s as [|b s]; [discriminate|].
    destruct (N.eqb_spec (canon a) (canon b)) as [E|]; [|discriminate].
    destruct (matchCI p s) as [[m' r']|] eqn:Hm; [|discriminate].
    injection H as <- <-. destruct (IH _ _ _ Hm) as [-> Hc].
    split; [reflexivity|]. cbn. now rewrite Hc, E.
Qed.

Lemma matchCI_complete p : forall m r,
  eqCI m p -> matchCI p (m ++ r) = Some (m, r).
Proof.
  unfold eqCI. induction p as [|a p IH]; intros m r H.
  - destruct m; [reflexivity|discriminate].
  - destruct m as [|b m]; [discriminate|]. cbn in H. injection H as Hb Hm.
    cbn. rewrite Hb, N.eqb_refl. now rewrite (IH _ _ Hm).
Qed.

(** The next code unit, if any, is outside the class. *)
Definition stopsAt (cls : char -> bool) (r : jsstring) : Prop :=
  match r with
  | [] => True
  | c :: _ => cls c = false
  end.

Lemma span_sound cls s m r :
  span cls s = (m, r) ->
  s = m ++ r /\ forallb cls m = true /\ stopsAt cls r.
Proof.
  revert m r. induction s as [|c s IH]; intros m r H; cbn in H.
  - injection H as <- <-. split; [reflexivity|]. split; reflexivity.
  - destruct (cls c) eqn:Ec.
    + destruct (span cls s) as [m' r'] eqn:Hs. injection H as <- <-.
      destruct (IH _ _ eq_refl) as (-> & Hm & Hr).
      split; [reflexivity|]. split; [|exact Hr]. cbn. now rewrite Ec, Hm.
    + injection H as <- <-. split; [reflexivity|]. split; [reflexivity|].
      exact Ec.
Qed.

Lemma span_complete cls m r :
  forallb cls m = true -> stopsAt cls r -> span cls (m ++ r) = (m, r).
Proof.
  intros Hm Hr. induction m as [|c m IH]; cbn.
  - destruct r as [|c r]; [reflexivity|]. cbn in Hr |- *. now rewrite Hr.
  - cbn in Hm. apply andb_prop in Hm as [Hc Hm]. now rewrite Hc, (IH Hm).
Qed.

Lemma canon_fixed c k :
  (65 <=? k) && (k <=? 90) = false -> canon c = k -> c = k.
Proof.
  unfold canon. intros Hk.
  destruct ((97 <=? c) && (c <=? 122)) eqn:E; [|trivial].
  intros <-. exfalso.
  apply andb_prop in E as [E1 E2].
  apply N.leb_le in E1, E2.
  apply andb_false_iff in Hk as [Hk|Hk]; apply N.leb_gt in Hk; lia.
Qed.

Lemma eqCI_head_fixed m k p :
  (65 <=? k) && (k <=? 90) = false -> canon k = k ->
  eqCI m (k :: p) -> exists m', m = k :: m'.
Proof.
  unfold eqCI. intros Hk Hkk H. destruct m as [|c m]; [discriminate|].
  cbn in H. injection H as Hc _. rewrite Hkk in Hc.
  apply canon_fixed in Hc; [|exact Hk]. subst. eauto.
Qed.

Ltac app_norm := repeat (progress (cbn [app]; rewrite <- ?app_assoc)).

(** The attribute part of the pattern: [s] spells href= and a quote, then
    [rel], then a quote, then [rest]; [rel] spells the project path around the
    digits [ident]. *)
Definition HrefAt (s rel ident rest : jsstring) : Prop :=
  exists h pre suf q,
    s = h ++ rel ++ q ++ rest
    /\ eqCI h (lit "href=" ++ [c_quot])
    /\ rel = pre ++ ident ++ suf
    /\ eqCI pre (lit "/eplanning-ui/project/")
    /\ ident <> [] /\ forallb isDigit ident = true
    /\ eqCI suf (lit "/510")
    /\ eqCI q [c_quot].

(** The whole pattern: the attribute part, the rest of the tag up to its
    greater-than sign, a link text that is not empty and holds no less-than
    sign, and the closing tag. *)
Definition LinkAt (s rel ident text rest : jsstring) : Prop :=
  exists s5 attrs gt close,
    HrefAt s rel ident s5
    /\ s5 = attrs ++ gt ++ text ++ close ++ rest
    /\ forallb notGt attrs = true
    /\ eqCI gt (lit ">")
    /\ text <> [] /\ forallb notLt text = true
    /\ eqCI close (lit "</a>").

Lemma matchHref_iff s rel ident rest :
  matchHref s = Some (rel, ident, rest) <-> HrefAt s rel ident rest.
Proof.
  unfold matchHref, HrefAt. split.
  - intros H.
    destruct (matchCI (lit "href=" ++ [c_quot]) s) as [[h s1]|] eqn:H1;
      [|discriminate]. cbn [mbind option_bind] in H.
    destruct (matchCI (lit "/eplanning-ui/project/") s1) as [[pre s2]|] eqn:H2;
      [|discriminate]. cbn [mbind option_bind] in H.
    destruct (span isDigit s2) as [digits s3] eqn:H3.
    destruct digits as [|d ds]; [discriminate|].
    destruct (matchCI (lit "/510") s3) as [[suf s4]|] eqn:H4;
      [|discriminate]. cbn [mbind option_bind] in H.
    destruct (matchCI [c_quot] s4) as [[q s5]|] eqn:H5;
      [|discriminate]. cbn [mbind option_bind] in H.
    injection H as <- <- <-.
    apply matchCI_sound in H1 as [-> E1], H2 as [-> E2],
      H4 as [-> E4], H5 as [-> E5].
    apply span_sound in H3 as (-> & Hd & _).
    exists h, pre, suf, q.
    repeat split; auto; try discriminate.
    now app_norm.
  - intros (h & pre & suf & q & -> & E1 & -> & E2 & Hne & Hd & E4 & E5).
    app_norm.
    rewrite (matchCI_complete _ _ _ E1). cbn [mbind option_bind].
    rewrite (matchCI_complete _ _ _ E2). cbn [mbind option_bind].
    rewrite span_complete; [| exact Hd |].
    + destruct ident as [|d ds]; [congruence|].
      rewrite (matchCI_complete _ _ _ E4). cbn [mbind option_bind].
      rewrite (matchCI_complete _ _ _ E5). reflexivity.
    + destruct (eqCI_head_fixed suf (chr "/") (lit "510")) as [m' ->];
        [reflexivity | reflexivity | exact E4 |]. reflexivity.
Qed.

Lemma matchLink_iff s rel ident text rest :
  matchLink s = Some (rel, ident, text, rest) <-> LinkAt s rel ident text rest.
Proof.
  unfold matchLink, LinkAt. split.
  - intros H.
    destruct (matchHref s) as [[[rel' ident'] s5]|] eqn:H0; [|discriminate].
    cbn [mbind option_bind] in H.
    destruct (span notGt s5) as [attrs s6] eqn:H6.
    destruct (matchCI (lit ">") s6) as [[gt s7]|] eqn:H7; [|discriminate].
    cbn [mbind option_bind] in H.
    destruct (span notLt s7) as [text' s8] eqn:H8.
    destruct text' as [|c cs]; [discriminate|].
    destruct (matchCI (lit "</a>") s8) as [[close s9]|] eqn:H9;
      [|discriminate]. cbn [mbind option_bind] in H.
    injection H as <- <- <- <-.
    apply matchHref_iff in H0.
    apply span_sound in H6 as (-> & Ha & _), H8 as (-> & Ht & _).
    apply matchCI_sound in H7 as [-> E7], H9 as [-> E9].
    exists (attrs ++ gt ++ (c :: cs) ++ close ++ s9), attrs, gt, close.
    repeat split; auto; try discriminate.
  - intros (s5 & attrs & gt & close & H0 & -> & Ha & E7 & Hne & Ht & E9).
    apply matchHref_iff in H0. rewrite H0. cbn [mbind option_bind].
    rewrite span_complete; [| exact Ha |].
    + rewrite (matchCI_complete _ _ _ E7). cbn [mbind option_bind].
      rewrite span_complete; [| exact Ht |].
      * destruct text as [|c cs]; [congruence|].
        rewrite (matchCI_complete _ _ _ E9). reflexivity.
      * destruct (eqCI_head_fixed close (chr "<") (lit "/a>")) as [m' ->];
          [reflexivity | reflexivity | exact E9 |]. reflexivity.
    + destruct (eqCI_head_fixed gt (chr ">") []) as [m' ->];
        [reflexivity | reflexivity | exact E7 |]. reflexivity.
Qed.

(** *** The scan *)

Lemma LinkAt_consumes s rel ident text rest :
  LinkAt s rel ident text rest -> exists c pre, s = (c :: pre) ++ rest.
Proof.
  intros (s5 & attrs & gt & close & (h & pre & suf & q & -> & _) & -> & _ & _
          & Hne & _).
  destruct (h ++ rel ++ q ++ attrs ++ gt ++ text ++ close) as [|c p] eqn:E.
  - exfalso. do 5 (apply app_eq_nil in E as [_ E]).
    apply app_eq_nil in E as [E _]. congruence.
  - exists c, p. rewrite <- E. now app_norm.
Qed.

Lemma scanLinks_skip pre rest :
  scanLinks (length pre) (pre ++ rest) = scanLinks 0 rest.
Proof. induction pre as [|c pre IH]; [reflexivity | exact IH]. Qed.

Lemma scanLinks_link s rel ident text rest :
  matchLink s = Some (rel, ident, text, rest) ->
  scanLinks 0 s = linkRecord rel ident text :: scanLinks 0 rest.
Proof.
  intros H. destruct (LinkAt_consumes _ _ _ _ _ (proj1 (matchLink_iff _ _ _ _ _) H))
    as (c & pre & ->).
  cbn [app scanLinks]. cbn [app] in H. rewrite H. f_equal.
  rewrite <- (scanLinks_skip pre rest). f_equal.
  cbn [length]. rewrite length_app. lia.
Qed.

Lemma scanLinks_no_link c t :
  matchLink (c :: t) = None -> scanLinks 0 (c :: t) = scanLinks 0 t.
Proof. intros H. cbn [scanLinks]. now rewrite H. Qed.

(** The list of matches of a document, read from left to right: at each
    position either the pattern matches and the reading goes on after the
    match, or it does not and the reading goes on one code unit further. *)
Inductive Extracts : jsstring -> list Rec -> Prop :=
| Extracts_end : Extracts [] []
| Extracts_skip c t rs :
    (forall rel ident text rest, ~ LinkAt (c :: t) rel ident text rest) ->
    Extracts t rs ->
    Extracts (c :: t) rs
| Extracts_link s rel ident text rest rs :
    LinkAt s rel ident text rest ->
    Extracts rest rs ->
    Extracts s (linkRecord rel ident text :: rs).

Lemma extractLinks_Extracts html : Extracts html (extractLinks html).
Proof.
  unfold extractLinks.
  induction html as [html IH] using (induction_ltof1 _ (@length char)).
  unfold ltof in IH. destruct html as [|c t]; [constructor|].
  destruct (matchLink (c :: t)) as [[[[rel ident] text] rest]|] eqn:H.
  - rewrite (scanLinks_link _ _ _ _ _ H).
    apply matchLink_iff in H.
    apply Extracts_link with (rest := rest); [exact H|].
    apply IH. destruct (LinkAt_consumes _ _ _ _ _ H) as (c' & pre & E).
    rewrite E, length_app. cbn. lia.
  - rewrite (scanLinks_no_link _ _ H). apply Extracts_skip.
    + intros rel ident text rest HL. apply matchLink_iff in HL. congruence.
    + apply IH. cbn. lia.
Qed.

Lemma Extracts_unique html rs : Extracts html rs -> rs = extractLinks html.
Proof.
  unfold extractLinks. induction 1 as [|c t rs Hno _ IH|s rel ident text rest rs HL _ IH].
  - reflexivity.
  - rewrite scanLinks_no_link; [exact IH|].
    destruct (matchLink (c :: t)) as [[[[rel ident] text] rest]|] eqn:H;
      [|reflexivity].
    apply matchLink_iff in H. now apply Hno in H.
  - apply matchLink_iff in HL. rewrite (scanLinks_link _ _ _ _ _ HL).
    now rewrite IH.
Qed.

Lemma eqCI_app a b a' b' : eqCI a a' -> eqCI b b' -> eqCI (a ++ b) (a' ++ b').
Proof. unfold eqCI. intros Ha Hb. now rewrite !List.map_app, Ha, Hb. Qed.

(** What a record of the extractor looks like. *)
Definition linkShaped (r : Rec) : Prop :=
  exists rel text,
    id r <> [] /\ forallb isDigit (id r) = true
    /\ eqCI rel (lit "/eplanning-ui/project/" ++ id r ++ lit "/510")
    /\ url r = Some (JStr (lit "https://eplanning.blm.gov" ++ rel))
    /\ text <> [] /\ forallb notLt text = true
    /\ title r = (if truthyStr (trim text) then trim text
                  else lit "BLM Project " ++ id r)
    /\ state r = None /\ office r = None
    /\ nepaStatus r = None /\ nepaType r = None.

Lemma Extracts_linkShaped html rs :
  Extracts html rs -> Forall linkShaped rs.
Proof.
  induction 1 as [| |s rel ident text rest rs HL _ IH]; auto.
  constructor; [|exact IH].
  destruct HL as (s5 & attrs & gt & close
                  & (h & pre & suf & q & _ & _ & -> & E2 & Hne & Hd & E4 & _)
                  & _ & _ & _ & Htne & Ht & _).
  exists (pre ++ ident ++ suf), text. cbn [linkRecord id url title state office
    nepaStatus nepaType].
  repeat split; auto.
  apply eqCI_app; [exact E2|]. apply eqCI_app; [reflexivity|exact E4].
Qed.

Lemma Extracts_no_link html :
  (forall pre s rel ident text rest,
     html = pre ++ s -> ~ LinkAt s rel ident text rest) ->
  Extracts html [].
Proof.
  induction html as [|c t IH]; intros Hno; [constructor|].
  apply Extracts_skip.
  - intros rel ident text rest. now apply (Hno []).
  - apply IH. intros pre s rel ident text rest ->.
    now apply (Hno (c :: pre)).
Qed.

(** C6, amended: for every HTML string the extractor returns, in document
    order, one record per match of the whole link pattern (the href
    attribute of a project page, the rest of the tag, a link text of at
    least one code unit without a less-than sign, the closing tag), matches
    being searched from left to right, each search starting where the last
    match ended.  Such a record has the captured digits as [id], the trimmed
    link text as [title] (or the text BLM Project and the id when the trimmed
    text is empty), the absolute form of the captured path as [url] and no
    metadata.  The function is total, and returns the empty list when the
    pattern matches nowhere. *)
Theorem extractLinks_matches (html : jsstring) :
  Extracts html (extractLinks html)
  /\ (forall rs, Extracts html rs -> rs = extractLinks html)
  /\ Forall linkShaped (extractLinks html)
  /\ ((forall pre s rel ident text rest,
         html = pre ++ s -> ~ LinkAt s rel ident text rest) ->
      extractLinks html = []).
Proof.
  split; [apply extractLinks_Extracts|].
  split; [apply Extracts_unique|].
  split; [apply (Extracts_linkShaped html), extractLinks_Extracts|].
  intros Hno. symmetry. now apply Extracts_unique, Extracts_no_link.
Qed.

(** The page of the specification's scenario. *)
Definition desertTrail : jsstring :=
  lit "<li><a href=" ++ [c_quot] ++ lit "/eplanning-ui/project/42/510"
    ++ [c_quot] ++ lit ">Desert Trail</a></li>".

Example extractLinks_desertTrail :
  extractLinks desertTrail
  = [ mkRec (lit "42") (lit "Desert Trail")
        (Some (JStr (lit "https://eplanning.blm.gov/eplanning-ui/project/42/510")))
        None None None None None ].
Proof. vm_compute. reflexivity. Qed.

(** How many times the attribute part of the pattern occurs in a document:
    the anchors that point to a project page. *)
Fixpoint countHrefs (s : jsstring) : nat :=
  match s with
  | [] => 0
  | _ :: t =>
      (match matchHref s with Some _ => 1 | None => 0 end) + countHrefs t
  end.

(** An anchor to a project page whose text sits in nested markup, and one
    with no text. *)
Definition nestedAnchor : jsstring :=
  lit "<a href=" ++ [c_quot] ++ lit "/eplanning-ui/project/42/510"
    ++ [c_quot] ++ lit "><b>Desert Trail</b></a>".

Definition emptyAnchor : jsstring :=
  lit "<a href=" ++ [c_quot] ++ lit "/eplanning-ui/project/42/510"
    ++ [c_quot] ++ lit "></a>".

(** C6 as stated fails: a document with one anchor whose href matches yields
    no record when the anchor's content starts with markup or is empty. *)
Lemma extractLinks_skips_anchor :
  countHrefs nestedAnchor = 1%nat /\ extractLinks nestedAnchor = []
  /\ countHrefs emptyAnchor = 1%nat /\ extractLinks emptyAnchor = [].
Proof. vm_compute. repeat split. Qed.

(** ** The world outside the scripts *)

(** The lower case of an ASCII letter. *)
Definition lower (c : char) : char :=
  if (65 <=? c) && (c <=? 90) then c + 32 else c.

Inductive method : Type := GET | POST.

(** The arguments of a [fetch] call; a JSON body is kept as the value that
    [JSON.stringify] is applied to. *)
Record request : Type := mkRequest {
  req_method : method;
  req_url : jsstring;
  req_headers : list (jsstring * jsstring);
  req_body : option json
}.

(** What the scripts read of a response: [res.ok], the content-type header
    ([None] when the header is missing), and the outcome of reading the body
    with [res.json()] or with [res.text()]. *)
Record response : Type := mkResponse {
  res_ok : bool;
  res_contentType : option jsstring;
  res_json : result json;
  res_text : result jsstring
}.

(** The services of the engine and of the machine the scripts run on.  [Env]
    is the state of everything outside the process (the upstream server, the
    clock, the browser); each call may change it. *)
Class Runtime : Type := {
  Env : Type;
  (** [String.prototype.toLowerCase] and [toUpperCase] (Unicode tables) *)
  toLowerCase : jsstring -> jsstring;
  toUpperCase : jsstring -> jsstring;
  encodeURIComponent : jsstring -> result jsstring;
  decodeURIComponent : jsstring -> result jsstring;
  (** [JSON.parse] *)
  jsonParse : jsstring -> result json;
  (** [new URL(u).searchParams.get(name)]: [None] is [null]; the constructor
      throws when [u] is no URL. *)
  urlSearchParam : value -> jsstring -> result (option jsstring);
  (** [path.join] and [process.cwd()] *)
  pathJoin : jsstring -> jsstring -> jsstring;
  cwd : jsstring;
  fetch : request -> Env -> result response * Env;
  (** [new Date().toUTCString()] *)
  toUTCString : Env -> jsstring * Env;
  (** The browser build: load the page at a URL, press Search, wait for a
      project link, and evaluate the anchors to their absolute [url] and
      trimmed [title]. *)
  renderAnchors : jsstring -> Env -> result (list (jsstring * jsstring)) * Env;
  (** On ASCII text the case mappings change the 26 letters and nothing
      else. *)
  toUpperCase_ascii : forall s,
    forallb (fun c => c <? 128) s = true -> toUpperCase s = List.map canon s;
  toLowerCase_ascii : forall s,
    forallb (fun c => c <? 128) s = true -> toLowerCase s = List.map lower s
}.

Section WithRuntime.
Context `{RT : Runtime}.

(** The state a run changes: the world outside and the files written.  A
    write replaces the content at its path. *)
Record State : Type := mkState {
  env : Env;
  files : gmap jsstring jsstring
}.

(** A computation of the scripts: it may change the state and may throw. *)
Definition M (A : Type) : Type := State -> result A * State.

#[global] Instance M_ret : MRet M := fun A a st => (Ok a, st).
#[global] Instance M_bind : MBind M := fun A B f m st =>
  match m st with
  | (Ok a, st') => f a st'
  | (Throw e, st') => (Throw e, st')
  end.

(** A pure step that may throw. *)
Definition liftR {A : Type} (r : result A) : M A := fun st => (r, st).

(** A call to the world outside. *)
Definition call {A : Type} (f : Env -> result A * Env) : M A :=
  fun st => let (r, e) := f (env st) in (r, mkState e (files st)).

(** [fs.writeFileSync(path, content, 'utf8')] *)
Definition writeFileSync (path content : jsstring) : M unit :=
  fun st => (Ok tt, mkState (env st) (<[path := content]> (files st))).

(** A [for ... of] loop whose body updates the local variables [s]. *)
Fixpoint foldM {A S : Type} (f : S -> A -> M S) (s : S) (l : list A) : M S :=
  match l with
  | [] => mret s
  | x :: rest => s' ← f s x; foldM f s' rest
  end.

(** [items.map(f)] for a callback with effects. *)
Fixpoint mapM' {A B : Type} (f : A -> M B) (l : list A) : M (list B) :=
  match l with
  | [] => mret []
  | x :: rest => y ← f x; ys ← mapM' f rest; mret (y :: ys)
  end.

Definition nowRfc822 : M jsstring :=
  call (fun e => let (s, e') := toUTCString e in (Ok s, e')).

(** ** The feed document *)

Definition nl : jsstring := [10].

(** [itemToRss(item)]: the entry of one record.  Its template reads the
    clock after escaping [id], [title] and [url]. *)
Definition itemToRss (item : Rec) : M jsstring :=
  description ← liftR (description item);
  guid ← liftR (Ok (escapeXml (id item)));
  title ← liftR (Ok (escapeXml (title item)));
  link ← liftR (escapeXmlV (url item));
  pubDate ← nowRfc822;
  mret (nl ++ lit "  <item>" ++ nl
        ++ lit "    <guid isPermaLink=" ++ [c_quot] ++ lit "false" ++ [c_quot]
        ++ lit ">" ++ guid ++ lit "</guid>" ++ nl
        ++ lit "    <title>" ++ title ++ lit "</title>" ++ nl
        ++ lit "    <link>" ++ link ++ lit "</link>" ++ nl
        ++ lit "    <pubDate>" ++ pubDate ++ lit "</pubDate>" ++ nl
        ++ lit "    <description><![CDATA[" ++ description
        ++ lit "]]></description>" ++ nl
        ++ lit "  </item>").

(** The document [writeRss] builds, before it is trimmed and written. *)
Definition rssXml (title link : jsstring) (items : list Rec) : M jsstring :=
  lastBuildDate ← nowRfc822;
  entries ← mapM' itemToRss items;
  mret (lit "<?xml version=" ++ [c_quot] ++ lit "1.0" ++ [c_quot]
        ++ lit " encoding=" ++ [c_quot] ++ lit "UTF-8" ++ [c_quot] ++ lit "?>"
        ++ nl
        ++ lit "<rss version=" ++ [c_quot] ++ lit "2.0" ++ [c_quot] ++ lit ">"
        ++ nl
        ++ lit "<channel>" ++ nl
        ++ lit "  <title>" ++ escapeXml title ++ lit "</title>" ++ nl
        ++ lit "  <link>" ++ escapeXml link ++ lit "</link>" ++ nl
        ++ lit "  <description>" ++ escapeXml title ++ lit "</description>" ++ nl
        ++ lit "  <lastBuildDate>" ++ lastBuildDate ++ lit "</lastBuildDate>"
        ++ nl
        ++ lit "  " ++ join nl entries ++ nl
        ++ lit "</channel>" ++ nl
        ++ lit "</rss>").

Definition writeRss (filePath title link : jsstring) (items : list Rec)
  : M unit :=
  xml ← rssXml title link items;
  writeFileSync filePath (trim xml ++ nl).

Definition OUT_DIR : jsstring := pathJoin cwd (lit "docs").
Definition OUT_MAIN : jsstring := pathJoin OUT_DIR (lit "index.xml").
Definition OUT_STATE_DIR : jsstring := pathJoin OUT_DIR (lit "by-state").

(** [fs.mkdirSync(p, { recursive: true })]: directories are not part of the
    file map. *)
Definition ensureDir (p : jsstring) : M unit := mret tt.

End WithRuntime.

(** ** The configuration *)

(** An entry of [cfg.queries], as the specification types it. *)
Record Query : Type := mkQuery {
  searchText : jsstring;
  perState : bool
}.

(** The search terms of one query: the [terms] array of the browser build,
    lines 98 to 103. *)
Definition terms (states : list jsstring) (q : Query) : list jsstring :=
  if perState q && bool_decide (states <> []) then
    List.map (fun st => trim (searchText q ++ lit " " ++ st)) states
  else [searchText q].

(** The terms a query contributes to a run: none when its [searchText] is
    empty (the [continue] at the head of the loop). *)
Definition queryTerms (states : list jsstring) (q : Query) : list jsstring :=
  if truthyStr (searchText q) then terms states q else [].

(** The inner loop of a run: every row whose key is new is added to [merged],
    and its key to [seen]. *)
Definition mergeRows {A : Type} (key : A -> jsstring) (rows : list A)
    (acc : list A * gset jsstring) : list A * gset jsstring :=
  fold_left
    (fun '(merged, seen) r =>
       if bool_decide (key r ∈ seen) then (merged, seen)
       else (merged ++ [r], seen ∪ {[ key r ]}))
    rows acc.

(** ** Keyword search through fetch *)

Module Keyword.
Section WithRuntime.
Context `{RT : Runtime}.

Definition userAgent : jsstring :=
  lit "overlook-blm-rss (+https://github.com/treillycodes/overlook-blm-rss)".

Definition endpoint : jsstring :=
  lit "https://eplanning.blm.gov/eplanning-ui/search".

(** The POST request of [fetchKeyword]. *)
Definition searchRequest (searchText : jsstring) (page size : jsstring)
  : request :=
  mkRequest POST endpoint
    [ (lit "content-type", lit "application/json");
      (lit "accept", lit "application/json, text/plain, */*");
      (lit "user-agent", userAgent);
      (lit "x-requested-with", lit "XMLHttpRequest");
      (lit "origin", lit "https://eplanning.blm.gov");
      (lit "referer", lit "https://eplanning.blm.gov/eplanning-ui/home") ]
    (Some (JObj [ (lit "searchText", JStr searchText);
                  (lit "page", JNum page); (lit "size", JNum size) ])).

(** The GET request of [fetchKeywordViaHtml]. *)
Definition pageRequest (url : jsstring) : request :=
  mkRequest GET url
    [ (lit "user-agent", userAgent);
      (lit "accept",
       lit "text/html,application/xhtml+xml,application/xml;q=0.9,*/*;q=0.8") ]
    None.

Definition fetchKeywordViaHtml (searchText : jsstring) : M (list Rec) :=
  encoded ← liftR (encodeURIComponent searchText);
  let url := lit "https://eplanning.blm.gov/eplanning-ui/search?searchText="
             ++ encoded in
  htmlRes ← call (fetch (pageRequest url));
  html ← liftR (res_text htmlRes);
  mret (extractLinks html).

(** [(res.headers.get('content-type') || '').toLowerCase()] *)
Definition contentType (res : response) : jsstring :=
  toLowerCase (match res_contentType res with
               | Some (c :: s) => c :: s
               | _ => []
               end).

(** The test of [fetchKeyword]: the content type names JSON. *)
Definition indicatesJson (res : response) : bool :=
  includes (contentType res) (lit "application/json").

(** [fetchKeyword(searchText)], with the default [page] 0 and [size] 100. *)
Definition fetchKeyword (searchText : jsstring) : M (list Rec) :=
  res ← call (fetch (searchRequest searchText (lit "0") (lit "100")));
  if indicatesJson res then
    data ← liftR (res_json res);
    liftR (normalizeRows data)
  else fetchKeywordViaHtml searchText.

(** The loop of [run] over the queries, lines 287 to 308: the state of the
    loop is [merged] and [seen]. *)
Definition runQuery (states : list jsstring)
    (acc : list Rec * gset jsstring) (q : Query)
  : M (list Rec * gset jsstring) :=
  if negb (truthyStr (searchText q)) then mret acc
  else if perState q && bool_decide (states <> []) then
    foldM (fun acc st =>
             let term := trim (searchText q ++ lit " " ++ st) in
             rows ← fetchKeyword term;
             mret (mergeRows id rows acc))
          acc states
  else
    rows ← fetchKeyword (searchText q);
    mret (mergeRows id rows acc).

Definition runMerge (queries : list Query) (states : list jsstring)
  : M (list Rec) :=
  acc ← foldM (runQuery states) ([], ∅) queries;
  mret (fst acc).

End WithRuntime.
End Keyword.

(** ** Keyword search through a browser *)

Module Browser.

(** The object the scrape builds for an anchor. *)
Record Row : Type := mkRow {
  id : jsstring;
  title : jsstring;
  url : jsstring
}.

(** The pattern of the scrape at the head of the input, case sensitive:
    /project/, one or more digits (group 1), /510. *)
Definition matchProject (s : jsstring) : option jsstring :=
  if startsWith (lit "/project/") s then
    let (digits, rest) := span isDigit (drop 9 s) in
    match digits with
    | [] => None
    | _ :: _ => if startsWith (lit "/510") rest then Some digits else None
    end
  else None.

(** [url.match(pattern)]: group 1 of the leftmost match. *)
Fixpoint findProject (s : jsstring) : option jsstring :=
  match matchProject s with
  | Some digits => Some digits
  | None =>
      match s with
      | [] => None
      | _ :: t => findProject t
      end
  end.

(** The callback of [items.map], [null] for an anchor without an id. *)
Definition toRow (item : jsstring * jsstring) : option Row :=
  let (url, title) := item in
  match findProject url with
  | Some id =>
      Some (mkRow id
              (if truthyStr title then title else lit "BLM Project " ++ id)
              url)
  | None => None
  end.

(** The key of the [seen] set: id, a bar, url. *)
Definition rowKey (r : Row) : jsstring := id r ++ lit "|" ++ url r.

Section WithRuntime.
Context `{RT : Runtime}.

Definition scrapeSearchTerm (term : jsstring) : M (list Row) :=
  encoded ← liftR (encodeURIComponent term);
  let url := lit "https://eplanning.blm.gov/eplanning-ui/search?searchText="
             ++ encoded in
  items ← call (renderAnchors url);
  mret (omap toRow items).

(** The loop of [run] over the queries, lines 95 to 114. *)
Definition runQuery (states : list jsstring)
    (acc : list Row * gset jsstring) (q : Query)
  : M (list Row * gset jsstring) :=
  if negb (truthyStr (searchText q)) then mret acc
  else
    foldM (fun acc term =>
             rows ← scrapeSearchTerm term;
             mret (mergeRows rowKey rows acc))
          acc (terms states q).

Definition runMerge (queries : list Query) (states : list jsstring)
  : M (list Row) :=
  acc ← foldM (runQuery states) ([], ∅) queries;
  mret (fst acc).

End WithRuntime.
End Browser.

(** ** Advanced search through fetch *)

Module AdvSearch.

(** An entry of [searches.json]: the fields the script reads. *)
Record Search : Type := mkSearch {
  name : value;
  advSearch : value;
  url : value;
  link : value;
  href : value
}.

(** [a || b] *)
Definition orElse (a b : value) : value := if truthy a then a else b.

Section WithRuntime.
Context `{RT : Runtime}.

(** [parseAdvFromUrl(u)]: whatever is thrown inside is caught and gives
    [null]. *)
Definition parseAdvFromUrl (u : value) : value :=
  match (raw ← urlSearchParam u (lit "advSearch");
         match raw with
         | Some (c :: r) => d ← decodeURIComponent (c :: r);
                            v ← jsonParse d; Ok (Some v)
         | _ => Ok (Some JNull)
         end) with
  | Ok v => v
  | Throw _ => Some JNull
  end.

Definition searchRequest (adv : json) : request :=
  mkRequest POST (lit "https://eplanning.blm.gov/eplanning-ui/search")
    [ (lit "content-type", lit "application/json");
      (lit "accept", lit "application/json, text/plain, */*") ]
    (Some (JObj [ (lit "advSearch", adv);
                  (lit "page", JNum (lit "0")); (lit "size", JNum (lit "100")) ])).

(** The body of the loop of [run] over the searches, lines 458 to 487.  The
    message written for a response that is not ok is not part of the
    state. *)
Definition runSearch (acc : list Rec * gset jsstring) (s : Search)
  : M (list Rec * gset jsstring) :=
  match orElse (advSearch s)
          (parseAdvFromUrl (orElse (orElse (url s) (link s)) (href s))) with
  | Some adv =>
      if negb (truthy (Some adv)) then mret acc
      else
        res ← call (fetch (searchRequest adv));
        if negb (res_ok res) then mret acc
        else
          data ← liftR (res_json res);
          rows ← liftR (normalizeRows data);
          mret (mergeRows id rows acc)
  | None => mret acc
  end.

Definition runMerge (searches : list Search) : M (list Rec) :=
  acc ← foldM runSearch ([], ∅) searches;
  mret (fst acc).

(** The rows one search contributes: none when it is skipped. *)
Definition searchRows (s : Search) : M (list Rec) :=
  match orElse (advSearch s)
          (parseAdvFromUrl (orElse (orElse (url s) (link s)) (href s))) with
  | Some adv =>
      if negb (truthy (Some adv)) then mret []
      else
        res ← call (fetch (searchRequest adv));
        if negb (res_ok res) then mret []
        else
          data ← liftR (res_json res);
          liftR (normalizeRows data)
  | None => mret []
  end.

End WithRuntime.
End AdvSearch.

(** ** Per-state feeds *)

(** [(r.state || '').split(',').map(s => s.trim()).filter(Boolean)] *)
Definition stateTokens (r : Rec) : list jsstring :=
  List.filter truthyStr
    (List.map trim
       (split (chr ",") (match state r with Some s => s | None => [] end))).

(** The [byState] map: its entries in insertion order, each key once. *)
Definition StateMap : Type := list (jsstring * list Rec).

(** [if (!byState.has(st)) byState.set(st, []); byState.get(st).push(r)] *)
Fixpoint pushTo (st : jsstring) (r : Rec) (byState : StateMap) : StateMap :=
  match byState with
  | [] => [(st, [r])]
  | (k, items) :: rest =>
      if str_eqb k st then (k, items ++ [r]) :: rest
      else (k, items) :: pushTo st r rest
  end.

(** The partition loop of [run], lines 320 to 328 and 499 to 507. *)
Definition partition (merged : list Rec) : StateMap :=
  fold_left
    (fun byState r =>
       fold_left (fun byState st => pushTo st r byState) (stateTokens r) byState)
    merged [].

(** [byState.get(st)] *)
Fixpoint getState (st : jsstring) (byState : StateMap) : option (list Rec) :=
  match byState with
  | [] => None
  | (k, items) :: rest => if str_eqb k st then Some items else getState st rest
  end.

Definition isUpperAZ (c : char) : bool := (65 <=? c) && (c <=? 90).

Definition homeLink : jsstring :=
  lit "https://eplanning.blm.gov/eplanning-ui/home".

Section StateFeeds.
Context `{RT : Runtime}.

(** [st.toUpperCase().replace(/[^A-Z]/g, '')] *)
Definition fname (st : jsstring) : jsstring :=
  replaceClass (fun c => negb (isUpperAZ c)) (fun _ => []) (toUpperCase st).

(** The path of the feed of a state label. *)
Definition statePath (st : jsstring) : jsstring :=
  pathJoin OUT_STATE_DIR (fname st ++ lit ".xml").

(** The title of the feed of a state label; [feedName] is what the build
    calls its feeds (the two fetch builds differ in it). *)
Definition stateTitle (feedName st : jsstring) : jsstring :=
  feedName ++ lit " (" ++ st ++ lit ")".

(** The body of the loop over [byState.entries()]. *)
Definition writeStateFeed (feedName : jsstring) (_ : unit)
    (entry : jsstring * list Rec) : M unit :=
  let (st, items) := entry in
  writeRss (statePath st) (stateTitle feedName st) homeLink items.

(** Lines 330 to 342 and 509 to 521 of [run]. *)
Definition writeStateFeeds (feedName : jsstring) (byState : StateMap)
  : M unit :=
  if bool_decide (byState <> []) then
    _ ← ensureDir OUT_STATE_DIR;
    foldM (writeStateFeed feedName) tt byState
  else mret tt.

(** Lines 310 to 342 of [run] in the keyword build: the national feed, the
    partition, the per-state feeds. *)
Definition writeFeeds (feedName : jsstring) (merged : list Rec) : M unit :=
  _ ← ensureDir OUT_DIR;
  _ ← writeRss OUT_MAIN (feedName ++ lit " (National)") homeLink merged;
  writeStateFeeds feedName (partition merged).

End StateFeeds.

(** The names of the feeds of the keyword build and of the advanced-search
    build; the dash is U+2014. *)
Definition keywordWatch : jsstring :=
  lit "The Overlook " ++ [8212] ++ lit " BLM Keyword Watch".
Definition landsWatch : jsstring :=
  lit "The Overlook " ++ [8212] ++ lit " BLM Watch".

(** ** Query expansion *)

Lemma bind_call `{RT : Runtime} {A B : Type}
    (f : Env -> result A * Env) (k : A -> M B) (st : State) :
  (x ← call f; k x) st
  = match f (env st) with
    | (Ok a, e) => k a (mkState e (files st))
    | (Throw err, e) => (Throw err, mkState e (files st))
    end.
Proof.
  unfold mbind, M_bind, call. now destruct (f (env st)) as [[a|err] e].
Qed.

Lemma bind_assoc `{RT : Runtime} {A B C : Type}
    (m : M A) (k1 : A -> M B) (k2 : B -> M C) (st : State) :
  (y ← (x ← m; k1 x); k2 y) st = (x ← m; y ← k1 x; k2 y) st.
Proof. unfold mbind, M_bind. now destruct (m st) as [[a|e] st']. Qed.

Lemma bind_liftR `{RT : Runtime} {A B : Type}
    (r : result A) (k : A -> M B) (st : State) :
  (x ← liftR r; k x) st
  = match r with
    | Ok a => k a st
    | Throw err => (Throw err, st)
    end.
Proof. unfold mbind, M_bind, liftR. now destruct r. Qed.


Section Expansion.
Context `{RT : Runtime}.

Lemma bind_mret_r {A : Type} (m : M A) (st : State) :
  (x ← m; mret x) st = m st.
Proof.
  unfold mbind, M_bind, mret, M_ret. now destruct (m st) as [[a|e] st'].
Qed.

Lemma foldM_single {A S : Type} (f : S -> A -> M S) (s : S) (x : A) st :
  foldM f s [x] st = f s x st.
Proof. cbn [foldM]. apply bind_mret_r. Qed.

Lemma foldM_map {A B S : Type} (f : S -> B -> M S) (g : A -> B) l :
  forall s st,
    foldM f s (List.map g l) st = foldM (fun s x => f s (g x)) s l st.
Proof.
  induction l as [|x l IH]; intros s st; [reflexivity|].
  cbn [foldM List.map]. unfold mbind, M_bind.
  destruct (f s (g x) st) as [[a|e] st']; [apply IH|reflexivity].
Qed.

Lemma Browser_runQuery_terms states acc q st :
  Browser.runQuery states acc q st
  = foldM (fun acc term => rows ← Browser.scrapeSearchTerm term;
                           mret (mergeRows Browser.rowKey rows acc))
          acc (queryTerms states q) st.
Proof. unfold Browser.runQuery, queryTerms. now destruct (searchText q). Qed.

Lemma Keyword_runQuery_terms states acc q st :
  Keyword.runQuery states acc q st
  = foldM (fun acc term => rows ← Keyword.fetchKeyword term;
                           mret (mergeRows id rows acc))
          acc (queryTerms states q) st.
Proof.
  unfold Keyword.runQuery, queryTerms, terms.
  destruct (searchText q) as [|c s]; [reflexivity|]. cbn [truthyStr negb].
  destruct (perState q && bool_decide (states <> [])).
  - now rewrite foldM_map.
  - now rewrite foldM_single.
Qed.

(** C2, amended: a query with [perState] set, under a state list that is not
    empty, yields one term per state, the trimmed text of searchText, a
    space and the state, in the order of the list; any other query yields
    exactly its [searchText], as configured and not trimmed; a query whose
    [searchText] is empty yields no term.  Both keyword builds run their
    retrieval over exactly these terms. *)
Theorem queryTerms_expansion (states : list jsstring) (q : Query) :
  (searchText q = [] -> queryTerms states q = [])
  /\ (searchText q <> [] -> perState q = true -> states <> [] ->
      queryTerms states q
      = List.map (fun st => trim (searchText q ++ lit " " ++ st)) states)
  /\ (searchText q <> [] -> perState q = false \/ states = [] ->
      queryTerms states q = [searchText q])
  /\ (forall acc st,
        Browser.runQuery states acc q st
        = foldM (fun acc term =>
                   rows ← Browser.scrapeSearchTerm term;
                   mret (mergeRows Browser.rowKey rows acc))
                acc (queryTerms states q) st)
  /\ (forall acc st,
        Keyword.runQuery states acc q st
        = foldM (fun acc term =>
                   rows ← Keyword.fetchKeyword term;
                   mret (mergeRows id rows acc))
                acc (queryTerms states q) st).
Proof.
  split; [|split; [|split; [|split]]].
  - unfold queryTerms. now intros ->.
  - unfold queryTerms, terms. intros Ht -> Hs.
    destruct (searchText q); [congruence|]. cbn [truthyStr andb].
    now rewrite bool_decide_eq_true_2.
  - unfold queryTerms, terms. intros Ht Hor.
    destruct (searchText q); [congruence|]. cbn [truthyStr].
    destruct Hor as [-> | ->]; [reflexivity|].
    rewrite bool_decide_eq_false_2 by congruence.
    now rewrite andb_false_r.
  - intros acc st. apply Browser_runQuery_terms.
  - intros acc st. apply Keyword_runQuery_terms.
Qed.

End Expansion.

(** C2 as stated fails: a national query whose [searchText] has blanks around
    it is sent as it is, not trimmed. *)
Lemma queryTerms_not_trimmed :
  queryTerms [] (mkQuery (lit " solar ") false) = [lit " solar "]
  /\ queryTerms [] (mkQuery (lit " solar ") false)
     <> [trim (lit " solar ")].
Proof. vm_compute. split; [reflexivity|discriminate]. Qed.

(** ** Deduplication *)

(** The merged list a run builds from all the rows it retrieved, in the
    order it retrieved them. *)
Definition firstByKey {A : Type} (key : A -> jsstring) (all : list A) : list A :=
  fst (mergeRows key all ([], ∅)).

Section Merge.
Context {A : Type} (key : A -> jsstring).

Lemma mergeRows_app rows1 rows2 acc :
  mergeRows key (rows1 ++ rows2) acc
  = mergeRows key rows2 (mergeRows key rows1 acc).
Proof. unfold mergeRows. apply fold_left_app. Qed.

Lemma mergeRows_snoc rows r acc :
  mergeRows key (rows ++ [r]) acc
  = let (merged, seen) := mergeRows key rows acc in
    if bool_decide (key r ∈ seen) then (merged, seen)
    else (merged ++ [r], seen ∪ {[ key r ]}).
Proof.
  rewrite mergeRows_app. now destruct (mergeRows key rows acc) as [m s].
Qed.

(** [r] is the first row of [all] with its key. *)
Definition firstWithKey (all : list A) (r : A) : Prop :=
  exists i, all !! i = Some r /\ key r ∉ key <$> take i all.

(** What the loop has built after the rows [pre]. *)
Record mergedOf (pre : list A) (merged : list A) (seen : gset jsstring)
  : Prop := {
  seen_keys : forall k, k ∈ seen <-> k ∈ key <$> pre;
  merged_keys : forall k, k ∈ key <$> merged <-> k ∈ key <$> pre;
  merged_NoDup : NoDup (key <$> merged);
  merged_sublist : merged `sublist_of` pre;
  merged_first : forall r, r ∈ merged <-> firstWithKey pre r
}.

Lemma firstWithKey_snoc_old pre r x :
  firstWithKey pre r -> firstWithKey (pre ++ [x]) r.
Proof.
  intros (i & Hi & Hk). exists i.
  pose proof (lookup_lt_Some _ _ _ Hi) as Hlt.
  split; [now apply lookup_app_l_Some|].
  rewrite take_app_le by lia. exact Hk.
Qed.

Lemma firstWithKey_snoc_inv pre r x :
  firstWithKey (pre ++ [x]) r ->
  firstWithKey pre r \/ (r = x /\ key x ∉ key <$> pre).
Proof.
  intros (i & Hi & Hk).
  destruct (decide (i < length pre)%nat) as [Hlt|Hge].
  - left. exists i. rewrite lookup_app_l in Hi by exact Hlt.
    rewrite take_app_le in Hk by lia. auto.
  - right. rewrite lookup_app_r in Hi by lia.
    assert (i = length pre) as ->.
    { apply lookup_lt_Some in Hi. cbn in Hi. lia. }
    rewrite Nat.sub_diag in Hi. injection Hi as <-.
    rewrite take_app_length in Hk. auto.
Qed.

Lemma mergedOf_all (all : list A) :
  let (merged, seen) := mergeRows key all ([], ∅) in mergedOf all merged seen.
Proof.
  induction all as [|x pre IH] using rev_ind.
  - cbn. split; try (intros; set_solver).
    + constructor.
    + intros r. split; [intros H; inversion H|].
      intros (i & Hi & _). now rewrite lookup_nil in Hi.
  - rewrite mergeRows_snoc.
    destruct (mergeRows key pre ([], ∅)) as [merged seen].
    destruct IH as [Hs Hm Hnd Hsub Hfirst].
    case_bool_decide as Hin.
    + (* the key was seen: the row is dropped *)
      split.
      * intros k. rewrite fmap_app. set_solver.
      * intros k. rewrite fmap_app. set_solver.
      * exact Hnd.
      * now apply sublist_inserts_r.
      * intros r. rewrite Hfirst. split; [apply firstWithKey_snoc_old|].
        intros [H|[-> Hk]]%firstWithKey_snoc_inv; [exact H|].
        exfalso. apply Hk. now apply Hs.
    + (* a new key: the row is added *)
      split.
      * intros k. rewrite fmap_app. set_solver.
      * intros k. rewrite !fmap_app. set_solver.
      * rewrite fmap_app. apply NoDup_app. split; [exact Hnd|].
        split; [|apply NoDup_singleton].
        intros k Hk Hk'. apply list_elem_of_singleton in Hk' as ->.
        apply Hin, Hs, Hm, Hk.
      * now apply sublist_app.
      * intros r. rewrite elem_of_app, Hfirst, list_elem_of_singleton. split.
        -- intros [H| ->]; [now apply firstWithKey_snoc_old|].
           exists (length pre). split.
           ++ now rewrite list_lookup_middle.
           ++ rewrite take_app_length. intros Hk. apply Hin, Hs, Hk.
        -- intros [H|[-> _]]%firstWithKey_snoc_inv; auto.
Qed.

(** The merged list holds exactly the first row of each key, in the order of
    retrieval, and no key twice. *)
Lemma firstByKey_spec (all : list A) :
  NoDup (key <$> firstByKey key all)
  /\ firstByKey key all `sublist_of` all
  /\ (forall r, r ∈ firstByKey key all <-> firstWithKey all r)
  /\ (forall r, r ∈ all -> key r ∈ key <$> firstByKey key all).
Proof.
  unfold firstByKey. pose proof (mergedOf_all all) as H.
  destruct (mergeRows key all ([], ∅)) as [merged seen].
  destruct H as [Hs Hm Hnd Hsub Hfirst]. cbn [fst].
  repeat split; auto; try apply Hfirst.
  intros r Hr. apply Hm. now apply list_elem_of_fmap_2.
Qed.

End Merge.

(** *** The runs *)

Section Runs.
Context `{RT : Runtime}.

Lemma foldM_ext {A S : Type} (f g : S -> A -> M S) l :
  (forall s x st, f s x st = g s x st) ->
  forall s st, foldM f s l st = foldM g s l st.
Proof.
  intros Hfg. induction l as [|x l IH]; intros s st; [reflexivity|].
  cbn [foldM]. unfold mbind, M_bind. rewrite Hfg.
  destruct (g s x st) as [[a|e] st']; [apply IH|reflexivity].
Qed.

Lemma foldM_app {A S : Type} (f : S -> A -> M S) l1 l2 :
  forall s st,
    foldM f s (l1 ++ l2) st = (s' ← foldM f s l1; foldM f s' l2) st.
Proof.
  induction l1 as [|x l1 IH]; intros s st; [reflexivity|].
  cbn [foldM app]. unfold mbind, M_bind in *.
  destruct (f s x st) as [[a|e] st']; [apply IH|reflexivity].
Qed.

Lemma foldM_flat_map {A B S : Type} (f : S -> B -> M S) (g : A -> list B) l :
  forall s st,
    foldM (fun s x => foldM f s (g x)) s l st = foldM f s (flat_map g l) st.
Proof.
  induction l as [|x l IH]; intros s st; [reflexivity|].
  cbn [foldM flat_map]. rewrite foldM_app. unfold mbind, M_bind.
  destruct (foldM f s (g x) st) as [[a|e] st']; [apply IH|reflexivity].
Qed.

(** A loop that retrieves and merges term by term builds what merging all
    the retrieved rows at once builds. *)
Lemma foldM_merge {A T : Type} (key : A -> jsstring)
    (retrieve : T -> M (list A)) (ts : list T) :
  forall acc st,
    foldM (fun acc term => rows ← retrieve term;
                           mret (mergeRows key rows acc)) acc ts st
    = (rows ← mapM' retrieve ts;
       mret (mergeRows key (concat rows) acc)) st.
Proof.
  induction ts as [|t ts IH]; intros acc st; [reflexivity|].
  cbn [foldM mapM']. unfold mbind, M_bind in *. cbn beta.
  destruct (retrieve t st) as [[rows|e] st1]; [|reflexivity].
  unfold mret at 1, M_ret at 1. rewrite IH.
  destruct (mapM' retrieve ts st1) as [[rest|e] st2]; [|reflexivity].
  unfold mret, M_ret. cbn [concat]. now rewrite mergeRows_app.
Qed.

(** The rows a run of the keyword build retrieves: one [fetchKeyword] call
    per term, in the order of the configuration. *)
Definition keywordRows (queries : list Query) (states : list jsstring)
  : M (list (list Rec)) :=
  mapM' Keyword.fetchKeyword (flat_map (queryTerms states) queries).

(** The rows a run of the browser build scrapes. *)
Definition browserRows (queries : list Query) (states : list jsstring)
  : M (list (list Browser.Row)) :=
  mapM' Browser.scrapeSearchTerm (flat_map (queryTerms states) queries).

End Runs.

Section MergedRuns.
Context `{RT : Runtime}.

Lemma runMerge_collect {A : Type} (key : A -> jsstring)
    (retrieve : jsstring -> M (list A))
    (runQuery : list A * gset jsstring -> Query -> M (list A * gset jsstring))
    (states : list jsstring) (queries : list Query) (st : State) :
  (forall acc q st,
     runQuery acc q st
     = foldM (fun acc term => rows ← retrieve term;
                              mret (mergeRows key rows acc))
             acc (queryTerms states q) st) ->
  (acc ← foldM runQuery ([], ∅) queries; mret (fst acc)) st
  = (rows ← mapM' retrieve (flat_map (queryTerms states) queries);
     mret (firstByKey key (concat rows))) st.
Proof.
  intros Hq. unfold mbind at 1, M_bind at 1.
  rewrite (foldM_ext _ _ _ Hq), foldM_flat_map, foldM_merge.
  unfold mbind, M_bind.
  now destruct (mapM' retrieve _ st) as [[rows|e] st'].
Qed.

Lemma Keyword_runMerge_collect queries states st :
  Keyword.runMerge queries states st
  = (rows ← keywordRows queries states;
     mret (firstByKey id (concat rows))) st.
Proof.
  apply (runMerge_collect id Keyword.fetchKeyword).
  intros acc q st'. apply Keyword_runQuery_terms.
Qed.

Lemma Browser_runMerge_collect queries states st :
  Browser.runMerge queries states st
  = (rows ← browserRows queries states;
     mret (firstByKey Browser.rowKey (concat rows))) st.
Proof.
  apply (runMerge_collect Browser.rowKey Browser.scrapeSearchTerm).
  intros acc q st'. apply Browser_runQuery_terms.
Qed.

(** The rows a run of the advanced-search build retrieves. *)
Definition advancedRows (searches : list AdvSearch.Search)
  : M (list (list Rec)) :=
  mapM' AdvSearch.searchRows searches.

Lemma AdvSearch_runSearch_rows acc s st :
  AdvSearch.runSearch acc s st
  = (rows ← AdvSearch.searchRows s; mret (mergeRows id rows acc)) st.
Proof.
  unfold AdvSearch.runSearch, AdvSearch.searchRows.
  destruct (AdvSearch.orElse _ _) as [adv|]; [|reflexivity].
  destruct (negb (truthy (Some adv))); [reflexivity|].
  rewrite bind_assoc, !bind_call.
  destruct (fetch _ (env st)) as [[res|e] e1]; [|reflexivity].
  destruct (negb (res_ok res)); [reflexivity|].
  unfold mbind, M_bind, liftR.
  destruct (res_json res); [|reflexivity].
  now destruct (normalizeRows _).
Qed.

Lemma AdvSearch_runMerge_collect searches st :
  AdvSearch.runMerge searches st
  = (rows ← advancedRows searches;
     mret (firstByKey id (concat rows))) st.
Proof.
  unfold AdvSearch.runMerge, advancedRows. unfold mbind at 1, M_bind at 1.
  rewrite (foldM_ext _ _ _ AdvSearch_runSearch_rows), foldM_merge.
  unfold mbind, M_bind.
  now destruct (mapM' AdvSearch.searchRows searches st) as [[rows|e] st'].
Qed.

End MergedRuns.

(** *** The key of the browser build *)

Lemma matchProject_digits s d :
  Browser.matchProject s = Some d -> forallb isDigit d = true.
Proof.
  unfold Browser.matchProject.
  destruct (startsWith (lit "/project/") s); [|discriminate].
  destruct (span isDigit (drop 9 s)) as [digits rest] eqn:Hs.
  apply span_sound in Hs as (_ & Hd & _).
  destruct digits as [|c ds]; [discriminate|].
  destruct (startsWith (lit "/510") rest); [|discriminate].
  now intros [= <-].
Qed.

Lemma findProject_digits s d :
  Browser.findProject s = Some d -> forallb isDigit d = true.
Proof.
  induction s as [|c s IH]; cbn [Browser.findProject].
  - destruct (Browser.matchProject []) eqn:E; [|discriminate].
    intros [= <-]. now apply matchProject_digits in E.
  - destruct (Browser.matchProject (c :: s)) eqn:E; [|exact IH].
    intros [= <-]. now apply matchProject_digits in E.
Qed.

Lemma toRow_digits item r :
  Browser.toRow item = Some r -> forallb isDigit (Browser.id r) = true.
Proof.
  destruct item as [u t]. unfold Browser.toRow.
  destruct (Browser.findProject u) as [d|] eqn:E; [|discriminate].
  intros [= <-]. cbn. now apply findProject_digits in E.
Qed.

(** A bar is no digit, so the key of a scraped row determines both its id
    and its url. *)
Lemma rowKey_inj (r1 r2 : Browser.Row) :
  forallb isDigit (Browser.id r1) = true ->
  forallb isDigit (Browser.id r2) = true ->
  Browser.rowKey r1 = Browser.rowKey r2 ->
  Browser.id r1 = Browser.id r2 /\ Browser.url r1 = Browser.url r2.
Proof.
  unfold Browser.rowKey.
  generalize (Browser.url r1) (Browser.url r2) (Browser.id r1) (Browser.id r2).
  intros u1 u2 i1. induction i1 as [|c i1 IH]; intros i2 H1 H2 E.
  - destruct i2 as [|c2 i2].
    + cbn in E. now injection E as ->.
    + exfalso. cbn in H2, E. injection E as <- _. discriminate.
  - destruct i2 as [|c2 i2].
    + exfalso. cbn in H1, E. injection E as -> _. discriminate.
    + cbn in H1, H2, E. injection E as -> E.
      apply andb_prop in H1 as [_ H1], H2 as [_ H2].
      destruct (IH _ H1 H2 E) as [-> ->]. now split.
Qed.

(** C1, amended: in the two builds that retrieve through [fetch] a run's
    merged list is deduplicated by [id] alone: it is, in the order of
    retrieval, the first record of each [id]; a later record with the same
    [id] is dropped whatever its other fields, and no two merged records
    share an [id].  The browser build deduplicates by the key made of id
    and url: it keeps the first row of each key, and two scraped rows have
    the same key exactly when they agree on both [id] and [url]. *)
Theorem merged_first_by_key `{RT : Runtime}
    (queries : list Query) (states : list jsstring)
    (searches : list AdvSearch.Search) (st : State) :
  Keyword.runMerge queries states st
    = (rows ← keywordRows queries states;
       mret (firstByKey id (concat rows))) st
  /\ AdvSearch.runMerge searches st
    = (rows ← advancedRows searches;
       mret (firstByKey id (concat rows))) st
  /\ Browser.runMerge queries states st
    = (rows ← browserRows queries states;
       mret (firstByKey Browser.rowKey (concat rows))) st
  /\ (forall all : list Rec,
        NoDup (id <$> firstByKey id all)
        /\ firstByKey id all `sublist_of` all
        /\ (forall r, r ∈ firstByKey id all <-> firstWithKey id all r)
        /\ (forall r, r ∈ all -> id r ∈ id <$> firstByKey id all))
  /\ (forall all : list Browser.Row,
        NoDup (Browser.rowKey <$> firstByKey Browser.rowKey all)
        /\ firstByKey Browser.rowKey all `sublist_of` all
        /\ (forall r, r ∈ firstByKey Browser.rowKey all
                      <-> firstWithKey Browser.rowKey all r)
        /\ (forall r, r ∈ all ->
              Browser.rowKey r
                ∈ Browser.rowKey <$> firstByKey Browser.rowKey all))
  /\ (forall item1 item2 r1 r2,
        Browser.toRow item1 = Some r1 -> Browser.toRow item2 = Some r2 ->
        (Browser.rowKey r1 = Browser.rowKey r2
         <-> Browser.id r1 = Browser.id r2 /\ Browser.url r1 = Browser.url r2)).
Proof.
  split; [apply Keyword_runMerge_collect|].
  split; [apply AdvSearch_runMerge_collect|].
  split; [apply Browser_runMerge_collect|].
  split; [intros all; apply firstByKey_spec|].
  split; [intros all; apply firstByKey_spec|].
  intros item1 item2 r1 r2 H1 H2. split.
  - apply rowKey_inj; eapply toRow_digits; eassumption.
  - unfold Browser.rowKey. now intros [-> ->].
Qed.

(** ** A scripted world *)

(** A world for examples: the browser shows the anchors [pages] lists for a
    URL, the server answers as [respond] says, the clock always reads the
    same, texts are URI-encoded as they are, case is mapped for ASCII
    letters, and [Env] counts the calls. *)
Definition scriptedRuntime
    (pages : jsstring -> list (jsstring * jsstring))
    (respond : request -> result response) : Runtime :=
  {| Env := nat;
     toLowerCase := List.map lower;
     toUpperCase := List.map canon;
     encodeURIComponent := Ok;
     decodeURIComponent := Ok;
     jsonParse := fun _ => Throw SyntaxError;
     urlSearchParam := fun _ _ => Throw TypeError;
     pathJoin := fun dir leaf => dir ++ lit "/" ++ leaf;
     cwd := lit "/repo";
     fetch := fun req n => (respond req, S n);
     toUTCString := fun n => (lit "Mon, 02 Nov 2026 00:00:00 GMT", S n);
     renderAnchors := fun url n => (Ok (pages url), S n);
     toUpperCase_ascii := fun s _ => eq_refl;
     toLowerCase_ascii := fun s _ => eq_refl |}.

Definition offline (_ : request) : result response := Throw NetworkError.

(** Two anchors of one project: its page, and the same page with a query
    string. *)
Definition twoAnchors (_ : jsstring) : list (jsstring * jsstring) :=
  [ (lit "https://eplanning.blm.gov/eplanning-ui/project/42/510",
     lit "Solar One");
    (lit "https://eplanning.blm.gov/eplanning-ui/project/42/510?from=/510",
     lit "Solar One") ].

(** C1 as stated fails in the browser build: the second row has the [id] of
    the first and another [url], and it is kept. *)
Lemma browser_keeps_second_url :
  fst (@Browser.runMerge (scriptedRuntime twoAnchors offline)
         [mkQuery (lit "solar") false] []
         (@mkState (scriptedRuntime twoAnchors offline) 0%nat ∅))
  = Ok [ Browser.mkRow (lit "42") (lit "Solar One")
           (lit "https://eplanning.blm.gov/eplanning-ui/project/42/510");
         Browser.mkRow (lit "42") (lit "Solar One")
           (lit "https://eplanning.blm.gov/eplanning-ui/project/42/510?from=/510") ].
Proof. vm_compute. reflexivity. Qed.

(** ** The partition by state *)

(** How many times the label [st] occurs among the state tokens of [r]. *)
Definition tokenCount (st : jsstring) (r : Rec) : nat :=
  length (List.filter (str_eqb st) (stateTokens r)).

(** The records of the partition of [st]: each record of the merged list,
    once per occurrence of [st] among its tokens. *)
Definition placed (st : jsstring) (merged : list Rec) : list Rec :=
  flat_map (fun r => replicate (tokenCount st r) r) merged.

Definition listFor (st : jsstring) (byState : StateMap) : list Rec :=
  default [] (getState st byState).

Lemma str_eqb_eq s t : str_eqb s t = true <-> s = t.
Proof. unfold str_eqb. apply bool_decide_eq_true. Qed.

Lemma str_eqb_sym s t : str_eqb s t = str_eqb t s.
Proof. unfold str_eqb. apply bool_decide_ext. split; congruence. Qed.

Lemma listFor_pushTo k st r m :
  listFor k (pushTo st r m)
  = listFor k m ++ (if str_eqb k st then [r] else []).
Proof.
  unfold listFor. induction m as [|[k' items] m IH]; cbn [pushTo getState].
  - rewrite (str_eqb_sym st k). now destruct (str_eqb k st).
  - destruct (str_eqb k' st) eqn:E1; cbn [getState].
    + apply str_eqb_eq in E1 as ->. rewrite (str_eqb_sym st k).
      destruct (str_eqb k st); cbn; [reflexivity|]. now rewrite app_nil_r.
    + destruct (str_eqb k' k) eqn:E2; [|exact IH].
      apply str_eqb_eq in E2 as ->. rewrite E1. cbn. now rewrite app_nil_r.
Qed.

Lemma listFor_tokens k r tokens : forall m,
  listFor k (fold_left (fun m st => pushTo st r m) tokens m)
  = listFor k m ++ replicate (length (List.filter (str_eqb k) tokens)) r.
Proof.
  induction tokens as [|t tokens IH]; intros m; cbn [fold_left List.filter].
  - cbn. now rewrite app_nil_r.
  - rewrite IH, listFor_pushTo, <- app_assoc. f_equal.
    now destruct (str_eqb k t).
Qed.

Lemma listFor_partition_from k merged : forall m,
  listFor k (fold_left
               (fun m r => fold_left (fun m st => pushTo st r m)
                             (stateTokens r) m) merged m)
  = listFor k m ++ placed k merged.
Proof.
  induction merged as [|r merged IH]; intros m; cbn [fold_left].
  - cbn. now rewrite app_nil_r.
  - rewrite IH, listFor_tokens, <- app_assoc. reflexivity.
Qed.

(** Every key of the map holds at least one record, and no key occurs
    twice. *)
Definition wellFormed (m : StateMap) : Prop :=
  NoDup (fst <$> m) /\ Forall (fun e => snd e <> []) m.

Lemma pushTo_keys st r m :
  fst <$> pushTo st r m
  = if bool_decide (st ∈ fst <$> m) then fst <$> m else (fst <$> m) ++ [st].
Proof.
  induction m as [|[k items] m IH]; [reflexivity|]. cbn [pushTo].
  destruct (str_eqb k st) eqn:E.
  - apply str_eqb_eq in E as ->. cbn.
    rewrite bool_decide_eq_true_2; [reflexivity|]. left.
  - cbn. rewrite IH.
    assert (Hne : k <> st) by (intros ->; now rewrite (proj2 (str_eqb_eq _ _)) in E).
    destruct (bool_decide_reflect (st ∈ fst <$> m)) as [Hin|Hnin].
    + rewrite bool_decide_eq_true_2; [reflexivity|]. now right.
    + rewrite bool_decide_eq_false_2; [reflexivity|].
      intros [?|?]%elem_of_cons; congruence.
Qed.

Lemma pushTo_wellFormed st r m : wellFormed m -> wellFormed (pushTo st r m).
Proof.
  intros [Hnd Hne]. split.
  - rewrite pushTo_keys. case_bool_decide as Hin; [exact Hnd|].
    apply NoDup_app. split; [exact Hnd|]. split; [|apply NoDup_singleton].
    intros k Hk Hk'. apply list_elem_of_singleton in Hk' as ->. auto.
  - clear Hnd. induction m as [|[k items] m IH]; cbn [pushTo].
    + constructor; [discriminate|constructor].
    + inversion Hne as [|? ? Hk Hm]; subst.
      destruct (str_eqb k st); constructor; auto.
      cbn. intros [_ H]%app_eq_nil. discriminate.
Qed.

Lemma partition_wellFormed merged : wellFormed (partition merged).
Proof.
  unfold partition.
  assert (H : wellFormed []) by (split; constructor).
  revert H. generalize ([] : StateMap) as m.
  induction merged as [|r merged IH]; intros m Hm; [exact Hm|].
  cbn [fold_left]. apply IH. revert m Hm.
  induction (stateTokens r) as [|t ts IHt]; intros m Hm; [exact Hm|].
  cbn [fold_left]. apply IHt. now apply pushTo_wellFormed.
Qed.

Lemma getState_listFor st m :
  Forall (fun e => snd e <> []) m ->
  getState st m = match listFor st m with [] => None | l => Some l end.
Proof.
  unfold listFor. induction 1 as [|[k items] m Hk _ IH]; [reflexivity|].
  cbn [getState]. destruct (str_eqb k st); [|exact IH].
  cbn in *. now destruct items.
Qed.

Lemma tokenCount_once st r :
  NoDup (stateTokens r) -> st ∈ stateTokens r -> tokenCount st r = 1%nat.
Proof.
  unfold tokenCount. induction 1 as [|t ts Hnin Hnd IH]; intros Hin.
  - inversion Hin.
  - cbn [List.filter]. destruct (str_eqb st t) eqn:E.
    + apply str_eqb_eq in E as ->. cbn. f_equal.
      clear -Hnin. induction ts as [|t' ts IH]; [reflexivity|].
      cbn [List.filter]. destruct (str_eqb t t') eqn:E.
      * apply str_eqb_eq in E as ->. exfalso. apply Hnin. left.
      * apply IH. intros H. apply Hnin. now right.
    + apply IH. apply elem_of_cons in Hin as [->|Hin]; [|exact Hin].
      now rewrite (proj2 (str_eqb_eq _ _)) in E.
Qed.

Lemma tokenCount_none st r : st ∉ stateTokens r -> tokenCount st r = 0%nat.
Proof.
  unfold tokenCount. induction (stateTokens r) as [|t ts IH]; [reflexivity|].
  intros Hnin. cbn [List.filter]. destruct (str_eqb st t) eqn:E.
  - apply str_eqb_eq in E as ->. exfalso. apply Hnin. left.
  - apply IH. intros H. apply Hnin. now right.
Qed.

(** C3, amended: the partition of a label holds, in encounter order, every
    merged record once per occurrence of the label among the trimmed,
    non-empty tokens of its comma-joined [state]; a label without records is
    no key of the map and no key occurs twice.  So a record whose tokens are
    all different is placed once under each of them, a record is placed
    under no label that is not among its tokens, and a record without
    [state] is placed nowhere. *)
Theorem partition_by_token (merged : list Rec) (st : jsstring) :
  getState st (partition merged)
    = match placed st merged with [] => None | l => Some l end
  /\ NoDup (fst <$> partition merged)
  /\ (forall r, NoDup (stateTokens r) -> st ∈ stateTokens r ->
        tokenCount st r = 1%nat)
  /\ (forall r, st ∉ stateTokens r -> tokenCount st r = 0%nat)
  /\ (forall r, state r = None -> stateTokens r = []).
Proof.
  destruct (partition_wellFormed merged) as [Hnd Hne].
  split; [|split; [exact Hnd|split; [|split]]].
  - rewrite (getState_listFor _ _ Hne). unfold partition.
    now rewrite listFor_partition_from.
  - intros r. apply tokenCount_once.
  - intros r. apply tokenCount_none.
  - intros r Hr. unfold stateTokens. now rewrite Hr.
Qed.

(** A record whose state lists Nevada twice, as [normalizeRows] builds it
    from a row with that [states] array. *)
Definition nevadaTwice : Rec :=
  mkRec (lit "1") (lit "BLM Project 1") (Some (JStr (projectUrl (lit "1"))))
        (Some (lit "NV, NV")) None None None
        (Some (obj [ ("id", JStr (lit "1"));
                     ("states", JArr [JStr (lit "NV"); JStr (lit "NV")]) ]%string)).

Example nevadaTwice_from_row :
  normalizeRows
    (JArr [obj [ ("id", JStr (lit "1"));
                 ("states", JArr [JStr (lit "NV"); JStr (lit "NV")]) ]%string])
  = Ok [nevadaTwice].
Proof. vm_compute. reflexivity. Qed.

(** C3 as stated fails: a token that occurs twice in the value places the
    record twice in the partition of that token. *)
Lemma partition_repeats_record :
  stateTokens nevadaTwice = [lit "NV"; lit "NV"]
  /\ partition [nevadaTwice] = [(lit "NV", [nevadaTwice; nevadaTwice])].
Proof. vm_compute. split; reflexivity. Qed.

(** ** The retrieval ladder *)

Lemma startsWith_iff p s : startsWith p s = true <-> exists r, s = p ++ r.
Proof.
  revert s. induction p as [|a p IH]; intros s; cbn [startsWith].
  - split; [intros _; now exists s|reflexivity].
  - destruct s as [|b s]; [split; [discriminate|now intros [r [=]]]|].
    rewrite andb_true_iff, N.eqb_eq, IH. split.
    + intros [-> [r ->]]. now exists r.
    + intros [r [= -> ->]]. split; [reflexivity|now exists r].
Qed.





(** The scenario of the specification: the server answers the search with
    an HTML page that holds one project link. *)
Definition htmlServer (_ : request) : result response :=
  Ok (mkResponse true (Some (lit "text/html")) (Throw SyntaxError)
        (Ok desertTrail)).

Example fetchKeyword_html_fallback :
  fst (@Keyword.fetchKeyword (scriptedRuntime (fun _ => []) htmlServer)
         (lit "trail")
         (@mkState (scriptedRuntime (fun _ => []) htmlServer) 0%nat ∅))
  = Ok [ mkRec (lit "42") (lit "Desert Trail")
           (Some (JStr (lit "https://eplanning.blm.gov/eplanning-ui/project/42/510")))
           None None None None None ].
Proof. vm_compute. reflexivity. Qed.

(** A server that answers with a JSON body under a content type with a
    charset parameter and capital letters. *)
Definition jsonServer (_ : request) : result response :=
  Ok (mkResponse true (Some (lit "Application/JSON; charset=utf-8"))
        (Ok (obj [("content", sampleRows)]%string)) (Ok [])).

Example fetchKeyword_json :
  fst (@Keyword.fetchKeyword (scriptedRuntime (fun _ => []) jsonServer)
         (lit "solar")
         (@mkState (scriptedRuntime (fun _ => []) jsonServer) 0%nat ∅))
  = Ok sampleRecs.
Proof. vm_compute. reflexivity. Qed.




(** ** Writing the per-state feeds *)

Section FeedFiles.
Context `{RT : Runtime}.

(** A computation that writes no file. *)
Definition keepsFiles {A : Type} (m : M A) : Prop :=
  forall st, files (snd (m st)) = files st.

Lemma keepsFiles_ret {A : Type} (a : A) : keepsFiles (mret a).
Proof. now intros st. Qed.

Lemma keepsFiles_liftR {A : Type} (r : result A) : keepsFiles (liftR r).
Proof. now intros st. Qed.

Lemma keepsFiles_call {A : Type} (f : Env -> result A * Env) :
  keepsFiles (call f).
Proof. intros st. unfold call. now destruct (f (env st)). Qed.

Lemma keepsFiles_bind {A B : Type} (m : M A) (k : A -> M B) :
  keepsFiles m -> (forall a, keepsFiles (k a)) -> keepsFiles (x ← m; k x).
Proof.
  intros Hm Hk st. unfold mbind, M_bind. specialize (Hm st).
  destruct (m st) as [[a|e] st1]; cbn [snd] in *; [|exact Hm].
  now rewrite Hk.
Qed.

Lemma keepsFiles_mapM' {A B : Type} (f : A -> M B) l :
  (forall x, keepsFiles (f x)) -> keepsFiles (mapM' f l).
Proof.
  intros Hf. induction l as [|x l IH]; [apply keepsFiles_ret|].
  cbn [mapM']. apply keepsFiles_bind; [apply Hf|]. intros y.
  apply keepsFiles_bind; [exact IH|]. intros ys. apply keepsFiles_ret.
Qed.

Lemma keepsFiles_itemToRss item : keepsFiles (itemToRss item).
Proof.
  unfold itemToRss.
  repeat (apply keepsFiles_bind;
          [first [apply keepsFiles_liftR | apply keepsFiles_call]|intros ?]).
  apply keepsFiles_ret.
Qed.

Lemma keepsFiles_rssXml title link items : keepsFiles (rssXml title link items).
Proof.
  unfold rssXml. apply keepsFiles_bind; [apply keepsFiles_call|]. intros d.
  apply keepsFiles_bind;
    [apply keepsFiles_mapM', keepsFiles_itemToRss|].
  intros es. apply keepsFiles_ret.
Qed.

(** [doc] is the file content of a feed of the label [st] with the records
    [items]: the document of [writeRss] for them at some moment. *)
Definition feedOf (feedName st : jsstring) (items : list Rec)
    (doc : jsstring) : Prop :=
  exists s0 s1 xml,
    rssXml (stateTitle feedName st) homeLink items s0 = (Ok xml, s1)
    /\ doc = trim xml ++ nl.

Lemma writeStateFeed_Ok feedName st items s0 s1 :
  writeStateFeed feedName tt (st, items) s0 = (Ok tt, s1) ->
  exists doc, feedOf feedName st items doc
              /\ files s1 = <[statePath st := doc]> (files s0).
Proof.
  unfold writeStateFeed, writeRss, mbind, M_bind.
  pose proof (keepsFiles_rssXml (stateTitle feedName st) homeLink items s0) as Hk.
  destruct (rssXml _ _ _ s0) as [[xml|e] s'] eqn:Hx; [|discriminate].
  unfold writeFileSync. intros [= <-]. cbn [files snd] in *.
  exists (trim xml ++ nl). split; [now exists s0, s', xml|]. now rewrite Hk.
Qed.

Lemma foldM_unit_app {A : Type} (f : unit -> A -> M unit) l1 l2 s0 s2 :
  foldM f tt (l1 ++ l2) s0 = (Ok tt, s2) ->
  exists s1, foldM f tt l1 s0 = (Ok tt, s1) /\ foldM f tt l2 s1 = (Ok tt, s2).
Proof.
  revert s0. induction l1 as [|x l1 IH]; intros s0 H.
  - exists s0. split; [reflexivity|exact H].
  - cbn [app foldM] in *. unfold mbind, M_bind in *.
    destruct (f tt x s0) as [[[]|e] s'] eqn:Hx; [|discriminate].
    apply IH in H as (s1 & H1 & H2). eauto.
Qed.

Lemma writeStateFeeds_other feedName l p : forall s0 s1,
  foldM (writeStateFeed feedName) tt l s0 = (Ok tt, s1) ->
  Forall (fun e => statePath (fst e) <> p) l ->
  files s1 !! p = files s0 !! p.
Proof.
  induction l as [|[st items] l IH]; intros s0 s1 H Hp.
  - now injection H as <-.
  - inversion Hp as [|? ? Hne Hl]; subst. cbn [fst] in Hne.
    apply (foldM_unit_app _ [(st, items)] l) in H as (s' & H1 & H2).
    rewrite foldM_single in H1.
    apply writeStateFeed_Ok in H1 as (doc & _ & Hf).
    rewrite (IH _ _ H2 Hl), Hf. now apply lookup_insert_ne.
Qed.

Lemma writeStateFeeds_last feedName l st items s0 s1 :
  foldM (writeStateFeed feedName) tt (l ++ [(st, items)]) s0 = (Ok tt, s1) ->
  exists doc, feedOf feedName st items doc
              /\ files s1 !! statePath st = Some doc.
Proof.
  intros H. apply foldM_unit_app in H as (s' & _ & H).
  rewrite foldM_single in H.
  apply writeStateFeed_Ok in H as (doc & Hd & Hf).
  exists doc. split; [exact Hd|]. rewrite Hf. apply lookup_insert_eq.
Qed.

Lemma fname_ascii st :
  forallb (fun c => c <? 128) st = true ->
  fname st = List.filter isUpperAZ (List.map canon st).
Proof.
  intros H. unfold fname. rewrite (toUpperCase_ascii _ H).
  unfold replaceClass. induction (List.map canon st) as [|c l IH];
    [reflexivity|].
  cbn [flat_map List.filter]. rewrite IH. now destruct (isUpperAZ c).
Qed.

(** A record that can be serialized: its [url] and its descriptive fields
    are strings or absent. *)
Definition typedRec (r : Rec) : Prop := textual (url r) /\ typedMetadata r.

Lemma itemToRss_typed item st :
  typedRec item -> exists doc st', itemToRss item st = (Ok doc, st').
Proof.
  intros [Hu Hm]. unfold itemToRss, description.
  rewrite bind_liftR, (descParts_typed item Hm). cbn [mbind result_bind].
  rewrite !bind_liftR.
  assert (exists link, escapeXmlV (url item) = Ok link) as [link ->].
  { destruct (url item) as [[]|]; try contradiction; cbn; eauto. }
  unfold nowRfc822. rewrite bind_call.
  destruct (toUTCString (env st)) as [d e]. eauto.
Qed.

Lemma mapM'_itemToRss_typed items : forall st,
  Forall typedRec items ->
  exists docs st', mapM' itemToRss items st = (Ok docs, st').
Proof.
  induction items as [|item items IH]; intros st H; [cbn; eauto|].
  inversion H as [|? ? Hi Hr]; subst. cbn [mapM'].
  destruct (itemToRss_typed item st Hi) as (doc & st1 & E).
  unfold mbind at 1, M_bind at 1. rewrite E.
  destruct (IH st1 Hr) as (docs & st2 & E2).
  unfold mbind, M_bind. rewrite E2. cbn. eauto.
Qed.

Lemma writeStateFeed_typed feedName st items s0 :
  Forall typedRec items ->
  exists s1, writeStateFeed feedName tt (st, items) s0 = (Ok tt, s1).
Proof.
  intros H. unfold writeStateFeed, writeRss, rssXml, nowRfc822.
  unfold mbind at 1, M_bind at 1. rewrite bind_call.
  destruct (toUTCString (env s0)) as [d e].
  destruct (mapM'_itemToRss_typed items (mkState e (files s0)) H)
    as (docs & s' & E).
  unfold mbind, M_bind. rewrite E. cbn. eauto.
Qed.

Lemma writeStateFeeds_typed feedName (byState : StateMap) : forall s0,
  Forall (fun e => Forall typedRec (snd e)) byState ->
  exists s1, foldM (writeStateFeed feedName) tt byState s0 = (Ok tt, s1).
Proof.
  induction byState as [|[st items] l IH]; intros s0 H; [cbn; eauto|].
  inversion H as [|? ? Hi Hl]; subst. cbn [snd] in Hi. cbn [foldM].
  destruct (writeStateFeed_typed feedName st items s0 Hi) as (s' & E).
  unfold mbind, M_bind. rewrite E. apply IH, Hl.
Qed.

(** C10: the file name of a per-state feed is its label in upper case
    without everything but the letters A to Z, and this is not injective:
    the labels nv and NV, or N.V. and NV, get the same name.  Two labels of
    the partition map with the same name get the same path; the feeds are
    written without an exception, the feed of the first is written to that
    path and the feed of the later one then replaces it, so that the file at
    the end holds the feed of the last label written to that path. *)
Theorem state_feed_overwritten
    (feedName : jsstring) (l1 l2 l3 : StateMap)
    (st1 st2 : jsstring) (items1 items2 : list Rec) (s0 : State) :
  st1 <> st2 ->
  fname st1 = fname st2 ->
  Forall (fun e => statePath (fst e) <> statePath st2) l3 ->
  Forall (fun e => Forall typedRec (snd e))
    (l1 ++ (st1, items1) :: l2 ++ (st2, items2) :: l3) ->
  (fname (lit "nv") = fname (lit "NV") /\ fname (lit "N.V.") = fname (lit "NV"))
  /\ statePath st1 = statePath st2
  /\ exists s1 s3 doc1 doc2,
       writeStateFeeds feedName
         (l1 ++ (st1, items1) :: l2 ++ (st2, items2) :: l3) s0 = (Ok tt, s3)
       /\ foldM (writeStateFeed feedName) tt (l1 ++ [(st1, items1)]) s0
         = (Ok tt, s1)
       /\ feedOf feedName st1 items1 doc1
       /\ files s1 !! statePath st1 = Some doc1
       /\ feedOf feedName st2 items2 doc2
       /\ files s3 !! statePath st1 = Some doc2.
Proof.
  intros Hne Hfn Hl3 Htyped.
  split.
  { rewrite !fname_ascii by reflexivity. split; reflexivity. }
  assert (Hp : statePath st1 = statePath st2)
    by (unfold statePath; now rewrite Hfn).
  split; [exact Hp|].
  destruct (writeStateFeeds_typed feedName _ s0 Htyped) as (s3 & Hrun).
  assert (Hall : writeStateFeeds feedName
            (l1 ++ (st1, items1) :: l2 ++ (st2, items2) :: l3) s0 = (Ok tt, s3)).
  { unfold writeStateFeeds.
    rewrite bool_decide_eq_true_2 by (now destruct l1). exact Hrun. }
  replace (l1 ++ (st1, items1) :: l2 ++ (st2, items2) :: l3)
    with ((l1 ++ [(st1, items1)]) ++ (l2 ++ [(st2, items2)]) ++ l3) in Hrun
    by now app_norm.
  apply foldM_unit_app in Hrun as (s1 & H1 & Hrun).
  apply foldM_unit_app in Hrun as (s2 & H2 & H3).
  pose proof (writeStateFeeds_last _ _ _ _ _ _ H1) as (doc1 & Hd1 & Hf1).
  pose proof (writeStateFeeds_last _ _ _ _ _ _ H2) as (doc2 & Hd2 & Hf2).
  exists s1, s3, doc1, doc2. repeat split; auto.
  rewrite Hp, <- Hf2. exact (writeStateFeeds_other _ _ _ _ _ H3 Hl3).
Qed.

End FeedFiles.

(** Two records whose states differ only in case. *)
Definition lowerNevada : Rec :=
  mkRec (lit "1") (lit "One") (Some (JStr (projectUrl (lit "1"))))
        (Some (lit "nv")) None None None None.
Definition upperNevada : Rec :=
  mkRec (lit "2") (lit "Two") (Some (JStr (projectUrl (lit "2"))))
        (Some (lit "NV")) None None None None.

Example partition_two_labels :
  partition [lowerNevada; upperNevada]
  = [(lit "nv", [lowerNevada]); (lit "NV", [upperNevada])].
Proof. vm_compute. reflexivity. Qed.

Definition quietRuntime : Runtime := scriptedRuntime (fun _ => []) offline.

Definition nevadaStart : @State quietRuntime := @mkState quietRuntime 0%nat ∅.

(** The state after the per-state feeds of the two records are written. *)
Definition nevadaEnd : @State quietRuntime :=
  Eval vm_compute in
    snd (@writeStateFeeds quietRuntime keywordWatch
           (partition [lowerNevada; upperNevada]) nevadaStart).

Lemma state_feed_overwritten_witness :
  @statePath quietRuntime (lit "nv") = @statePath quietRuntime (lit "NV")
  /\ exists s1 s3 doc1 doc2,
       @writeStateFeeds quietRuntime keywordWatch
         ([] ++ (lit "nv", [lowerNevada]) :: [] ++ (lit "NV", [upperNevada]) :: [])
         nevadaStart = (Ok tt, s3)
       /\ foldM (@writeStateFeed quietRuntime keywordWatch) tt
         ([] ++ [(lit "nv", [lowerNevada])]) nevadaStart = (Ok tt, s1)
       /\ @feedOf quietRuntime keywordWatch (lit "nv") [lowerNevada] doc1
       /\ files s1 !! @statePath quietRuntime (lit "nv") = Some doc1
       /\ @feedOf quietRuntime keywordWatch (lit "NV") [upperNevada] doc2
       /\ files s3 !! @statePath quietRuntime (lit "nv") = Some doc2.
Proof.
  apply (@state_feed_overwritten quietRuntime keywordWatch [] [] []
           (lit "nv") (lit "NV") [lowerNevada] [upperNevada] nevadaStart).
  - discriminate.
  - vm_compute. reflexivity.
  - constructor.
  - repeat constructor.
Defined.

(** One file is left for the two labels, and it is the feed of NV. *)
Example nevada_one_file :
  size (files nevadaEnd) = 1%nat
  /\ match files nevadaEnd !! lit "/repo/docs/by-state/NV.xml" with
     | Some doc =>
         includes doc (lit "Keyword Watch (NV)</title>")
         && negb (includes doc (lit "Keyword Watch (nv)</title>"))
     | None => false
     end = true.
Proof. vm_compute. split; reflexivity. Qed.

(** ** The scenario of the specification *)

(** One query, solar per state, under the states NV and UT; the server
    answers each term with one JSON row. *)
Definition solarServer (req : request) : result response :=
  let row (pid st : string) :=
    mkResponse true (Some (lit "application/json"))
      (Ok (JArr [obj [("projectId", JStr (lit pid)); ("state", JStr (lit st))]%string]))
      (Ok []) in
  match req_body req with
  | Some (JObj ((_, JStr term) :: _)) =>
      if str_eqb term (lit "solar NV") then Ok (row "100" "NV")%string
      else if str_eqb term (lit "solar UT") then Ok (row "200" "UT")%string
      else Ok (mkResponse true (Some (lit "application/json")) (Ok (JArr []))
                 (Ok []))
  | _ => Throw NetworkError
  end.

Definition solarRuntime : Runtime := scriptedRuntime (fun _ => []) solarServer.

Definition solarRun : @M solarRuntime unit :=
  merged ← @Keyword.runMerge solarRuntime
             [mkQuery (lit "solar") true] [lit "NV"; lit "UT"];
  @writeFeeds solarRuntime keywordWatch merged.

(** How many times [sub] occurs in [s]. *)
Fixpoint occurrences (sub s : jsstring) : nat :=
  (if startsWith sub s then 1 else 0)
  + match s with
    | [] => 0
    | _ :: t => occurrences sub t
    end.

Definition entriesOf (path : string) (st : @State solarRuntime) : option nat :=
  occurrences (lit "<item>") <$> files st !! lit path.

(** The merged set has two records; the national feed has two entries and
    each of the two per-state feeds has one. *)
Example solar_scenario :
  let (r, st) := solarRun (@mkState solarRuntime 0%nat ∅) in
  r = Ok tt
  /\ size (files st) = 3%nat
  /\ entriesOf "/repo/docs/index.xml" st = Some 2%nat
  /\ entriesOf "/repo/docs/by-state/NV.xml" st = Some 1%nat
  /\ entriesOf "/repo/docs/by-state/UT.xml" st = Some 1%nat.
Proof. vm_compute. repeat split. Qed.

(** * Further properties of the code *)

(** ** Trimming *)

Lemma trimEnd_head c t :
  trimEnd (c :: t) = [] \/ exists t', trimEnd (c :: t) = c :: t'.
Proof.
  cbn [trimEnd]. destruct (trimEnd t) as [|c' t'].
  - destruct (isWhiteSpace c); eauto.
  - eauto.
Qed.

Lemma trimEnd_idem s : trimEnd (trimEnd s) = trimEnd s.
Proof.
  induction s as [|c t IH]; [reflexivity|].
  cbn [trimEnd]. destruct (trimEnd t) as [|c' t'] eqn:E.
  - destruct (isWhiteSpace c) eqn:Ec; [reflexivity|]. cbn. now rewrite Ec.
  - cbn [trimEnd]. cbn [trimEnd] in IH. now rewrite IH.
Qed.

Lemma trimStart_head s :
  trimStart s = [] \/ exists c t, trimStart s = c :: t /\ isWhiteSpace c = false.
Proof.
  induction s as [|c t IH]; [now left|].
  cbn [trimStart]. destruct (isWhiteSpace c) eqn:E; [exact IH|]. right. eauto.
Qed.

Lemma trimStart_fixed c t :
  isWhiteSpace c = false -> trimStart (c :: t) = c :: t.
Proof. intros H. cbn. now rewrite H. Qed.

(** A text is trimmed when it is empty or starts and ends with a code unit
    that is no white space. *)
Lemma trim_head s :
  trim s = [] \/ exists c t, trim s = c :: t /\ isWhiteSpace c = false.
Proof.
  unfold trim. destruct (trimStart_head s) as [->|(c & t & -> & Hc)];
    [now left|].
  destruct (trimEnd_head c t) as [->|(t' & ->)]; [now left|]. right. eauto.
Qed.

Lemma trim_idem s : trim (trim s) = trim s.
Proof.
  destruct (trim_head s) as [E|(c & t & E & Hc)]; rewrite E; [reflexivity|].
  unfold trim at 1. rewrite (trimStart_fixed c t Hc), <- E.
  unfold trim. apply trimEnd_idem.
Qed.

Lemma trim_skip c s : isWhiteSpace c = true -> trim (c :: s) = trim s.
Proof. intros H. unfold trim. cbn [trimStart]. now rewrite H. Qed.

(** ** Escaping *)

Lemma reservedClass_cases c :
  reservedClass c = true ->
  c = chr "<" \/ c = chr ">" \/ c = chr "&" \/ c = chr "'" \/ c = c_quot.
Proof.
  unfold reservedClass. intros H.
  repeat (apply orb_prop in H as [H|H]); apply N.eqb_eq in H; tauto.
Qed.

(** What [escapeXml] writes for one code unit. *)
Definition escapeUnit (c : char) : jsstring :=
  if reservedClass c then entityOf c else [c].

Lemma escapeXml_cons c s : escapeXml (c :: s) = escapeUnit c ++ escapeXml s.
Proof. reflexivity. Qed.

Lemma escapeUnit_prefix_free c d X Y :
  escapeUnit c ++ X = escapeUnit d ++ Y -> c = d /\ X = Y.
Proof.
  unfold escapeUnit.
  destruct (reservedClass c) eqn:Ec, (reservedClass d) eqn:Ed.
  - apply reservedClass_cases in Ec, Ed.
    destruct Ec as [->|[->|[->|[->| ->]]]], Ed as [->|[->|[->|[->| ->]]]];
      vm_compute; intros H; try discriminate; split; congruence.
  - apply reservedClass_cases in Ec.
    destruct Ec as [->|[->|[->|[->| ->]]]]; vm_compute; intros H;
      injection H as <- _; discriminate.
  - apply reservedClass_cases in Ed.
    destruct Ed as [->|[->|[->|[->| ->]]]]; vm_compute; intros H;
      injection H as -> _; discriminate.
  - cbn. intros H. now injection H as -> ->.
Qed.

Lemma escapeXml_inj (s t : jsstring) : escapeXml s = escapeXml t -> s = t.
Proof.
  revert t. induction s as [|c s IH]; intros t H.
  - destruct t as [|d t]; [reflexivity|]. exfalso.
    rewrite escapeXml_cons in H. cbn in H. unfold escapeUnit in H.
    destruct (reservedClass d) eqn:Ed; [|discriminate].
    apply reservedClass_cases in Ed.
    destruct Ed as [->|[->|[->|[->| ->]]]]; discriminate.
  - destruct t as [|d t].
    + exfalso. rewrite escapeXml_cons in H. cbn in H. unfold escapeUnit in H.
      destruct (reservedClass c) eqn:Ec; [|discriminate].
      apply reservedClass_cases in Ec.
      destruct Ec as [->|[->|[->|[->| ->]]]]; discriminate.
    + rewrite !escapeXml_cons in H.
      apply escapeUnit_prefix_free in H as [-> H]. f_equal. now apply IH.
Qed.

(** X1: [escapeXml] loses nothing: two different texts never have the same
    escaped form (the entities are a prefix-free code). *)
Theorem escapeXml_injective (s t : jsstring) :
  s <> t -> escapeXml s <> escapeXml t.
Proof. intros Hne H. now apply Hne, escapeXml_inj. Qed.

Lemma escapeXml_injective_witness :
  escapeXml (lit "&") <> escapeXml (lit "&amp;").
Proof.
  apply (escapeXml_injective (lit "&") (lit "&amp;")). discriminate.
Defined.

Lemma escapeUnit_safe c :
  Forall (fun x => x <> chr "<" /\ x <> chr ">" /\ x <> chr "'" /\ x <> c_quot)
    (escapeUnit c).
Proof.
  unfold escapeUnit. destruct (reservedClass c) eqn:E.
  - apply reservedClass_cases in E.
    destruct E as [->|[->|[->|[->| ->]]]]; vm_compute;
      repeat constructor; discriminate.
  - constructor; [|constructor]. unfold reservedClass in E.
    repeat (apply orb_false_elim in E as [E ?]).
    repeat match goal with H : (_ =? _) = false |- _ =>
      apply N.eqb_neq in H end. tauto.
Qed.

Lemma escapeXml_safe_chars s :
  Forall (fun x => x <> chr "<" /\ x <> chr ">" /\ x <> chr "'" /\ x <> c_quot)
    (escapeXml s).
Proof.
  induction s as [|c s IH]; [constructor|].
  rewrite escapeXml_cons. apply Forall_app. split; [apply escapeUnit_safe|exact IH].
Qed.

(** X2: the escaped form of a text holds no less-than sign, no greater-than
    sign, no apostrophe and no double quote, and escaping goes through
    concatenation. *)
Theorem escapeXml_output_safe (s t : jsstring) :
  Forall (fun x => x <> chr "<" /\ x <> chr ">" /\ x <> chr "'" /\ x <> c_quot)
    (escapeXml s)
  /\ escapeXml (s ++ t) = escapeXml s ++ escapeXml t.
Proof.
  split; [apply escapeXml_safe_chars|].
  unfold escapeXml, replaceClass. apply flat_map_app.
Qed.

Lemma escapeUnit_length c :
  (1 <= length (escapeUnit c))%nat
  /\ (reservedClass c = true -> 4 <= length (escapeUnit c))%nat.
Proof.
  unfold escapeUnit. destruct (reservedClass c) eqn:E.
  - apply reservedClass_cases in E.
    destruct E as [->|[->|[->|[->| ->]]]]; vm_compute; split; intros; lia.
  - split; [cbn; lia|discriminate].
Qed.

Lemma escapeXml_length s : (length s <= length (escapeXml s))%nat.
Proof.
  induction s as [|c s IH]; [reflexivity|].
  rewrite escapeXml_cons, length_app.
  destruct (escapeUnit_length c) as [H _]. cbn [length]. lia.
Qed.

Lemma escapeXml_fixed s :
  escapeXml s = s -> Forall (fun c => reservedClass c = false) s.
Proof.
  induction s as [|c s IH]; [constructor|].
  rewrite escapeXml_cons.
  destruct (reservedClass c) eqn:E.
  - intros H. exfalso. apply (f_equal (@length char)) in H.
    rewrite length_app in H. pose proof (escapeXml_length s).
    destruct (escapeUnit_length c) as [_ H4]. specialize (H4 E).
    cbn [length] in H. lia.
  - unfold escapeUnit. rewrite E. cbn [app]. intros [= H]. constructor; auto.
Qed.

Lemma escapeXml_plain s :
  Forall (fun c => reservedClass c = false) s -> escapeXml s = s.
Proof.
  induction 1 as [|c s Hc _ IH]; [reflexivity|].
  rewrite escapeXml_cons. unfold escapeUnit. now rewrite Hc, IH.
Qed.

Lemma reservedClass_chars c :
  reservedClass c = false <-> c ∉ reservedChars.
Proof.
  unfold reservedClass, reservedChars. split.
  - intros E Hin.
    repeat (apply orb_false_elim in E as [E ?]).
    repeat match goal with H : (_ =? _) = false |- _ =>
      apply N.eqb_neq in H end.
    set_solver.
  - intros Hnin. repeat (apply orb_false_intro);
      apply N.eqb_neq; intros ->; apply Hnin; set_solver.
Qed.

(** X3: escaping is not idempotent: escaping an escaped text again changes
    it, except when the text held none of the five reserved characters. *)
Theorem escapeXml_twice (s : jsstring) :
  escapeXml (escapeXml s) = escapeXml s
  <-> Forall (fun c => c ∉ reservedChars) s.
Proof.
  split.
  - intros H. apply escapeXml_inj, escapeXml_fixed in H.
    eapply Forall_impl; [exact H|]. intros c. apply reservedClass_chars.
  - intros H.
    assert (H' : Forall (fun c => reservedClass c = false) s).
    { eapply Forall_impl; [exact H|]. intros c. apply reservedClass_chars. }
    now rewrite !(escapeXml_plain s H').
Qed.

(** ** When the serializer succeeds *)

Definition isText (v : value) : bool :=
  match v with
  | Some (JStr _) => true
  | _ => false
  end.

(** A descriptive field the entry can render: falsy, or a string. *)
Definition fieldOk (v : value) : bool := negb (truthy v) || isText v.

(** A link the entry can render: undefined, or a string. *)
Definition linkOk (v : value) : bool :=
  match v with
  | None => true
  | Some (JStr _) => true
  | Some _ => false
  end.

Definition serializable (r : Rec) : bool :=
  linkOk (url r) && fieldOk (office r) && fieldOk (nepaType r)
  && fieldOk (nepaStatus r).

Lemma pushIf_ok label v parts :
  fieldOk v = true -> exists parts', pushIf label v parts = Ok parts'.
Proof.
  unfold fieldOk, pushIf. destruct (truthy v) eqn:E; [|eauto].
  cbn. destruct v as [[]|]; try discriminate. cbn. eauto.
Qed.

Lemma pushIf_throw label v parts :
  fieldOk v = false -> pushIf label v parts = Throw TypeError.
Proof.
  unfold fieldOk, pushIf. destruct (truthy v) eqn:E; [|discriminate].
  cbn. destruct v as [[]|]; try discriminate; reflexivity.
Qed.

Lemma pushIf_state label s parts :
  exists parts', pushIf label (JStr <$> s) parts = Ok parts'.
Proof. apply pushIf_ok. now destruct s as [[|]|]. Qed.

Lemma descParts_fields item :
  if fieldOk (office item) && fieldOk (nepaType item)
     && fieldOk (nepaStatus item)
  then exists parts, descParts item = Ok parts
  else descParts item = Throw TypeError.
Proof.
  unfold descParts.
  destruct (pushIf_state (lit "<b>State:</b> ") (state item) []) as [p0 ->].
  cbn [mbind result_bind].
  destruct (fieldOk (office item)) eqn:E1.
  - destruct (pushIf_ok (lit "<b>Office:</b> ") _ p0 E1) as [p1 ->].
    cbn [mbind result_bind andb].
    destruct (fieldOk (nepaType item)) eqn:E2.
    + destruct (pushIf_ok (lit "<b>Doc:</b> ") _ p1 E2) as [p2 ->].
      cbn [mbind result_bind andb].
      destruct (fieldOk (nepaStatus item)) eqn:E3.
      * now apply pushIf_ok.
      * now apply pushIf_throw.
    + now rewrite (pushIf_throw _ _ p1 E2).
  - now rewrite (pushIf_throw _ _ p0 E1).
Qed.

Lemma itemToRss_cases `{RT : Runtime} (item : Rec) (st : State) :
  if serializable item
  then exists doc st', itemToRss item st = (Ok doc, st')
  else itemToRss item st = (Throw TypeError, st).
Proof.
  unfold serializable, itemToRss, description.
  pose proof (descParts_fields item) as Hd.
  rewrite bind_liftR.
  destruct (fieldOk (office item) && fieldOk (nepaType item)
            && fieldOk (nepaStatus item)) eqn:E.
  - destruct Hd as [parts ->]. cbn [mbind result_bind].
    rewrite !bind_liftR.
    assert (Ea : linkOk (url item) && fieldOk (office item)
                 && fieldOk (nepaType item) && fieldOk (nepaStatus item)
                 = linkOk (url item)).
    { rewrite <- !andb_assoc. rewrite <- !andb_assoc in E.
      now rewrite E, andb_true_r. }
    rewrite Ea. destruct (url item) as [[]|]; cbn [linkOk escapeXmlV];
      try reflexivity;
      unfold nowRfc822; rewrite bind_call;
      destruct (toUTCString (env st)) as [d e]; eauto.
  - rewrite Hd. cbn [mbind result_bind].
    rewrite <- !andb_assoc. rewrite <- !andb_assoc in E.
    now rewrite E, andb_false_r.
Qed.

(** X4: [itemToRss] returns an entry exactly for the records whose [url] is
    a string or undefined and whose [office], [nepaType] and [nepaStatus]
    are each falsy or a string; for every other record it throws a
    TypeError before it reads the clock. *)
Theorem itemToRss_succeeds_iff `{RT : Runtime} (item : Rec) (st : State) :
  (serializable item = true <->
     exists doc st', itemToRss item st = (Ok doc, st'))
  /\ (serializable item = false <->
     itemToRss item st = (Throw TypeError, st)).
Proof.
  pose proof (itemToRss_cases item st) as H.
  destruct (serializable item); split; split; intros H'; auto;
    try discriminate.
  - destruct H as (doc & st' & H). rewrite H in H'. discriminate.
  - destruct H' as (doc & st' & H'). rewrite H in H'. discriminate.
Qed.

Lemma mapM'_itemToRss_cases `{RT : Runtime} (items : list Rec) : forall st,
  if forallb serializable items
  then exists docs st', mapM' itemToRss items st = (Ok docs, st')
  else exists st', mapM' itemToRss items st = (Throw TypeError, st')
                   /\ files st' = files st.
Proof.
  induction items as [|item items IH]; intros st; [cbn; eauto|].
  cbn [forallb mapM']. pose proof (itemToRss_cases item st) as Hi.
  pose proof (keepsFiles_itemToRss item st) as Hk.
  unfold mbind at 1 3, M_bind at 1 3.
  destruct (serializable item); cbn [andb].
  - destruct Hi as (doc & st1 & Hi). rewrite Hi in Hk |- *. cbn [snd] in Hk.
    specialize (IH st1). unfold mbind, M_bind.
    destruct (forallb serializable items).
    + destruct IH as (docs & st2 & ->). cbn. eauto.
    + destruct IH as (st2 & -> & Hf). exists st2. split; [reflexivity|].
      congruence.
  - rewrite Hi. eauto.
Qed.

Lemma writeRss_cases `{RT : Runtime}
    (filePath title link : jsstring) (items : list Rec) (st : State) :
  if forallb serializable items
  then exists doc st',
         writeRss filePath title link items st = (Ok tt, st')
         /\ files st' = <[filePath := doc]> (files st)
  else exists st',
         writeRss filePath title link items st = (Throw TypeError, st')
         /\ files st' = files st.
Proof.
  unfold writeRss, rssXml, nowRfc822.
  rewrite bind_assoc, bind_call.
  destruct (toUTCString (env st)) as [d e]. rewrite bind_assoc.
  pose proof (mapM'_itemToRss_cases items (mkState e (files st))) as H.
  unfold mbind at 1 3, M_bind at 1 3.
  destruct (forallb serializable items).
  - destruct H as (docs & st1 & H).
    pose proof (keepsFiles_mapM' itemToRss items keepsFiles_itemToRss
                  (mkState e (files st))) as Hk.
    rewrite H in Hk |- *. cbn [snd files] in Hk.
    unfold mbind, M_bind, mret, M_ret, writeFileSync. cbn [files env].
    eexists _, _. split; [reflexivity|]. cbn [files]. now rewrite Hk.
  - destruct H as (st1 & H & Hf). rewrite H. exists st1. split; [reflexivity|].
    exact Hf.
Qed.

(** X5: [writeRss] writes its file exactly when every record is
    serializable, and then changes no other file; otherwise it throws a
    TypeError and leaves every file as it was, so no partial document is
    ever written.  (The write itself is taken to succeed: errors of the
    file system are not modelled.) *)
Theorem writeRss_all_or_nothing `{RT : Runtime}
    (filePath title link : jsstring) (items : list Rec) (st : State) :
  if forallb serializable items
  then exists doc st',
         writeRss filePath title link items st = (Ok tt, st')
         /\ files st' = <[filePath := doc]> (files st)
  else exists st',
         writeRss filePath title link items st = (Throw TypeError, st')
         /\ files st' = files st.
Proof. apply writeRss_cases. Qed.

Lemma normalizeRow_url p r :
  normalizeRow p = Ok r ->
  forall v, getProp p "url" = Ok (Some v) -> v <> JNull -> url r = Some v.
Proof.
  unfold normalizeRow. intros H v Hu Hv.
  repeat bind_inv H. injection H as <-. cbn [url].
  rewrite Hu in *.
  repeat match goal with
  | E : Ok _ = Ok _ |- _ => injection E as E; subst
  | E : getProp p "url" = Ok _ |- _ => rewrite Hu in E
  end.
  destruct v; try congruence;
    match goal with E : (if nullish _ then _ else _) = Ok _ |- _ =>
      cbn in E; now injection E as <- end.
Qed.

(** X6: [normalizeRows] copies a row's [url] as it is, without converting
    it to a string; a record whose upstream url is a number, a boolean, an
    array or an object is therefore kept by the filter whenever it is truthy
    and has an id, and [itemToRss] throws a TypeError on it. *)
Theorem normalized_url_not_text `{RT : Runtime}
    (p : json) (r : Rec) (v : json) (st : State) :
  normalizeRow p = Ok r ->
  getProp p "url" = Ok (Some v) ->
  v <> JNull ->
  isText (Some v) = false ->
  url r = Some v
  /\ kept r = truthyStr (id r) && truthy (Some v)
  /\ itemToRss r st = (Throw TypeError, st).
Proof.
  intros Hn Hu Hv Ht. pose proof (normalizeRow_url p r Hn v Hu Hv) as E.
  split; [exact E|]. split; [unfold kept; now rewrite E|].
  pose proof (itemToRss_cases r st) as H. unfold serializable in H.
  rewrite E in H. destruct v; try discriminate; try congruence; exact H.
Qed.

Definition numericUrlRow : json :=
  obj [ ("id", JStr (lit "1")); ("url", JNum (lit "5")) ]%string.

Definition numericUrlRec : Rec :=
  Eval vm_compute in
    match normalizeRow numericUrlRow with
    | Ok r => r
    | Throw _ => mkRec [] [] None None None None None None
    end.

Lemma normalized_url_not_text_witness :
  url numericUrlRec = Some (JNum (lit "5"))
  /\ kept numericUrlRec
     = truthyStr (id numericUrlRec) && truthy (Some (JNum (lit "5")))
  /\ @itemToRss quietRuntime numericUrlRec nevadaStart
     = (Throw TypeError, nevadaStart).
Proof.
  apply (@normalized_url_not_text quietRuntime numericUrlRow numericUrlRec
           (JNum (lit "5")) nevadaStart).
  - vm_compute. reflexivity.
  - vm_compute. reflexivity.
  - discriminate.
  - reflexivity.
Defined.

Example numericUrl_kept :
  normalizeRows (JArr [numericUrlRow]) = Ok [numericUrlRec].
Proof. vm_compute. reflexivity. Qed.

Lemma linkShaped_fit r :
  linkShaped r -> kept r = true /\ serializable r = true /\ title r <> [].
Proof.
  intros (rel & text & Hid & _ & _ & Hu & _ & _ & Ht & _ & Ho & Hs & Hn).
  unfold kept, serializable. rewrite Hu, Ho, Hs, Hn.
  split; [|split; [reflexivity|]].
  - destruct (id r); [congruence|]. cbn [truthyStr andb truthy].
    eval_lits. reflexivity.
  - rewrite Ht. destruct (trim text) eqn:E; cbn [truthyStr]; [|discriminate].
    eval_lits. discriminate.
Qed.

(** X7: a record of the HTML link extractor always passes the filter of the
    normalizer, has a title that is not empty, and can be serialized: a feed
    of extracted links is always written. *)
Theorem extracted_links_serializable `{RT : Runtime}
    (html filePath feedTitle link : jsstring) (st : State) :
  Forall (fun r => kept r = true /\ serializable r = true /\ title r <> [])
    (extractLinks html)
  /\ exists doc st',
       writeRss filePath feedTitle link (extractLinks html) st = (Ok tt, st')
       /\ files st' = <[filePath := doc]> (files st).
Proof.
  assert (H : Forall (fun r => kept r = true /\ serializable r = true
                               /\ title r <> []) (extractLinks html)).
  { eapply Forall_impl;
      [apply (Extracts_linkShaped html), extractLinks_Extracts|].
    apply linkShaped_fit. }
  split; [exact H|].
  pose proof (writeRss_cases filePath feedTitle link (extractLinks html) st)
    as Hw.
  assert (Hall : forallb serializable (extractLinks html) = true).
  { clear Hw. induction H as [|r l (_ & Hr & _) _ IH]; [reflexivity|].
    cbn [forallb]. now rewrite Hr, IH. }
  now rewrite Hall in Hw.
Qed.

(** ** Adjacent code units *)

(** No code unit [x] of [s] is directly followed by [y]. *)
Fixpoint noPair (x y : char) (s : jsstring) : bool :=
  match s with
  | [] => true
  | a :: t =>
      match t with
      | [] => true
      | b :: _ => negb ((a =? x) && (b =? y)) && noPair x y t
      end
  end.

Definition headIs (c : char) (s : jsstring) : bool :=
  match s with
  | a :: _ => a =? c
  | [] => false
  end.

Fixpoint lastIs (c : char) (s : jsstring) : bool :=
  match s with
  | [] => false
  | [a] => a =? c
  | _ :: t => lastIs c t
  end.

Lemma noPair_app x y a b :
  noPair x y (a ++ b)
  = noPair x y a && negb (lastIs x a && headIs y b) && noPair x y b.
Proof.
  induction a as [|c a IH]; [reflexivity|].
  destruct a as [|c' a].
  - cbn [app noPair lastIs]. destruct b as [|d b]; cbn [headIs noPair].
    + now rewrite andb_false_r.
    + reflexivity.
  - change ((c :: c' :: a) ++ b) with (c :: (c' :: a) ++ b).
    change (noPair x y (c :: (c' :: a) ++ b))
      with (negb ((c =? x) && (c' =? y)) && noPair x y ((c' :: a) ++ b)).
    rewrite IH.
    change (noPair x y (c :: c' :: a))
      with (negb ((c =? x) && (c' =? y)) && noPair x y (c' :: a)).
    change (lastIs x (c :: c' :: a)) with (lastIs x (c' :: a)).
    now rewrite !andb_assoc.
Qed.

Lemma noPair_without_first x y a :
  Forall (fun c => c <> x) a -> noPair x y a = true /\ lastIs x a = false.
Proof.
  induction 1 as [|c a Hc _ [IH1 IH2]]; [now split|].
  destruct a as [|c' a].
  - split; [reflexivity|]. cbn. now apply N.eqb_neq.
  - split.
    + change (noPair x y (c :: c' :: a))
        with (negb ((c =? x) && (c' =? y)) && noPair x y (c' :: a)).
      rewrite IH1. apply N.eqb_neq in Hc. now rewrite Hc.
    + exact IH2.
Qed.

Lemma noPair_without_second x y a :
  Forall (fun c => c <> y) a -> noPair x y a = true /\ headIs y a = false.
Proof.
  induction 1 as [|c a Hc Ha [IH1 IH2]]; [now split|].
  split; [|cbn; now apply N.eqb_neq].
  destruct a as [|c' a]; [reflexivity|].
  change (noPair x y (c :: c' :: a))
    with (negb ((c =? x) && (c' =? y)) && noPair x y (c' :: a)).
  rewrite IH1. cbn in IH2. now rewrite IH2, andb_false_r.
Qed.

Lemma noPair_includes z x y s :
  noPair x y s = true -> includes s [z; x; y] = false.
Proof.
  induction s as [|a s IH]; [reflexivity|]. intros H.
  cbn [includes]. rewrite IH.
  - rewrite orb_false_r. cbn [startsWith].
    destruct s as [|b [|c s]]; try (now rewrite ?andb_false_r).
    change (noPair x y (a :: b :: c :: s))
      with (negb ((a =? x) && (b =? y)) && noPair x y (b :: c :: s)) in H.
    apply andb_prop in H as [_ H].
    change (noPair x y (b :: c :: s))
      with (negb ((b =? x) && (c =? y)) && noPair x y (c :: s)) in H.
    apply andb_prop in H as [H _]. apply negb_true_iff in H.
    rewrite andb_true_r.
    destruct (N.eqb_spec z a); [|reflexivity]. cbn [andb].
    rewrite (N.eqb_sym x b), (N.eqb_sym y c). exact H.
  - destruct s as [|b s]; [reflexivity|].
    change (noPair x y (a :: b :: s))
      with (negb ((a =? x) && (b =? y)) && noPair x y (b :: s)) in H.
    now apply andb_prop in H as [_ H].
Qed.

(** ** The description, read as markup *)

Definition metadataLabels : list jsstring :=
  [ lit "<b>State:</b> "; lit "<b>Office:</b> "; lit "<b>Doc:</b> ";
    lit "<b>Status:</b> " ].

(** A line of the description: a label and an escaped text. *)
Definition isLine (l : jsstring) : Prop :=
  exists label s, In label metadataLabels /\ l = label ++ escapeXml s.

Lemma pushIf_lines label v parts parts' :
  In label metadataLabels -> Forall isLine parts ->
  pushIf label v parts = Ok parts' -> Forall isLine parts'.
Proof.
  intros Hl Hp. unfold pushIf.
  destruct (truthy v) eqn:E; [|now intros [= <-]].
  destruct v as [[]|]; cbn in E |- *; try discriminate.
  intros [= <-]. apply Forall_app. split; [exact Hp|].
  constructor; [|constructor]. now exists label, s.
Qed.

Lemma descParts_lines item parts :
  descParts item = Ok parts -> Forall isLine parts.
Proof.
  unfold descParts. intros H. repeat bind_inv H.
  unfold metadataLabels in *.
  eapply pushIf_lines in Ha; [| cbn; tauto | constructor].
  eapply pushIf_lines in Ha0; [| cbn; tauto | exact Ha].
  eapply pushIf_lines in Ha1; [| cbn; tauto | exact Ha0].
  eapply pushIf_lines in H; [exact H | cbn; tauto | exact Ha1].
Qed.

Section Markup.
(** A pair of code units that no literal of the description holds and that
    an escaped text cannot complete. *)
Variables x y : char.
Hypothesis labels_ok :
  forall label, In label metadataLabels ->
    noPair x y label = true /\ lastIs x label = false.
Hypothesis break_ok :
  noPair x y (lit "<br/>") = true /\ lastIs x (lit "<br/>") = false.
Hypothesis escaped_ok : forall s, noPair x y (escapeXml s) = true.
Hypothesis escaped_end : forall s R,
  headIs (chr "<") R = true -> lastIs x (escapeXml s) && headIs y R = false.

Lemma line_noPair l R :
  isLine l -> headIs (chr "<") R = true -> noPair x y R = true ->
  noPair x y (l ++ R) = true.
Proof.
  intros (label & s & Hl & ->) HR HnR.
  destruct (labels_ok label Hl) as [H1 H2].
  rewrite <- app_assoc, !noPair_app, H1, H2, escaped_ok, HnR.
  now rewrite (escaped_end s R HR).
Qed.

Lemma join_noPair lines : forall R,
  Forall isLine lines -> headIs (chr "<") R = true -> noPair x y R = true ->
  noPair x y (join (lit "<br/>") lines ++ R) = true.
Proof.
  induction lines as [|l ls IH]; intros R Hl HR HnR; [exact HnR|].
  inversion Hl as [|? ? Hline Hls]; subst.
  destruct ls as [|l2 ls].
  - cbn [join]. now apply line_noPair.
  - change (join (lit "<br/>") (l :: l2 :: ls))
      with (l ++ lit "<br/>" ++ join (lit "<br/>") (l2 :: ls)).
    rewrite <- !app_assoc. apply line_noPair; [exact Hline|reflexivity|].
    destruct break_ok as [B1 B2].
    rewrite noPair_app, B1, B2. cbn [andb negb]. now apply IH.
Qed.

Lemma description_noPair item d :
  noPair x y (lit "<p>") = true -> lastIs x (lit "<p>") = false ->
  noPair x y (lit "</p>") = true ->
  description item = Ok d -> noPair x y d = true.
Proof.
  intros P1 P2 P3. unfold description. intros H. bind_inv H.
  apply descParts_lines in Ha.
  destruct a as [|l ls]; [now injection H as <-|].
  assert (E : d = lit "<p>" ++ join (lit "<br/>") (l :: ls) ++ lit "</p>")
    by congruence.
  rewrite E, noPair_app, P1, P2. cbn [andb negb].
  now apply join_noPair.
Qed.

End Markup.

Lemma escapeXml_no_gt s : Forall (fun c => c <> chr ">") (escapeXml s).
Proof.
  eapply Forall_impl; [apply (escapeXml_safe_chars s)|].
  now intros c (_ & H & _).
Qed.

Lemma cdata_labels label :
  In label (lit "<br/>" :: lit "<p>" :: lit "</p>" :: metadataLabels) ->
  noPair (chr "]") (chr ">") label = true /\ lastIs (chr "]") label = false.
Proof.
  cbn [In metadataLabels]. intros H.
  repeat (destruct H as [<-|H]; [now vm_compute|]). contradiction.
Qed.

Lemma description_no_bracket_gt item d :
  description item = Ok d -> noPair (chr "]") (chr ">") d = true.
Proof.
  apply description_noPair.
  - intros label Hl. apply cdata_labels. cbn [In]. tauto.
  - apply cdata_labels. cbn [In]. tauto.
  - intros s. apply noPair_without_second, escapeXml_no_gt.
  - intros s R HR. destruct R as [|c R]; [discriminate|].
    cbn [headIs] in *. apply N.eqb_eq in HR as ->.
    now rewrite andb_false_r.
  - now vm_compute.
  - now vm_compute.
  - now vm_compute.
Qed.

(** X8: the description [itemToRss] puts into the CDATA section never holds
    the three code units that end such a section, whatever the fields of the
    record hold: every greater-than sign of a field is escaped, and the
    markup of the description has no closing bracket. *)
Theorem description_keeps_cdata_open (item : Rec) (d : jsstring) :
  description item = Ok d -> includes d (lit "]]>") = false.
Proof.
  intros H. apply description_no_bracket_gt in H.
  change (lit "]]>") with [chr "]"; chr "]"; chr ">"].
  now apply noPair_includes.
Qed.

(** A record whose office tries to close the section. *)
Definition closingOffice : Rec :=
  mkRec (lit "7") (lit "Seven") (Some (JStr (projectUrl (lit "7"))))
        None (Some (JStr (lit "]]><evil/>"))) None None None.

Lemma description_keeps_cdata_open_witness :
  includes (lit "<p><b>Office:</b> ]]&gt;&lt;evil/&gt;</p>") (lit "]]>") = false.
Proof.
  apply (description_keeps_cdata_open closingOffice). vm_compute. reflexivity.
Defined.

(** ** What the normalizer throws, and when it cannot *)

(** A computation whose only exception is a TypeError. *)
Definition onlyTypeError {A : Type} (m : result A) : Prop :=
  forall e, m = Throw e -> e = TypeError.

Lemma onlyTypeError_Ok {A : Type} (a : A) : onlyTypeError (Ok a).
Proof. intros e. discriminate. Qed.

Lemma onlyTypeError_bind {A B : Type} (m : result A) (f : A -> result B) :
  onlyTypeError m -> (forall a, onlyTypeError (f a)) ->
  onlyTypeError (a ← m; f a).
Proof.
  intros Hm Hf e. destruct m as [a|e']; cbn; [apply Hf|].
  intros [= <-]. now apply Hm.
Qed.

Lemma onlyTypeError_getProp v k : onlyTypeError (getProp v k).
Proof. intros e. destruct v; cbn; congruence. Qed.

(** The conversion of an array, one element at a time. *)
Lemma toStr_arr items :
  toStr (JArr items)
  = match items with
    | [] => Ok []
    | x :: rest =>
        a ← match x with JNull => Ok [] | _ => toStr x end;
        match rest with
        | [] => Ok a
        | _ :: _ => b ← toStr (JArr rest); Ok (a ++ lit "," ++ b)
        end
    end.
Proof. now destruct items. Qed.

Lemma onlyTypeError_toStr : forall v, onlyTypeError (toStr v).
Proof.
  fix IH 1. intros [| b | r | s | items | fields].
  1-4: apply onlyTypeError_Ok.
  - induction items as [|x rest IHr]; [apply onlyTypeError_Ok|].
    rewrite toStr_arr. apply onlyTypeError_bind.
    + pose proof (IH x) as Hx.
      destruct x; first [apply onlyTypeError_Ok | exact Hx].
    + intros a. destruct rest; [apply onlyTypeError_Ok|].
      apply onlyTypeError_bind; [exact IHr|]. intros b.
      apply onlyTypeError_Ok.
  - intros e. cbn. destruct (lookupKey _ fields); congruence.
Qed.

Lemma onlyTypeError_firstPresent p keys : onlyTypeError (firstPresent p keys).
Proof.
  induction keys as [|k keys IH]; [apply onlyTypeError_Ok|].
  cbn [firstPresent]. apply onlyTypeError_bind; [apply onlyTypeError_getProp|].
  intros v. destruct (nullish v); [exact IH|apply onlyTypeError_Ok].
Qed.

Lemma onlyTypeError_joinValues sep l : onlyTypeError (joinValues sep l).
Proof.
  induction l as [|x rest IH]; [apply onlyTypeError_Ok|].
  cbn [joinValues]. apply onlyTypeError_bind.
  - destruct x as [[]|];
      first [apply onlyTypeError_Ok | apply onlyTypeError_toStr].
  - intros a. destruct rest; [apply onlyTypeError_Ok|].
    apply onlyTypeError_bind; [exact IH|]. intros b. apply onlyTypeError_Ok.
Qed.

Ltac only_type_error :=
  repeat first
    [ apply onlyTypeError_Ok
    | apply onlyTypeError_getProp
    | apply onlyTypeError_toStr
    | apply onlyTypeError_firstPresent
    | apply onlyTypeError_joinValues
    | apply onlyTypeError_bind; [|intros ?]
    | match goal with
      | |- onlyTypeError (if ?b then _ else _) => destruct b
      | |- onlyTypeError (match ?v with Some _ => _ | None => _ end) =>
          destruct v
      end ].

Lemma onlyTypeError_normalizeRow p : onlyTypeError (normalizeRow p).
Proof. unfold normalizeRow. only_type_error. Qed.

Lemma onlyTypeError_mapR {A B : Type} (f : A -> result B) l :
  (forall x, onlyTypeError (f x)) -> onlyTypeError (mapR f l).
Proof.
  intros Hf. induction l as [|x l IH]; [apply onlyTypeError_Ok|].
  cbn [mapR]. apply onlyTypeError_bind; [apply Hf|]. intros y.
  apply onlyTypeError_bind; [exact IH|]. intros ys. apply onlyTypeError_Ok.
Qed.

Lemma onlyTypeError_locateRows data : onlyTypeError (locateRows data).
Proof.
  unfold locateRows. destruct data; try apply onlyTypeError_Ok;
    repeat first
      [ apply onlyTypeError_Ok
      | apply onlyTypeError_getProp
      | apply onlyTypeError_bind; [|intros ?]
      | match goal with
        | |- onlyTypeError (match asArray ?v with _ => _ end) =>
            destruct (asArray v)
        end ].
Qed.

Lemma mapR_null_row rows :
  In JNull rows -> mapR normalizeRow rows = Throw TypeError.
Proof.
  induction rows as [|p rows IH]; [contradiction|].
  intros [->|Hin]; [reflexivity|]. cbn [mapR].
  destruct (normalizeRow p) as [r|e] eqn:E.
  - cbn [mbind result_bind]. now rewrite (IH Hin).
  - cbn [mbind result_bind]. f_equal. now apply (onlyTypeError_normalizeRow p).
Qed.

(** X9: a null entry anywhere in the located row list makes [normalizeRows]
    throw a TypeError, so the rows before and after it are lost with it;
    and whatever the payload, [normalizeRows] throws nothing but a
    TypeError. *)
Theorem normalizeRows_null_row_throws (data : json) (rows : list json) :
  locateRows data = Ok rows -> In JNull rows ->
  normalizeRows data = Throw TypeError
  /\ forall payload e, normalizeRows payload = Throw e -> e = TypeError.
Proof.
  intros Hl Hin. split.
  - unfold normalizeRows. rewrite Hl. cbn [mbind result_bind].
    now rewrite (mapR_null_row rows Hin).
  - intros payload. unfold normalizeRows.
    apply onlyTypeError_bind; [apply onlyTypeError_locateRows|]. intros l.
    apply onlyTypeError_bind;
      [apply onlyTypeError_mapR, onlyTypeError_normalizeRow|].
    intros m. apply onlyTypeError_Ok.
Qed.

(** A page of two rows, the second of which is null. *)
Definition pageWithNull : json :=
  obj [ ("items", JArr [ obj [ ("id", JStr (lit "1")) ]; JNull ]) ]%string.

Lemma normalizeRows_null_row_throws_witness :
  normalizeRows pageWithNull = Throw TypeError
  /\ forall payload e, normalizeRows payload = Throw e -> e = TypeError.
Proof.
  apply (normalizeRows_null_row_throws pageWithNull
           [ obj [ ("id", JStr (lit "1")) ]%string; JNull ]).
  - vm_compute. reflexivity.
  - cbn. tauto.
Defined.

(** A value [String] converts without an exception: no object with an own
    property named toString, at any depth of its arrays. *)
Fixpoint printable (v : json) : bool :=
  match v with
  | JArr items => forallb printable items
  | JObj fields =>
      match lookupKey (lit "toString") fields with
      | Some _ => false
      | None => true
      end
  | _ => true
  end.

(** A row whose properties are all printable; [null] is no such row. *)
Definition printableRow (p : json) : bool :=
  match p with
  | JNull => false
  | JObj fields => forallb (fun kv => printable (snd kv)) fields
  | _ => true
  end.

Definition printableV (v : value) : Prop :=
  match v with
  | Some x => printable x = true
  | None => True
  end.

Lemma toStr_printable : forall v, printable v = true -> exists s, toStr v = Ok s.
Proof.
  fix IH 1. intros [| b | r | s | items | fields]; cbn [printable].
  1-4: cbn; eauto.
  - induction items as [|x rest IHr]; [cbn; eauto|].
    cbn [forallb]. intros [Hx Hr]%andb_prop. rewrite toStr_arr.
    assert (exists a, match x with JNull => Ok [] | _ => toStr x end = Ok a)
      as [a ->].
    { pose proof (IH x Hx) as Hs. destruct x; eauto. }
    cbn [mbind result_bind]. destruct rest as [|y rest]; [eauto|].
    destruct (IHr Hr) as [b ->]. cbn. eauto.
  - cbn [toStr]. destruct (lookupKey _ fields); [discriminate|eauto].
Qed.

Lemma lookupKey_printable fields k :
  forallb (fun kv => printable (snd kv)) fields = true ->
  printableV (lookupKey k fields).
Proof.
  induction fields as [|[k' v'] fields IH]; [now intros _|].
  cbn [forallb lookupKey snd]. intros [Hv Hf]%andb_prop.
  destruct (str_eqb k k'); [exact Hv|now apply IH].
Qed.

Lemma firstPresent_printable fields keys :
  forallb (fun kv => printable (snd kv)) fields = true ->
  exists v, firstPresent (JObj fields) keys = Ok v /\ printableV v.
Proof.
  intros Hf. induction keys as [|k keys IH]; [now exists None|].
  cbn [firstPresent getProp mbind result_bind].
  destruct (nullish (lookupKey (lit k) fields)); [exact IH|].
  eexists. split; [reflexivity|]. now apply lookupKey_printable.
Qed.

Lemma joinValues_printable sep l :
  Forall printableV l -> exists s, joinValues sep l = Ok s.
Proof.
  induction 1 as [|x rest Hx _ IH]; [cbn; eauto|]. cbn [joinValues].
  assert (exists a, match x with
                    | None => Ok []
                    | Some JNull => Ok []
                    | Some v => toStr v
                    end = Ok a) as [a ->].
  { destruct x as [v|]; [|eauto].
    destruct (toStr_printable v Hx) as [s Hs]. destruct v; eauto. }
  cbn [mbind result_bind]. destruct rest; [eauto|].
  destruct IH as [b ->]. cbn. eauto.
Qed.

Lemma toStrV_printable (v : value) (other : jsstring) :
  printableV v ->
  exists s, match v with Some x => toStr x | None => Ok other end = Ok s.
Proof. destruct v; [apply toStr_printable|eauto]. Qed.

Lemma normalizeRow_printable p :
  printableRow p = true -> exists r, normalizeRow p = Ok r.
Proof.
  destruct p as [| b | n | s | items | fields]; [discriminate|..];
    try (intros _; cbn; eauto; fail).
  cbn [printableRow]. intros Hf. unfold normalizeRow.
  destruct (firstPresent_printable fields idFields Hf) as (idv & -> & Hid).
  cbn [mbind result_bind].
  assert (exists ids, match idv with Some v => toStr v | None => Ok [] end
                      = Ok ids) as [ids ->]
    by exact (toStrV_printable idv [] Hid).
  cbn [mbind result_bind].
  destruct (firstPresent_printable fields
              ["projectName"; "title"; "name"]%string Hf) as (tv & -> & Htv).
  cbn [mbind result_bind].
  assert (exists ts, match tv with
                     | Some v => toStr v
                     | None => Ok (lit "BLM Project " ++ trim ids)
                     end = Ok ts) as [ts ->]
    by exact (toStrV_printable tv _ Htv).
  cbn [mbind result_bind getProp].
  assert (exists states,
            (if truthy (lookupKey (lit "state") fields)
             then Ok [lookupKey (lit "state") fields]
             else Ok (match asArray (lookupKey (lit "states") fields) with
                      | Some l => List.map Some l
                      | None => []
                      end)) = Ok states
            /\ Forall printableV states) as (states & Hs & Hp).
  { destruct (truthy (lookupKey (lit "state") fields)).
    - eexists. split; [reflexivity|]. constructor; [|constructor].
      now apply lookupKey_printable.
    - eexists. split; [reflexivity|].
      pose proof (lookupKey_printable fields (lit "states") Hf) as Hl.
      destruct (lookupKey (lit "states") fields) as [[]|]; cbn [asArray];
        try constructor.
      cbn [printableV printable] in Hl. apply List.Forall_forall.
      intros v [x [<- Hx]]%in_map_iff. cbn.
      now apply (proj1 (List.forallb_forall _ _) Hl). }
  cbn [mbind result_bind] in Hs |- *. rewrite Hs. cbn [mbind result_bind].
  assert (Hp' : Forall printableV (List.filter truthy states)).
  { apply List.Forall_forall. intros v [Hv _]%filter_In.
    now apply (proj1 (List.Forall_forall _ _) Hp). }
  destruct (joinValues_printable (lit ", ") _ Hp') as [joined ->].
  cbn [mbind result_bind].
  destruct (firstPresent_printable fields
              ["leadOfficeName"; "office"; "fieldOffice"]%string Hf)
    as (o & -> & _).
  destruct (firstPresent_printable fields
              ["nepaStatus"; "nepaStage"; "status"]%string Hf)
    as (ns & -> & _).
  destruct (firstPresent_printable fields ["nepaDocType"; "type"]%string Hf)
    as (nt & -> & _).
  cbn [mbind result_bind].
  destruct (nullish (lookupKey (lit "url") fields)); [|cbn; eauto].
  pose proof (lookupKey_printable fields (lit "projectId") Hf) as Hpid.
  destruct (truthy (lookupKey (lit "projectId") fields)).
  - assert (exists sx, match lookupKey (lit "projectId") fields with
                       | Some v => toStr v
                       | None => Ok []
                       end = Ok sx) as [sx ->]
      by exact (toStrV_printable _ [] Hpid).
    cbn. eauto.
  - destruct (truthyStr (trim ids)); cbn; eauto.
Qed.

Lemma mapR_total {A B : Type} (f : A -> result B) l :
  Forall (fun x => exists y, f x = Ok y) l -> exists l', mapR f l = Ok l'.
Proof.
  induction 1 as [|x l [y Hy] _ [l' IH]]; [cbn; eauto|].
  cbn [mapR]. rewrite Hy, IH. cbn. eauto.
Qed.

(** X10: [normalizeRows] returns, without an exception, for every payload
    whose located rows are not null and hold no object with an own property
    named toString among their values: numbers, booleans, texts, nested
    arrays and plain objects in any field are all accepted, and a row that
    is no object at all is accepted and dropped. *)
Theorem normalizeRows_returns (data : json) (rows : list json) :
  locateRows data = Ok rows ->
  Forall (fun p => printableRow p = true) rows ->
  exists recs, normalizeRows data = Ok recs
               /\ (length recs <= length rows)%nat.
Proof.
  intros Hl Hp. unfold normalizeRows. rewrite Hl. cbn [mbind result_bind].
  destruct (mapR_total normalizeRow rows) as [mapped Hm].
  { eapply Forall_impl; [exact Hp|]. apply normalizeRow_printable. }
  rewrite Hm. cbn [mbind result_bind]. eexists. split; [reflexivity|].
  apply mapR_Forall2, Forall2_length in Hm. rewrite Hm.
  apply List.filter_length_le.
Qed.

(** A page with a row of mixed values and a row that is a number. *)
Definition mixedPage : json :=
  obj [ ("content",
         JArr [ obj [ ("id", JNum (lit "7"));
                      ("name", JArr [JStr (lit "a"); JNull; JNum (lit "2")]);
                      ("states", JArr [JStr (lit "NV"); JBool true]);
                      ("office", obj [ ("code", JStr (lit "x")) ]) ];
                JNum (lit "3") ]) ]%string.

Definition mixedRows : list json :=
  Eval vm_compute in
    match locateRows mixedPage with Ok l => l | Throw _ => [] end.

Lemma normalizeRows_returns_witness :
  exists recs, normalizeRows mixedPage = Ok recs
               /\ (length recs <= 2)%nat.
Proof.
  apply (normalizeRows_returns mixedPage mixedRows).
  - vm_compute. reflexivity.
  - repeat constructor.
Defined.

Example mixedPage_records :
  match normalizeRows mixedPage with
  | Ok [r] =>
      str_eqb (id r) (lit "7") && str_eqb (title r) (lit "a,,2")
      && bool_decide (state r = Some (lit "NV, true"))
  | _ => false
  end = true.
Proof. vm_compute. reflexivity. Qed.

(** ** The shape of a normalized record *)

Lemma firstPresent_not_null p keys v :
  firstPresent p keys = Ok v -> v <> Some JNull.
Proof.
  induction keys as [|k keys IH]; cbn [firstPresent]; [now intros [= <-]|].
  intros H. bind_inv H. destruct (nullish a) eqn:E; [now apply IH|].
  injection H as <-. intros ->. discriminate.
Qed.

(** X11: in every record [normalizeRows] builds from a row, [id] and [title]
    have no white space at either end, [state] is undefined rather than
    empty, an upstream null in [office], [nepaStatus], [nepaType] or [url]
    has become undefined, and [raw] is the row itself.  A row without [url]
    gets the project page of its [projectId] as that property prints, not
    trimmed and whatever the [id] is, else the page of its [id], else no
    url at all. *)
Theorem normalizeRow_record (p : json) (r : Rec) :
  normalizeRow p = Ok r ->
  trim (id r) = id r /\ trim (title r) = title r
  /\ state r <> Some []
  /\ office r <> Some JNull /\ nepaStatus r <> Some JNull
  /\ nepaType r <> Some JNull /\ url r <> Some JNull
  /\ raw r = Some p
  /\ (forall u, getProp p "url" = Ok u -> nullish u = true ->
      (exists v s, getProp p "projectId" = Ok (Some v)
                   /\ truthy (Some v) = true /\ toStr v = Ok s
                   /\ url r = Some (JStr (projectUrl s)))
      \/ (exists pid, getProp p "projectId" = Ok pid /\ truthy pid = false
                      /\ id r <> []
                      /\ url r = Some (JStr (projectUrl (id r))))
      \/ (exists pid, getProp p "projectId" = Ok pid /\ truthy pid = false
                      /\ id r = [] /\ url r = None)).
Proof.
  unfold normalizeRow. intros H.
  apply bind_Ok in H as (idv & Hidv & H).
  apply bind_Ok in H as (ids & Hids & H).
  apply bind_Ok in H as (tv & Htv & H).
  apply bind_Ok in H as (ts & Hts & H).
  apply bind_Ok in H as (st & Hst & H).
  apply bind_Ok in H as (states & Hstates & H).
  apply bind_Ok in H as (joined & Hjoined & H).
  apply bind_Ok in H as (o & Ho & H).
  apply bind_Ok in H as (ns & Hns & H).
  apply bind_Ok in H as (nt & Hnt & H).
  apply bind_Ok in H as (u & Hu & H).
  apply bind_Ok in H as (link & Hlink & H).
  injection H as <-. cbn [id title state office nepaStatus nepaType url raw].
  split; [apply trim_idem|]. split; [apply trim_idem|].
  split; [now destruct joined|].
  split; [exact (firstPresent_not_null _ _ _ Ho)|].
  split; [exact (firstPresent_not_null _ _ _ Hns)|].
  split; [exact (firstPresent_not_null _ _ _ Hnt)|].
  split.
  { destruct (nullish u) eqn:En.
    - bind_inv Hlink. destruct (truthy a).
      + bind_inv Hlink. now injection Hlink as <-.
      + destruct (truthyStr (trim ids)); now injection Hlink as <-.
    - injection Hlink as <-. intros ->. discriminate. }
  split; [reflexivity|].
  intros u' Hu' Hn. rewrite Hu in Hu'. injection Hu' as <-. rewrite Hn in Hlink.
  apply bind_Ok in Hlink as (pid & Hpid & Hlink).
  destruct (truthy pid) eqn:Ep.
  - left. apply bind_Ok in Hlink as (s & Hs & Hlink). injection Hlink as <-.
    destruct pid as [v|]; [|discriminate]. now exists v, s.
  - right. destruct (trim ids) as [|c i] eqn:Ei; cbn [truthyStr] in Hlink;
      injection Hlink as <-.
    + right. now exists pid.
    + left. now exists pid.
Qed.

(** A row whose id has spaces around it, with another project number and a
    null office. *)
Definition paddedRow : json :=
  obj [ ("id", JStr (lit " A-1 ")); ("projectId", JNum (lit "5"));
        ("office", JNull) ]%string.

Definition paddedRec : Rec :=
  Eval vm_compute in
    match normalizeRow paddedRow with
    | Ok r => r
    | Throw _ => mkRec [] [] None None None None None None
    end.

Lemma normalizeRow_record_witness :
  id paddedRec = lit "A-1" /\ trim (id paddedRec) = id paddedRec
  /\ office paddedRec <> Some JNull
  /\ url paddedRec = Some (JStr (projectUrl (lit "5"))).
Proof.
  assert (H : normalizeRow paddedRow = Ok paddedRec)
    by (vm_compute; reflexivity).
  destruct (normalizeRow_record paddedRow paddedRec H)
    as (Hid & _ & _ & Ho & _).
  split; [reflexivity|]. split; [exact Hid|]. split; [exact Ho|].
  vm_compute. reflexivity.
Defined.

(** ** From the states of a row to the labels of the partition *)

Lemma split_piece (c : char) t s :
  Forall (fun x => x <> c) t -> split c (t ++ c :: s) = t :: split c s.
Proof.
  induction 1 as [|x t Hx _ IH]; cbn [app split].
  - now rewrite N.eqb_refl.
  - apply N.eqb_neq in Hx. now rewrite Hx, IH.
Qed.

Lemma split_whole (c : char) t :
  Forall (fun x => x <> c) t -> split c t = [t].
Proof.
  induction 1 as [|x t Hx _ IH]; [reflexivity|]. cbn [split].
  apply N.eqb_neq in Hx. now rewrite Hx, IH.
Qed.

(** A label that survives the round trip: not empty, without a comma, and
    without white space at either end. *)
Definition cleanLabel (t : jsstring) : Prop :=
  t <> [] /\ trim t = t /\ Forall (fun x => x <> chr ",") t.

Lemma split_join_labels pre tokens :
  Forall (fun x => x <> chr ",") pre -> tokens <> [] ->
  Forall cleanLabel tokens ->
  split (chr ",") (pre ++ join (lit ", ") tokens)
  = match tokens with
    | [] => []
    | t :: rest => (pre ++ t) :: List.map (fun t => lit " " ++ t) rest
    end.
Proof.
  intros Hpre Hne H. revert pre Hpre.
  induction H as [|t rest (_ & _ & Ht) Hrest IH]; [contradiction|].
  intros pre Hpre. destruct rest as [|t2 rest].
  - cbn [join List.map]. apply split_whole. now apply Forall_app.
  - change (join (lit ", ") (t :: t2 :: rest))
      with (t ++ chr "," :: lit " " ++ join (lit ", ") (t2 :: rest)).
    rewrite app_assoc, split_piece by now apply Forall_app.
    rewrite IH; [reflexivity|discriminate|].
    repeat constructor. discriminate.
Qed.

Lemma trim_labels tokens :
  Forall cleanLabel tokens ->
  List.filter truthyStr
    (List.map trim (List.map (fun t => lit " " ++ t) tokens)) = tokens.
Proof.
  induction 1 as [|t rest (Hne & Ht & _) _ IH]; [reflexivity|].
  cbn [List.map List.filter].
  change (lit " " ++ t) with (chr " " :: t).
  rewrite trim_skip by reflexivity. rewrite Ht, IH.
  now destruct t.
Qed.

Lemma joinValues_texts sep tokens :
  Forall (fun t => t <> []) tokens ->
  joinValues sep (List.filter truthy (List.map Some (List.map JStr tokens)))
  = Ok (join sep tokens).
Proof.
  intros H.
  assert (E : List.filter truthy (List.map Some (List.map JStr tokens))
              = List.map Some (List.map JStr tokens)).
  { induction H as [|t rest Ht _ IH]; [reflexivity|].
    cbn [List.map List.filter truthy]. rewrite IH. now destruct t. }
  rewrite E. clear E H.
  induction tokens as [|t rest IH]; [reflexivity|].
  cbn [List.map joinValues toStr mbind result_bind].
  destruct rest as [|t2 rest]; [reflexivity|].
  cbn [List.map] in IH |- *. rewrite IH. reflexivity.
Qed.

Lemma stateTokens_joined r tokens :
  tokens <> [] -> Forall cleanLabel tokens ->
  state r = Some (join (lit ", ") tokens) -> stateTokens r = tokens.
Proof.
  intros Hne H E. unfold stateTokens. rewrite E.
  pose proof (split_join_labels [] tokens (List.Forall_nil _) Hne H) as Hs.
  cbn [app] in Hs. cbn [stateTokens]. rewrite Hs. clear Hs.
  destruct tokens as [|t rest]; [contradiction|].
  inversion H as [|? ? (Ht0 & Ht & _) Hrest]; subst.
  cbn [app List.map List.filter]. rewrite Ht, (trim_labels rest Hrest).
  now destruct t.
Qed.

(** X12: the labels of a row's [states] array come back from the record as
    its state tokens, in order: [normalizeRows] joins them with a comma and
    a space, the partition splits at the commas and trims.  This holds for
    labels that are not empty, have no comma and no white space at either
    end, when the row has no truthy [state] of its own. *)
Theorem states_round_trip (p : json) (r : Rec) (st : value)
    (tokens : list jsstring) :
  normalizeRow p = Ok r ->
  getProp p "state" = Ok st -> truthy st = false ->
  getProp p "states" = Ok (Some (JArr (List.map JStr tokens))) ->
  Forall cleanLabel tokens ->
  state r = (if bool_decide (tokens = []) then None
             else Some (join (lit ", ") tokens))
  /\ stateTokens r = tokens.
Proof.
  intros H Hst Hf Hsts Hclean.
  assert (E : state r = if bool_decide (tokens = []) then None
                        else Some (join (lit ", ") tokens)).
  { unfold normalizeRow in H.
    apply bind_Ok in H as (idv & Hidv & H).
    apply bind_Ok in H as (ids & Hids & H).
    apply bind_Ok in H as (tv & Htv & H).
    apply bind_Ok in H as (ts & Hts & H).
    apply bind_Ok in H as (st' & Hst' & H).
    apply bind_Ok in H as (states & Hstates & H).
    apply bind_Ok in H as (joined & Hjoined & H).
    repeat bind_inv H. injection H as <-. cbn [state].
    rewrite Hst in Hst'. injection Hst' as <-. rewrite Hf, Hsts in Hstates.
    cbn [mbind result_bind asArray] in Hstates. injection Hstates as <-.
    rewrite joinValues_texts in Hjoined.
    2:{ eapply Forall_impl; [exact Hclean|]. now intros t (Ht & _). }
    injection Hjoined as <-.
    destruct tokens as [|t rest]; [reflexivity|].
    rewrite bool_decide_eq_false_2 by discriminate.
    inversion Hclean as [|? ? (Ht & _) _]; subst.
    destruct t; [contradiction|]. now destruct rest. }
  split; [exact E|].
  destruct tokens as [|t rest].
  - rewrite bool_decide_eq_true_2 in E by reflexivity.
    unfold stateTokens. now rewrite E.
  - rewrite bool_decide_eq_false_2 in E by discriminate.
    now apply stateTokens_joined.
Qed.

(** A row of two states. *)
Definition twoStatesRow : json :=
  obj [ ("id", JStr (lit "9"));
        ("states", JArr (List.map JStr [lit "NV"; lit "New Mexico"])) ]%string.

Definition twoStatesRec : Rec :=
  Eval vm_compute in
    match normalizeRow twoStatesRow with
    | Ok r => r
    | Throw _ => mkRec [] [] None None None None None None
    end.

Lemma states_round_trip_witness :
  state twoStatesRec = Some (lit "NV, New Mexico")
  /\ stateTokens twoStatesRec = [lit "NV"; lit "New Mexico"].
Proof.
  apply (states_round_trip twoStatesRow twoStatesRec None
           [lit "NV"; lit "New Mexico"]).
  - vm_compute. reflexivity.
  - vm_compute. reflexivity.
  - reflexivity.
  - vm_compute. reflexivity.
  - repeat constructor; try discriminate; vm_compute;
      repeat constructor; discriminate.
Defined.

(** ** The rows of the browser build *)

(** The pattern of the scrape stands in [u] after [pre]: /project/, the
    digits [d], of which there is at least one, and /510. *)
Definition projectAt (u pre d post : jsstring) : Prop :=
  u = pre ++ lit "/project/" ++ d ++ lit "/510" ++ post
  /\ d <> [] /\ forallb isDigit d = true.

Lemma matchProject_iff s d :
  Browser.matchProject s = Some d <-> exists post, projectAt s [] d post.
Proof.
  unfold Browser.matchProject, projectAt. split.
  - destruct (startsWith (lit "/project/") s) eqn:E; [|discriminate].
    apply startsWith_iff in E as [r ->].
    change (drop 9 (lit "/project/" ++ r)) with r.
    destruct (span isDigit r) as [digits rest] eqn:Hs.
    apply span_sound in Hs as (-> & Hd & _).
    destruct digits as [|c ds]; [discriminate|].
    destruct (startsWith (lit "/510") rest) eqn:E2; [|discriminate].
    apply startsWith_iff in E2 as [post ->]. intros [= <-].
    exists post. now repeat split.
  - intros (post & -> & Hne & Hd). cbn [app].
    rewrite (proj2 (startsWith_iff _ _)) by now eexists.
    change (drop 9 (lit "/project/" ++ d ++ lit "/510" ++ post))
      with (d ++ lit "/510" ++ post).
    rewrite (span_complete isDigit d (lit "/510" ++ post) Hd)
      by reflexivity.
    destruct d; [contradiction|].
    now rewrite (proj2 (startsWith_iff _ _)) by now eexists.
Qed.

Lemma findProject_None s :
  Browser.findProject s = None -> forall pre d post, ~ projectAt s pre d post.
Proof.
  induction s as [|c s IH]; cbn [Browser.findProject];
    destruct (Browser.matchProject _) eqn:E; try discriminate;
    intros H pre d post Hp.
  - destruct pre; destruct Hp as [Hp _]; discriminate.
  - destruct pre as [|c' pre].
    + assert (Browser.matchProject (c :: s) = Some d)
        by (apply matchProject_iff; now exists post).
      congruence.
    + destruct Hp as ([= -> ->] & Hne & Hd).
      now apply (IH H pre d post).
Qed.

Lemma findProject_Some s d :
  Browser.findProject s = Some d ->
  exists pre post, projectAt s pre d post
    /\ forall pre' d' post', projectAt s pre' d' post' ->
         (length pre <= length pre')%nat.
Proof.
  induction s as [|c s IH]; cbn [Browser.findProject];
    destruct (Browser.matchProject _) eqn:E; try discriminate.
  - intros [= <-]. apply matchProject_iff in E as [post Hp].
    exists [], post. split; [exact Hp|]. intros. cbn. lia.
  - intros H. destruct (IH H) as (pre & post & (-> & Hne & Hd) & Hmin).
    exists (c :: pre), post. split; [now repeat split|].
    intros pre' d' post' Hp'. destruct pre' as [|c' pre'].
    + assert (Browser.matchProject
                (c :: pre ++ lit "/project/" ++ d ++ lit "/510" ++ post)
              = Some d')
        by (apply matchProject_iff; now exists post').
      congruence.
    + destruct Hp' as ([= -> E'] & Hne' & Hd'). cbn [length].
      apply le_n_S, (Hmin pre' d' post'). now repeat split.
Qed.

(** X13: the browser build makes a row of an anchor exactly when its url
    holds /project/, one or more digits and /510 somewhere; the [id] of the
    row is the digits of the leftmost such place, its [url] is the url of
    the anchor as it is, and its [title] is the text of the anchor, or
    BLM Project and the id when that text is empty.  An anchor without such
    a place gives no row. *)
Theorem toRow_project (u t : jsstring) :
  match Browser.toRow (u, t) with
  | Some r =>
      Browser.url r = u
      /\ Browser.title r
         = (if truthyStr t then t else lit "BLM Project " ++ Browser.id r)
      /\ Browser.title r <> []
      /\ exists pre post, projectAt u pre (Browser.id r) post
           /\ forall pre' d' post', projectAt u pre' d' post' ->
                (length pre <= length pre')%nat
  | None => forall pre d post, ~ projectAt u pre d post
  end.
Proof.
  unfold Browser.toRow. destruct (Browser.findProject u) as [d|] eqn:E.
  - cbn [Browser.url Browser.title Browser.id].
    split; [reflexivity|]. split; [reflexivity|].
    split; [|now apply findProject_Some].
    destruct t; cbn [truthyStr]; [|discriminate]. eval_lits. discriminate.
  - now apply findProject_None.
Qed.

Example toRow_leftmost :
  Browser.toRow
    (lit "https://h/project/x/510/project/12/510/project/3/510", [])
  = Some (Browser.mkRow (lit "12") (lit "BLM Project 12")
            (lit "https://h/project/x/510/project/12/510/project/3/510")).
Proof. vm_compute. reflexivity. Qed.

(** ** The builds *)

(** The object the browser build pushes to [merged], as [itemToRss] reads
    it: the properties the scrape does not set are undefined. *)
Definition rowRec (r : Browser.Row) : Rec :=
  mkRec (Browser.id r) (Browser.title r) (Some (JStr (Browser.url r)))
        None None None None None.

(** The title of the national feed of the advanced-search build. *)
Definition landsNational : jsstring :=
  lit "The Overlook " ++ [8212] ++ lit " BLM Lands & Realty Watch (National)".

Section Builds.
Context `{RT : Runtime}.

(** [run] of the keyword build from the parsed configuration to the last
    feed, lines 283 to 342. *)
Definition keywordBuild (queries : list Query) (states : list jsstring)
  : M unit :=
  merged ← Keyword.runMerge queries states;
  writeFeeds keywordWatch merged.

(** [run] of the browser build, lines 92 to 125; opening and closing the
    browser belong to [renderAnchors]. *)
Definition browserBuild (queries : list Query) (states : list jsstring)
  : M unit :=
  merged ← Browser.runMerge queries states;
  _ ← ensureDir OUT_DIR;
  writeRss OUT_MAIN (keywordWatch ++ lit " (National)") homeLink
    (List.map rowRec merged).

(** [run] of the advanced-search build, lines 455 to 521. *)
Definition advancedBuild (searches : list AdvSearch.Search) : M unit :=
  merged ← AdvSearch.runMerge searches;
  _ ← ensureDir OUT_DIR;
  _ ← writeRss OUT_MAIN landsNational homeLink merged;
  writeStateFeeds landsWatch (partition merged).

(** *** Retrieval writes nothing *)

Lemma keepsFiles_ext {A : Type} (m m' : M A) :
  (forall st, m st = m' st) -> keepsFiles m' -> keepsFiles m.
Proof. intros E H st. rewrite E. apply H. Qed.

Lemma keepsFiles_fetchKeywordViaHtml term :
  keepsFiles (Keyword.fetchKeywordViaHtml term).
Proof.
  unfold Keyword.fetchKeywordViaHtml.
  repeat (apply keepsFiles_bind;
          [first [apply keepsFiles_liftR | apply keepsFiles_call]|intros ?]).
  apply keepsFiles_ret.
Qed.

Lemma keepsFiles_fetchKeyword term : keepsFiles (Keyword.fetchKeyword term).
Proof.
  unfold Keyword.fetchKeyword.
  apply keepsFiles_bind; [apply keepsFiles_call|]. intros res.
  destruct (Keyword.indicatesJson res);
    [|apply keepsFiles_fetchKeywordViaHtml].
  apply keepsFiles_bind; [apply keepsFiles_liftR|]. intros data.
  apply keepsFiles_liftR.
Qed.

Lemma keepsFiles_scrapeSearchTerm term :
  keepsFiles (Browser.scrapeSearchTerm term).
Proof.
  unfold Browser.scrapeSearchTerm.
  repeat (apply keepsFiles_bind;
          [first [apply keepsFiles_liftR | apply keepsFiles_call]|intros ?]).
  apply keepsFiles_ret.
Qed.

Lemma keepsFiles_searchRows s : keepsFiles (AdvSearch.searchRows s).
Proof.
  unfold AdvSearch.searchRows.
  destruct (AdvSearch.orElse _ _) as [adv|]; [|apply keepsFiles_ret].
  destruct (negb (truthy (Some adv))); [apply keepsFiles_ret|].
  apply keepsFiles_bind; [apply keepsFiles_call|]. intros res.
  destruct (negb (res_ok res)); [apply keepsFiles_ret|].
  apply keepsFiles_bind; [apply keepsFiles_liftR|]. intros data.
  apply keepsFiles_liftR.
Qed.

Lemma keepsFiles_Keyword_runMerge queries states :
  keepsFiles (Keyword.runMerge queries states).
Proof.
  eapply keepsFiles_ext; [apply Keyword_runMerge_collect|].
  apply keepsFiles_bind; [|intros; apply keepsFiles_ret].
  apply keepsFiles_mapM', keepsFiles_fetchKeyword.
Qed.

Lemma keepsFiles_Browser_runMerge queries states :
  keepsFiles (Browser.runMerge queries states).
Proof.
  eapply keepsFiles_ext; [apply Browser_runMerge_collect|].
  apply keepsFiles_bind; [|intros; apply keepsFiles_ret].
  apply keepsFiles_mapM', keepsFiles_scrapeSearchTerm.
Qed.

Lemma keepsFiles_AdvSearch_runMerge searches :
  keepsFiles (AdvSearch.runMerge searches).
Proof.
  eapply keepsFiles_ext; [apply AdvSearch_runMerge_collect|].
  apply keepsFiles_bind; [|intros; apply keepsFiles_ret].
  apply keepsFiles_mapM', keepsFiles_searchRows.
Qed.

(** *** The feeds of a run *)

Lemma pushTo_Forall (P : Rec -> Prop) st r m :
  P r -> Forall (fun e => Forall P (snd e)) m ->
  Forall (fun e => Forall P (snd e)) (pushTo st r m).
Proof.
  intros Hr. induction 1 as [|[k items] m Hk Hm IH]; cbn [pushTo].
  - repeat constructor. exact Hr.
  - destruct (str_eqb k st); constructor; auto.
    cbn [snd] in *. apply Forall_app. split; [exact Hk|]. now constructor.
Qed.

(** Every record of a partition is a merged record. *)
Lemma partition_Forall (P : Rec -> Prop) merged :
  Forall P merged -> Forall (fun e => Forall P (snd e)) (partition merged).
Proof.
  unfold partition.
  assert (H : Forall (fun e : jsstring * list Rec => Forall P (snd e)) [])
    by constructor.
  revert H. generalize ([] : StateMap) as m.
  induction merged as [|r merged IH]; intros m Hm Hall; [exact Hm|].
  inversion Hall as [|? ? Hr Hrest]; subst.
  cbn [fold_left]. apply IH; [|exact Hrest]. clear IH Hall Hrest.
  revert m Hm. induction (stateTokens r) as [|t ts IHt]; intros m Hm;
    [exact Hm|].
  cbn [fold_left]. apply IHt. now apply pushTo_Forall.
Qed.

Lemma stateFeeds_written feedName (byState : StateMap) : forall st,
  Forall (fun e => Forall (fun r => serializable r = true) (snd e)) byState ->
  exists st', foldM (writeStateFeed feedName) tt byState st = (Ok tt, st').
Proof.
  induction byState as [|[k items] l IH]; intros st H; [cbn; eauto|].
  inversion H as [|? ? Hi Hl]; subst. cbn [snd] in Hi. cbn [foldM].
  pose proof (writeRss_cases (statePath k) (stateTitle feedName k) homeLink
                items st) as Hw.
  rewrite (proj2 (List.forallb_forall _ _)) in Hw
    by (intros r Hr; exact (proj1 (List.Forall_forall _ _) Hi r Hr)).
  destruct Hw as (doc & st1 & Hw & _).
  unfold mbind, M_bind. cbn [writeStateFeed]. rewrite Hw. apply IH, Hl.
Qed.

Lemma writeRss_Ok filePath feedTitle link items st st' :
  writeRss filePath feedTitle link items st = (Ok tt, st') ->
  exists xml s1,
    rssXml feedTitle link items st = (Ok xml, s1)
    /\ files st' = <[filePath := trim xml ++ nl]> (files st).
Proof.
  unfold writeRss, mbind, M_bind.
  pose proof (keepsFiles_rssXml feedTitle link items st) as Hk.
  destruct (rssXml _ _ _ st) as [[xml|e] s1] eqn:Hx; [|discriminate].
  unfold writeFileSync. intros [= <-]. cbn [files snd] in *.
  exists xml, s1. split; [reflexivity|]. now rewrite Hk.
Qed.

(** The feed of an entry of the map is in its file after the loop, unless a
    later entry has the same path. *)
Lemma stateFeeds_hold feedName l1 k items l2 s0 s1 :
  foldM (writeStateFeed feedName) tt (l1 ++ (k, items) :: l2) s0
  = (Ok tt, s1) ->
  Forall (fun e => statePath (fst e) <> statePath k) l2 ->
  exists doc, feedOf feedName k items doc
              /\ files s1 !! statePath k = Some doc.
Proof.
  intros H Hl2.
  replace (l1 ++ (k, items) :: l2) with ((l1 ++ [(k, items)]) ++ l2) in H
    by now rewrite <- app_assoc.
  apply foldM_unit_app in H as (s' & H1 & H2).
  apply writeStateFeeds_last in H1 as (doc & Hd & Hf).
  exists doc. split; [exact Hd|].
  now rewrite (writeStateFeeds_other _ _ _ _ _ H2 Hl2).
Qed.

Lemma feeds_cases (nationalTitle feedName : jsstring) (merged : list Rec)
    (st : State) :
  let feeds : M unit :=
    _ ← ensureDir OUT_DIR;
    _ ← writeRss OUT_MAIN nationalTitle homeLink merged;
    writeStateFeeds feedName (partition merged) in
  if forallb serializable merged
  then exists xml s1 st',
         feeds st = (Ok tt, st')
         /\ rssXml nationalTitle homeLink merged st = (Ok xml, s1)
         /\ (Forall (fun e => statePath (fst e) <> OUT_MAIN) (partition merged)
             -> files st' !! OUT_MAIN = Some (trim xml ++ nl))
         /\ (forall l1 k items l2,
               partition merged = l1 ++ (k, items) :: l2 ->
               Forall (fun e => statePath (fst e) <> statePath k) l2 ->
               exists doc, feedOf feedName k items doc
                           /\ files st' !! statePath k = Some doc)
         /\ forall p, p <> OUT_MAIN ->
              Forall (fun e => statePath (fst e) <> p) (partition merged) ->
              files st' !! p = files st !! p
  else exists st', feeds st = (Throw TypeError, st') /\ files st' = files st.
Proof.
  cbn zeta. unfold ensureDir.
  pose proof (writeRss_cases OUT_MAIN nationalTitle homeLink merged st) as Hw.
  destruct (forallb serializable merged) eqn:Hall.
  - destruct Hw as (doc & st1 & Hw & _).
    destruct (writeRss_Ok _ _ _ _ _ _ Hw) as (xml & s1 & Hx & Hf).
    assert (Hp : Forall (fun e => Forall (fun r => serializable r = true)
                                    (snd e)) (partition merged)).
    { apply partition_Forall, List.Forall_forall.
      exact (proj1 (List.forallb_forall _ _) Hall). }
    destruct (stateFeeds_written feedName _ st1 Hp) as (st2 & Hs).
    assert (Hrun : writeStateFeeds feedName (partition merged) st1
                   = (Ok tt, if bool_decide (partition merged <> [])
                             then st2 else st1)).
    { unfold writeStateFeeds, ensureDir. case_bool_decide as Hne.
      - exact Hs.
      - reflexivity. }
    assert (Hframe : forall p,
              Forall (fun e => statePath (fst e) <> p) (partition merged) ->
              files (if bool_decide (partition merged <> [])
                     then st2 else st1) !! p = files st1 !! p).
    { intros p Hpath. case_bool_decide; [|reflexivity].
      exact (writeStateFeeds_other _ _ _ _ _ Hs Hpath). }
    exists xml, s1,
      (if bool_decide (partition merged <> []) then st2 else st1).
    split; [|split; [exact Hx|split; [|split]]].
    + unfold mbind, M_bind, mret, M_ret. now rewrite Hw.
    + intros Hpath. etrans; [exact (Hframe _ Hpath)|].
      rewrite Hf. apply lookup_insert_eq.
    + intros l1 k items l2 E Hl2.
      rewrite bool_decide_eq_true_2 by (rewrite E; now destruct l1).
      rewrite E in Hs. exact (stateFeeds_hold _ _ _ _ _ _ _ Hs Hl2).
    + intros p Hne Hpath. etrans; [exact (Hframe _ Hpath)|].
      rewrite Hf. now apply lookup_insert_ne.
  - destruct Hw as (st1 & Hw & Hf). exists st1. split; [|exact Hf].
    unfold mbind, M_bind, mret, M_ret. now rewrite Hw.
Qed.

(** X14: the feeds of a run are written all or none.  When every merged
    record is serializable the run succeeds: the national file holds the
    document of the merged records, built before anything is written; for
    every entry of the partition map the file of its label holds the feed
    of its records, unless a later label has the same file, and then that
    file holds the feed of the last such label; and no other file is
    touched.  Otherwise the national feed throws a TypeError before
    anything is written.  A per-state feed never fails once the national
    feed is written, since it holds merged records only.  (Creating a
    directory and writing a file are taken to succeed: errors of the file
    system are not modelled.) *)
Theorem writeFeeds_all_or_nothing (feedName : jsstring) (merged : list Rec)
    (st : State) :
  if forallb serializable merged
  then exists xml s1 st',
         writeFeeds feedName merged st = (Ok tt, st')
         /\ rssXml (feedName ++ lit " (National)") homeLink merged st
            = (Ok xml, s1)
         /\ (Forall (fun e => statePath (fst e) <> OUT_MAIN) (partition merged)
             -> files st' !! OUT_MAIN = Some (trim xml ++ nl))
         /\ (forall l1 k items l2,
               partition merged = l1 ++ (k, items) :: l2 ->
               Forall (fun e => statePath (fst e) <> statePath k) l2 ->
               exists doc, feedOf feedName k items doc
                           /\ files st' !! statePath k = Some doc)
         /\ forall p, p <> OUT_MAIN ->
              Forall (fun e => statePath (fst e) <> p) (partition merged) ->
              files st' !! p = files st !! p
  else exists st',
         writeFeeds feedName merged st = (Throw TypeError, st')
         /\ files st' = files st.
Proof.
  exact (feeds_cases (feedName ++ lit " (National)") feedName merged st).
Qed.

(** *** A build that fails *)

(** A computation that has written nothing when it throws. *)
Definition failsClean {A : Type} (m : M A) : Prop :=
  forall st e, fst (m st) = Throw e -> files (snd (m st)) = files st.

Lemma failsClean_bind {A B : Type} (m : M A) (k : A -> M B) :
  keepsFiles m -> (forall a, failsClean (k a)) -> failsClean (x ← m; k x).
Proof.
  intros Hm Hk st e. unfold mbind, M_bind. specialize (Hm st).
  destruct (m st) as [[a|e'] st1]; cbn [snd] in *; [|now intros _].
  intros H. now rewrite (Hk a st1 e H).
Qed.

Lemma failsClean_feeds nationalTitle feedName merged :
  failsClean (_ ← ensureDir OUT_DIR;
              _ ← writeRss OUT_MAIN nationalTitle homeLink merged;
              writeStateFeeds feedName (partition merged)).
Proof.
  intros st e. pose proof (feeds_cases nationalTitle feedName merged st) as H.
  cbn zeta in H. destruct (forallb serializable merged).
  - destruct H as (xml & s1 & st' & -> & _). discriminate.
  - destruct H as (st' & -> & Hf). now intros _.
Qed.

Lemma rowRec_serializable rows : forallb serializable (List.map rowRec rows) = true.
Proof. induction rows as [|r rows IH]; [reflexivity|exact IH]. Qed.

Lemma failsClean_national nationalTitle rows :
  failsClean (_ ← ensureDir OUT_DIR;
              writeRss OUT_MAIN nationalTitle homeLink (List.map rowRec rows)).
Proof.
  intros st e. unfold ensureDir, mbind, M_bind, mret, M_ret.
  pose proof (writeRss_cases OUT_MAIN nationalTitle homeLink
                (List.map rowRec rows) st) as H.
  rewrite rowRec_serializable in H. destruct H as (doc & st' & -> & _).
  discriminate.
Qed.

Lemma failed_build_cases (queries : list Query) (states : list jsstring)
    (searches : list AdvSearch.Search) :
  failsClean (keywordBuild queries states)
  /\ failsClean (browserBuild queries states)
  /\ failsClean (advancedBuild searches).
Proof.
  split; [|split].
  - apply failsClean_bind; [apply keepsFiles_Keyword_runMerge|].
    intros merged. apply failsClean_feeds.
  - apply failsClean_bind; [apply keepsFiles_Browser_runMerge|].
    intros merged. apply failsClean_national.
  - apply failsClean_bind; [apply keepsFiles_AdvSearch_runMerge|].
    intros merged. apply failsClean_feeds.
Qed.

(** X15: a build that ends in an exception has written no feed, in each of
    the three builds: retrieval writes nothing, all of it is done before
    the first feed is written, and the feeds are written all or none.  A
    rejected request, a body that does not parse, a row that cannot be
    normalized or a record that cannot be serialized leaves the feeds of
    the previous run as they were.  (The builds are taken up to their last
    feed, and errors of the file system are not modelled.) *)
Theorem failed_build_keeps_feeds (queries : list Query)
    (states : list jsstring) (searches : list AdvSearch.Search)
    (st : State) :
  (forall e, fst (keywordBuild queries states st) = Throw e ->
     files (snd (keywordBuild queries states st)) = files st)
  /\ (forall e, fst (browserBuild queries states st) = Throw e ->
        files (snd (browserBuild queries states st)) = files st)
  /\ (forall e, fst (advancedBuild searches st) = Throw e ->
        files (snd (advancedBuild searches st)) = files st).
Proof.
  destruct (failed_build_cases queries states searches) as (H1 & H2 & H3).
  split; [|split]; intros e; [apply H1|apply H2|apply H3].
Qed.

(** X16: the browser build fails only in retrieval, with which the
    handling of the browser is counted: once the rows are scraped the
    national feed is always written, since a scraped row has texts for
    [id], [title] and [url] and nothing else.  (Errors of the file system
    are not modelled.) *)
Theorem browserBuild_written (queries : list Query) (states : list jsstring)
    (st st1 : State) (merged : list Browser.Row) :
  Browser.runMerge queries states st = (Ok merged, st1) ->
  exists doc st',
    browserBuild queries states st = (Ok tt, st')
    /\ files st' = <[OUT_MAIN := doc]> (files st).
Proof.
  intros H. unfold browserBuild, ensureDir, mbind, M_bind, mret, M_ret.
  pose proof (keepsFiles_Browser_runMerge queries states st) as Hk.
  rewrite H in Hk |- *. cbn [snd] in Hk.
  pose proof (writeRss_cases OUT_MAIN (keywordWatch ++ lit " (National)")
                homeLink (List.map rowRec merged) st1) as Hw.
  rewrite rowRec_serializable in Hw. destruct Hw as (doc & st' & Hw & Hf).
  exists doc, st'. split; [exact Hw|]. now rewrite Hf, Hk.
Qed.

End Builds.

(** ** What reaches the feeds *)

Section MergedRecords.
Context `{RT : Runtime}.

Lemma mapM'_Forall {A B : Type} (f : A -> M B) (P : B -> Prop) l :
  (forall x st y st', f x st = (Ok y, st') -> P y) ->
  forall st ys st', mapM' f l st = (Ok ys, st') -> Forall P ys.
Proof.
  intros Hf. induction l as [|x l IH]; intros st ys st' H.
  - injection H as <- _. constructor.
  - cbn [mapM'] in H. unfold mbind, M_bind in H.
    destruct (f x st) as [[y|e] st1] eqn:Hx; [|discriminate].
    destruct (mapM' f l st1) as [[ys'|e] st2] eqn:Hl; [|discriminate].
    injection H as <- _. constructor; eauto.
Qed.

Lemma normalizeRows_kept data recs :
  normalizeRows data = Ok recs -> Forall (fun r => kept r = true) recs.
Proof.
  unfold normalizeRows. intros H. repeat bind_inv H. injection H as <-.
  apply List.Forall_forall. now intros r [_ Hr]%filter_In.
Qed.

Lemma extractLinks_kept html : Forall (fun r => kept r = true) (extractLinks html).
Proof.
  eapply Forall_impl;
    [apply (Extracts_linkShaped html), extractLinks_Extracts|].
  intros r Hr. now apply linkShaped_fit.
Qed.

Lemma fetchKeyword_kept term st rows st' :
  Keyword.fetchKeyword term st = (Ok rows, st') ->
  Forall (fun r => kept r = true) rows.
Proof.
  unfold Keyword.fetchKeyword. rewrite bind_call.
  destruct (fetch _ (env st)) as [[res|e] e1]; [|discriminate].
  destruct (Keyword.indicatesJson res).
  - rewrite bind_liftR. destruct (res_json res) as [data|]; [|discriminate].
    unfold liftR. intros [= H _]. now apply normalizeRows_kept in H.
  - unfold Keyword.fetchKeywordViaHtml. rewrite bind_liftR.
    destruct (encodeURIComponent term); [|discriminate].
    rewrite bind_call. destruct (fetch _ _) as [[page|e] e2]; [|discriminate].
    rewrite bind_liftR. destruct (res_text page) as [html|]; [|discriminate].
    intros [= <- _]. apply extractLinks_kept.
Qed.

Lemma searchRows_kept s st rows st' :
  AdvSearch.searchRows s st = (Ok rows, st') ->
  Forall (fun r => kept r = true) rows.
Proof.
  unfold AdvSearch.searchRows.
  destruct (AdvSearch.orElse _ _) as [adv|];
    [|intros [= <- _]; constructor].
  destruct (negb (truthy (Some adv))); [intros [= <- _]; constructor|].
  rewrite bind_call. destruct (fetch _ (env st)) as [[res|e] e1];
    [|discriminate].
  destruct (negb (res_ok res)); [intros [= <- _]; constructor|].
  rewrite bind_liftR. destruct (res_json res) as [data|]; [|discriminate].
  unfold liftR. intros [= H _]. now apply normalizeRows_kept in H.
Qed.

Lemma firstByKey_Forall {A : Type} (key : A -> jsstring) (P : A -> Prop)
    (rows : list (list A)) :
  Forall (Forall P) rows -> Forall P (firstByKey key (concat rows)).
Proof.
  intros H. apply List.Forall_forall. intros r Hr%list_elem_of_In.
  apply (firstByKey_spec key) in Hr as (i & Hi & _).
  apply list_elem_of_lookup_2, list_elem_of_In, in_concat in Hi
    as (l & Hl & Hr).
  apply (proj1 (List.Forall_forall _ _)
           (proj1 (List.Forall_forall _ _) H l Hl) r Hr).
Qed.

(** X17: every record the two fetch builds hand to the feeds has an [id]
    that is not empty and a truthy [url], whichever way it was retrieved:
    the normalizer filters on the two, and a link of the search page has
    both by its pattern. *)
Theorem merged_records_kept (queries : list Query) (states : list jsstring)
    (searches : list AdvSearch.Search) (st st' : State) (merged : list Rec) :
  Keyword.runMerge queries states st = (Ok merged, st')
  \/ AdvSearch.runMerge searches st = (Ok merged, st') ->
  Forall (fun r => id r <> [] /\ truthy (url r) = true) merged.
Proof.
  intros H.
  assert (Hk : Forall (fun r => kept r = true) merged).
  { destruct H as [H|H].
    - rewrite Keyword_runMerge_collect in H. unfold mbind, M_bind in H.
      destruct (keywordRows queries states st) as [[rows|e] st1] eqn:Hr;
        [|discriminate].
      injection H as <- _. apply firstByKey_Forall.
      exact (mapM'_Forall _ _ _ fetchKeyword_kept _ _ _ Hr).
    - rewrite AdvSearch_runMerge_collect in H. unfold mbind, M_bind in H.
      destruct (advancedRows searches st) as [[rows|e] st1] eqn:Hr;
        [|discriminate].
      injection H as <- _. apply firstByKey_Forall.
      exact (mapM'_Forall _ _ _ searchRows_kept _ _ _ Hr). }
  eapply Forall_impl; [exact Hk|]. intros r. unfold kept.
  intros [Hi Hu]%andb_prop. split; [now destruct (id r)|exact Hu].
Qed.

End MergedRecords.

Definition solarMerged : list Rec :=
  Eval vm_compute in
    match fst (@Keyword.runMerge solarRuntime
                 [mkQuery (lit "solar") true] [lit "NV"; lit "UT"]
                 (@mkState solarRuntime 0%nat ∅)) with
    | Ok l => l
    | Throw _ => []
    end.

Lemma merged_records_kept_witness :
  length solarMerged = 2%nat
  /\ Forall (fun r => id r <> [] /\ truthy (url r) = true) solarMerged.
Proof.
  split; [reflexivity|].
  apply (@merged_records_kept solarRuntime
           [mkQuery (lit "solar") true] [lit "NV"; lit "UT"] []
           (@mkState solarRuntime 0%nat ∅)
           (@mkState solarRuntime 2%nat ∅) solarMerged).
  left. vm_compute. reflexivity.
Defined.

Lemma browserBuild_written_witness :
  exists doc st',
    @browserBuild (scriptedRuntime twoAnchors offline)
      [mkQuery (lit "solar") false] []
      (@mkState (scriptedRuntime twoAnchors offline) 0%nat ∅) = (Ok tt, st')
    /\ files st'
       = <[@OUT_MAIN (scriptedRuntime twoAnchors offline) := doc]> ∅.
Proof.
  apply (@browserBuild_written (scriptedRuntime twoAnchors offline)
           [mkQuery (lit "solar") false] []
           (@mkState (scriptedRuntime twoAnchors offline) 0%nat ∅)
           (@mkState (scriptedRuntime twoAnchors offline) 1%nat ∅)
           [ Browser.mkRow (lit "42") (lit "Solar One")
               (lit "https://eplanning.blm.gov/eplanning-ui/project/42/510");
             Browser.mkRow (lit "42") (lit "Solar One")
               (lit "https://eplanning.blm.gov/eplanning-ui/project/42/510?from=/510") ]).
  vm_compute. reflexivity.
Defined.

(** ** The entries of a written feed *)

(** A text that holds no less-than sign followed by the letter i, and does
    not end with a less-than sign: no part of an opening item tag. *)
Definition quiet (s : jsstring) : Prop :=
  noPair (chr "<") (chr "i") s = true /\ lastIs (chr "<") s = false.

Lemma lastIs_app x a b :
  lastIs x (a ++ b) = match b with [] => lastIs x a | _ :: _ => lastIs x b end.
Proof.
  destruct b as [|c b]; [now rewrite app_nil_r|].
  induction a as [|d a IH]; [reflexivity|].
  cbn [app]. destruct (a ++ c :: b) eqn:E; [now destruct a|].
  cbn [lastIs]. cbn [lastIs] in IH. exact IH.
Qed.

Lemma quiet_app a b : quiet a -> quiet b -> quiet (a ++ b).
Proof.
  intros [Ha La] [Hb Lb]. split.
  - now rewrite noPair_app, Ha, La, Hb.
  - rewrite lastIs_app. now destruct b.
Qed.

Lemma quiet_no_lt s : Forall (fun c => c <> chr "<") s -> quiet s.
Proof. apply noPair_without_first. Qed.

Lemma quiet_escapeXml s : quiet (escapeXml s).
Proof. apply quiet_no_lt, escapeXml_no_lt. Qed.

Lemma quiet_join sep parts :
  quiet sep -> Forall quiet parts -> quiet (join sep parts).
Proof.
  intros Hs. induction 1 as [|p rest Hp Hrest IH]; [now split|].
  destruct rest as [|q rest]; [exact Hp|].
  change (join sep (p :: q :: rest)) with (p ++ sep ++ join sep (q :: rest)).
  now repeat apply quiet_app.
Qed.

Ltac quiet_leaf :=
  first [ assumption
        | apply quiet_escapeXml
        | split; vm_compute; reflexivity ].

Ltac quiet_cat := repeat (apply quiet_app; [quiet_leaf|]); quiet_leaf.

Lemma quiet_description item d : description item = Ok d -> quiet d.
Proof.
  unfold description. intros H. bind_inv H.
  apply descParts_lines in Ha.
  destruct a as [|l ls]; [injection H as <-; now split|].
  assert (E : d = lit "<p>" ++ join (lit "<br/>") (l :: ls) ++ lit "</p>")
    by congruence.
  rewrite E. clear E H.
  assert (Hq : Forall quiet (l :: ls)).
  { eapply Forall_impl; [exact Ha|]. intros x (label & s & Hl & ->).
    apply quiet_app; [|apply quiet_escapeXml].
    cbn [In metadataLabels] in Hl.
    repeat (destruct Hl as [<-|Hl]; [split; vm_compute; reflexivity|]).
    contradiction. }
  apply quiet_app; [quiet_leaf|]. apply quiet_app; [|quiet_leaf].
  apply quiet_join; [quiet_leaf|exact Hq].
Qed.

Lemma occurrences_quiet a b :
  quiet a -> occurrences (lit "<item>") (a ++ b) = occurrences (lit "<item>") b.
Proof.
  intros [Hn Hl]. induction a as [|c a IH]; [reflexivity|].
  cbn [app occurrences].
  assert (E : startsWith (lit "<item>") (c :: a ++ b) = false).
  { change (lit "<item>") with (chr "<" :: chr "i" :: lit "tem>").
    cbn [startsWith]. destruct (N.eqb_spec (chr "<") c) as [<-|]; [|reflexivity].
    cbn [andb]. destruct a as [|d a].
    - cbn in Hl. discriminate.
    - cbn [app].
      change (noPair (chr "<") (chr "i") (chr "<" :: d :: a))
        with (negb ((chr "<" =? chr "<") && (d =? chr "i"))
              && noPair (chr "<") (chr "i") (d :: a)) in Hn.
      apply andb_prop in Hn as [Hn _]. rewrite N.eqb_refl in Hn.
      cbn [andb] in Hn. apply negb_true_iff in Hn.
      now rewrite N.eqb_sym, Hn. }
  rewrite E. cbn [Nat.add]. apply IH.
  - destruct a as [|d a]; [reflexivity|].
    change (noPair (chr "<") (chr "i") (c :: d :: a))
      with (negb ((c =? chr "<") && (d =? chr "i"))
            && noPair (chr "<") (chr "i") (d :: a)) in Hn.
    now apply andb_prop in Hn as [_ Hn].
  - destruct a as [|d a]; [reflexivity|exact Hl].
Qed.

Lemma occurrences_item b :
  occurrences (lit "<item>") (lit "<item>" ++ b)
  = S (occurrences (lit "<item>") b).
Proof.
  change (lit "<item>" ++ b) with (chr "<" :: (lit "item>" ++ b)).
  cbn [occurrences].
  assert (E : startsWith (lit "<item>") (chr "<" :: lit "item>" ++ b) = true)
    by (apply startsWith_iff; now exists b).
  rewrite E. cbn [Nat.add]. now f_equal.
Qed.

(** An entry: the opening tag on a line of its own, and then nothing that
    opens another. *)
Definition isEntry (e : jsstring) : Prop :=
  exists body, e = nl ++ lit "  " ++ lit "<item>" ++ body /\ quiet body.

Lemma occurrences_entries entries : forall rest,
  Forall isEntry entries -> quiet rest ->
  occurrences (lit "<item>") (join nl entries ++ rest) = length entries.
Proof.
  assert (Hrest : forall rest, quiet rest ->
                    occurrences (lit "<item>") rest = 0%nat).
  { intros rest Hr. rewrite <- (app_nil_r rest).
    now rewrite occurrences_quiet. }
  assert (Hentry : forall body R, quiet body ->
            occurrences (lit "<item>")
              ((nl ++ lit "  " ++ lit "<item>" ++ body) ++ R)
            = S (occurrences (lit "<item>") R)).
  { intros body R Hb.
    replace ((nl ++ lit "  " ++ lit "<item>" ++ body) ++ R)
      with ((nl ++ lit "  ") ++ lit "<item>" ++ body ++ R)
      by now rewrite <- !app_assoc.
    rewrite occurrences_quiet by (split; vm_compute; reflexivity).
    rewrite occurrences_item. f_equal. now apply occurrences_quiet. }
  induction entries as [|e es IH]; intros rest He Hr; [now apply Hrest|].
  apply Forall_cons in He as [(body & -> & Hb) Hes].
  destruct es as [|e2 es].
  - cbn [join length]. rewrite Hentry by exact Hb. f_equal. now apply Hrest.
  - change (join nl ((nl ++ lit "  " ++ lit "<item>" ++ body) :: e2 :: es))
      with ((nl ++ lit "  " ++ lit "<item>" ++ body)
            ++ nl ++ join nl (e2 :: es)).
    rewrite <- !app_assoc.
    replace (nl ++ lit "  " ++ lit "<item>" ++ body
             ++ nl ++ join nl (e2 :: es) ++ rest)
      with ((nl ++ lit "  " ++ lit "<item>" ++ body)
            ++ nl ++ join nl (e2 :: es) ++ rest)
      by now rewrite <- !app_assoc.
    rewrite Hentry by exact Hb. cbn [length]. f_equal.
    rewrite occurrences_quiet by (split; vm_compute; reflexivity).
    now apply IH.
Qed.

(** A text [trimEnd] leaves as it is, and that is not empty. *)
Definition endsFirm (s : jsstring) : Prop := trimEnd s = s /\ s <> [].

Lemma endsFirm_app a b : endsFirm b -> endsFirm (a ++ b).
Proof.
  intros [Hb Hne]. induction a as [|x a [IH1 IH2]]; [now split|].
  split; [|discriminate]. cbn [app trimEnd]. rewrite IH1.
  now destruct (a ++ b).
Qed.

Lemma startsWith_snoc p c : Forall (fun a => a <> c) p ->
  forall s, startsWith p (s ++ [c]) = startsWith p s.
Proof.
  induction 1 as [|a p Ha _ IH]; intros s; [reflexivity|].
  destruct s as [|b s]; cbn [app startsWith].
  - apply N.eqb_neq in Ha. now rewrite Ha.
  - now rewrite IH.
Qed.

Lemma occurrences_line_feed s :
  occurrences (lit "<item>") (s ++ nl) = occurrences (lit "<item>") s.
Proof.
  induction s as [|c s IH]; [reflexivity|].
  cbn [app occurrences]. rewrite IH. f_equal.
  change (c :: s ++ nl) with ((c :: s) ++ nl). unfold nl.
  rewrite startsWith_snoc; [reflexivity|].
  vm_compute. repeat constructor; discriminate.
Qed.

Lemma Ok_pair_eq {A S : Type} (a b : A) (s s' : S) :
  (Ok a, s) = (Ok b, s') -> a = b.
Proof. congruence. Qed.

Section Entries.
Context `{RT : Runtime}.

(** The clock prints no less-than sign. *)
Hypothesis clock_text :
  forall e, Forall (fun c => c <> chr "<") (fst (toUTCString e)).

Lemma itemToRss_entry item st e st' :
  itemToRss item st = (Ok e, st') -> isEntry e.
Proof.
  unfold itemToRss. rewrite bind_liftR.
  destruct (description item) as [d|] eqn:Hd; [|discriminate].
  apply quiet_description in Hd. rewrite !bind_liftR.
  destruct (escapeXmlV (url item)) as [link|] eqn:Hl; [|discriminate].
  assert (Hlink : quiet link).
  { destruct (url item) as [[]|]; try discriminate;
      injection Hl as <-; first [apply quiet_escapeXml | now split]. }
  unfold nowRfc822. rewrite bind_call.
  pose proof (clock_text (env st)) as Hc.
  destruct (toUTCString (env st)) as [date e1]. cbn [fst] in Hc.
  apply quiet_no_lt in Hc. intros H. apply Ok_pair_eq in H. subst e.
  change (lit "  <item>") with (lit "  " ++ lit "<item>").
  rewrite <- !app_assoc. eexists. split; [reflexivity|].
  quiet_cat.
Qed.

Lemma mapM'_length {A B : Type} (f : A -> M B) l : forall st ys st',
  mapM' f l st = (Ok ys, st') -> length ys = length l.
Proof.
  induction l as [|x l IH]; intros st ys st' H.
  - now injection H as <- _.
  - cbn [mapM'] in H. unfold mbind, M_bind in H.
    destruct (f x st) as [[y|e] st1]; [|discriminate].
    destruct (mapM' f l st1) as [[ys'|e] st2] eqn:Hl; [|discriminate].
    injection H as <- _. cbn. f_equal. eauto.
Qed.

Lemma rssXml_entries feedTitle link items st xml st' :
  rssXml feedTitle link items st = (Ok xml, st') ->
  occurrences (lit "<item>") xml = length items /\ trim xml = xml
  /\ startsWith (lit "<?xml version=") xml = true.
Proof.
  unfold rssXml, nowRfc822. rewrite bind_call.
  pose proof (clock_text (env st)) as Hc.
  destruct (toUTCString (env st)) as [date e1]. cbn [fst] in Hc.
  apply quiet_no_lt in Hc. unfold mbind, M_bind.
  destruct (mapM' itemToRss items _) as [[entries|] st1] eqn:Hm;
    [|discriminate].
  pose proof (mapM'_length _ _ _ _ _ Hm) as Hlen.
  pose proof (mapM'_Forall _ isEntry _ itemToRss_entry _ _ _ Hm) as He.
  intros H. apply Ok_pair_eq in H. subst xml. split; [|split].
  - rewrite <- Hlen.
    repeat (rewrite occurrences_quiet by quiet_leaf).
    apply occurrences_entries; [exact He|quiet_cat].
  - unfold trim.
    assert (Hs : forall R, trimStart (lit "<?xml version=" ++ R)
                           = lit "<?xml version=" ++ R)
      by (intros R; reflexivity).
    rewrite Hs. repeat apply endsFirm_app.
    split; [reflexivity|discriminate].
  - apply startsWith_iff. eexists. reflexivity.
Qed.

(** X18: a feed that is written holds exactly one opening item tag for each
    record, whatever the records hold: their texts are escaped, the markup
    of a description has no such tag, and the date has no less-than sign.
    The file is the document followed by one line feed; trimming removes
    nothing of it. *)
Theorem feed_entries_counted
    (filePath feedTitle link : jsstring) (items : list Rec) (st st' : State) :
  writeRss filePath feedTitle link items st = (Ok tt, st') ->
  exists xml,
    files st' !! filePath = Some (xml ++ nl)
    /\ occurrences (lit "<item>") (xml ++ nl) = length items
    /\ startsWith (lit "<?xml version=") xml = true
    /\ trim xml = xml.
Proof.
  unfold writeRss, mbind, M_bind.
  destruct (rssXml feedTitle link items st) as [[xml|] st1] eqn:Hx;
    [|discriminate].
  unfold writeFileSync. intros H.
  pose proof (rssXml_entries _ _ _ _ _ _ Hx) as (Hc & Ht & Hs).
  assert (Hf : files st' = <[filePath := xml ++ nl]> (files st1))
    by (injection H as <-; now rewrite Ht).
  exists xml. rewrite Hf. split; [apply lookup_insert_eq|].
  split; [|split; [exact Hs|exact Ht]].
  rewrite <- Hc. apply occurrences_line_feed.
Qed.

End Entries.
(** The state after one feed of two records is written. *)
Definition twoEntriesEnd : @State quietRuntime :=
  Eval vm_compute in
    snd (@writeRss quietRuntime (lit "/repo/docs/index.xml") keywordWatch
           homeLink [lowerNevada; upperNevada] nevadaStart).

Lemma feed_entries_counted_witness :
  exists xml,
    files twoEntriesEnd !! lit "/repo/docs/index.xml" = Some (xml ++ nl)
    /\ occurrences (lit "<item>") (xml ++ nl)
       = length [lowerNevada; upperNevada]
    /\ startsWith (lit "<?xml version=") xml = true
    /\ trim xml = xml.
Proof.
  assert (Hclock : forall e : @Env quietRuntime,
            Forall (fun c => c <> chr "<") (fst (@toUTCString quietRuntime e))).
  { intros e. vm_compute. repeat constructor; discriminate. }
  apply (@feed_entries_counted quietRuntime Hclock
           (lit "/repo/docs/index.xml") keywordWatch homeLink
           [lowerNevada; upperNevada] nevadaStart twoEntriesEnd).
  vm_compute. reflexivity.
Defined.

(** ** Which field names a record *)

Lemma firstPresent_head p k rest v :
  getProp p k = Ok (Some v) -> v <> JNull ->
  firstPresent p (k :: rest) = Ok (Some v).
Proof.
  intros E Hv. cbn [firstPresent]. rewrite E. cbn [mbind result_bind].
  now destruct v.
Qed.

(** X19: the identity and title fields are chosen with the operator that
    skips only null and undefined, so a row's own [id] is used whenever it
    is present, even when it is blank, and the other identity fields are
    then not consulted: a row with a blank [id] is dropped although it has
    a [projectId].  In the same way a blank [projectName] gives an empty
    title although the row has a [title] or a [name]. *)
Theorem present_field_wins (p : json) (r : Rec) :
  normalizeRow p = Ok r ->
  (forall v s, getProp p "id" = Ok (Some v) -> v <> JNull ->
     toStr v = Ok s -> id r = trim s /\ (trim s = [] -> kept r = false))
  /\ (forall v s, getProp p "projectName" = Ok (Some v) -> v <> JNull ->
        toStr v = Ok s -> title r = trim s).
Proof.
  unfold normalizeRow. intros H.
  apply bind_Ok in H as (idv & Hidv & H).
  apply bind_Ok in H as (ids & Hids & H).
  apply bind_Ok in H as (tv & Htv & H).
  apply bind_Ok in H as (ts & Hts & H).
  repeat bind_inv H. injection H as <-. cbn [id title]. split.
  - intros v s Hv Hnn Hs.
    unfold idFields in Hidv. rewrite (firstPresent_head _ _ _ _ Hv Hnn) in Hidv.
    injection Hidv as <-. rewrite Hs in Hids. injection Hids as <-.
    split; [reflexivity|]. intros E. unfold kept. cbn [id]. now rewrite E.
  - intros v s Hv Hnn Hs.
    rewrite (firstPresent_head _ _ _ _ Hv Hnn) in Htv.
    injection Htv as <-. rewrite Hs in Hts. now injection Hts as <-.
Qed.

(** A row with a blank id and a blank project name. *)
Definition blankRow : json :=
  obj [ ("id", JStr (lit " ")); ("projectId", JNum (lit "5"));
        ("projectName", JStr []); ("title", JStr (lit "Solar One")) ]%string.

Definition blankRec : Rec :=
  Eval vm_compute in
    match normalizeRow blankRow with
    | Ok r => r
    | Throw _ => mkRec [] [] None None None None None None
    end.

Lemma present_field_wins_witness :
  id blankRec = [] /\ kept blankRec = false /\ title blankRec = []
  /\ url blankRec = Some (JStr (projectUrl (lit "5"))).
Proof.
  assert (H : normalizeRow blankRow = Ok blankRec)
    by (vm_compute; reflexivity).
  destruct (present_field_wins blankRow blankRec H) as [Hid Ht].
  destruct (Hid (JStr (lit " ")) (lit " ")) as [E1 E2];
    [vm_compute; reflexivity|discriminate|reflexivity|].
  split; [exact E1|]. split; [now apply E2|].
  split; [|reflexivity].
  apply (Ht (JStr []) []); [vm_compute; reflexivity|discriminate|reflexivity].
Defined.

(** ** The names of the per-state files *)

Section FileNames.
Context `{RT : Runtime}.

Lemma fname_letters st : Forall (fun c => isUpperAZ c = true) (fname st).
Proof.
  unfold fname, replaceClass.
  induction (toUpperCase st) as [|c l IH]; [constructor|].
  cbn [flat_map]. destruct (isUpperAZ c) eqn:E; cbn [negb app]; [|exact IH].
  now constructor.
Qed.

Lemma isUpperAZ_fixed l :
  Forall (fun c => isUpperAZ c = true) l ->
  forallb (fun c => c <? 128) l = true
  /\ List.filter isUpperAZ (List.map canon l) = l.
Proof.
  induction 1 as [|c l Hc _ [IH1 IH2]]; [now split|].
  assert (Hb : 65 <= c <= 90).
  { unfold isUpperAZ in Hc. apply andb_prop in Hc as [H1 H2].
    apply N.leb_le in H1, H2. lia. }
  assert (Hcanon : canon c = c).
  { unfold canon. destruct (_ && _) eqn:E; [|reflexivity].
    apply andb_prop in E as [E1 E2]. apply N.leb_le in E1, E2. lia. }
  split.
  - cbn [forallb]. rewrite IH1, andb_true_r. apply N.ltb_lt. lia.
  - cbn [List.map List.filter]. now rewrite Hcanon, Hc, IH2.
Qed.

(** X20: the file name of a per-state feed holds the letters A to Z and
    nothing else, whatever the label and whatever the case mapping of the
    engine does with it: no separator and no dot, so that every per-state
    feed is a file of the by-state directory itself; and a file name is its
    own file name. *)
Theorem fname_only_letters (st : jsstring) :
  Forall (fun c => 65 <= c <= 90) (fname st)
  /\ (chr "/" ∉ fname st) /\ (chr "." ∉ fname st)
  /\ fname (fname st) = fname st.
Proof.
  pose proof (fname_letters st) as H.
  assert (Hb : Forall (fun c => 65 <= c <= 90) (fname st)).
  { eapply Forall_impl; [exact H|]. intros c Hc. unfold isUpperAZ in Hc.
    apply andb_prop in Hc as [H1 H2]. apply N.leb_le in H1, H2. lia. }
  split; [exact Hb|].
  assert (Hout : forall c, ~ 65 <= c <= 90 -> c ∉ fname st).
  { intros c Hc Hin. apply Hc.
    exact (proj1 (Forall_forall _ _) Hb c Hin). }
  split; [apply Hout; vm_compute; intros [? ?]; congruence|].
  split; [apply Hout; vm_compute; intros [? ?]; congruence|].
  destruct (isUpperAZ_fixed _ H) as [Ha Hf].
  now rewrite (fname_ascii _ Ha).
Qed.

End FileNames.
